(** * Version comparison and policy-schema diffing

    A shallow embedding of two pure pieces of the report generators:

    - [compareVer], the version comparator of the add-on compatibility
      report generator, with its local helper [prep] and the two regular
      expressions [prep] applies;
    - [extractFlatPolicyNamesFromPolicySchema] and
      [checkPolicySchemaChanges] of the enterprise policy generator
      ([update_policy_templates.js]).

    The modules [Js], [Regex], [Num] and [Json] model what the functions use
    of the language: strings, backtracking regular expressions with
    [String.prototype.replace], the conversions behind [~~], property
    reads, [Object.entries] and [JSON.stringify].  [Version] and [Schema]
    are the functions themselves, [Spec] is the specification's reading of
    them, and the modules ending in [Facts] hold the proofs.

    JavaScript strings are modelled as [string]: every [ascii] stands for one
    UTF-16 code unit below 256.  The two regular expressions of [prep] treat
    every code unit outside ASCII alike (it is neither a digit, a dot nor a
    word character), so nothing of the comparator's behaviour is lost.

    Further modules follow the code around these functions: [Order] gives
    the order in which [Object.entries] lists the members of an object that
    a text writes in another order, [Tokens] names the shapes of version
    tokens, [Policy] holds [escape_code_markdown] and
    [getNameFromKey], [Reports] holds [getExtData] and the reports that
    compare versions or list permissions, [Compat] the loop that records
    since when a policy is supported, and [Badges] the rendering and
    counting of badges on the shared [badge_definitions]. *)

From Stdlib Require Import ZArith List Bool Ascii String Lia Arith.
From Stdlib Require Import Numbers.DecimalString.
Import ListNotations.

Local Open Scope string_scope.
Local Open Scope Z_scope.

(** ** JavaScript strings *)

Module Js.

Definition code (c : ascii) : Z := Z.of_nat (nat_of_ascii c).

Definition in_range (lo hi c : ascii) : bool :=
  (code lo <=? code c) && (code c <=? code hi).

(** [0-9] *)
Definition is_digit (c : ascii) : bool := in_range "0" "9" c.

(** [A-Za-z] *)
Definition is_letter (c : ascii) : bool := in_range "a" "z" c || in_range "A" "Z" c.

(** [\w], that is [A-Za-z0-9_] *)
Definition is_word (c : ascii) : bool :=
  is_letter c || is_digit c || Ascii.eqb c "_".

(** [String.prototype.toLowerCase] on code units below 256: the ASCII
    capitals, and the Latin-1 capitals U+00C0..U+00DE except the
    multiplication sign U+00D7, move up by 32. *)
Definition lower_char (c : ascii) : ascii :=
  let n := code c in
  if ((65 <=? n) && (n <=? 90)) || ((192 <=? n) && (n <=? 222) && negb (n =? 215))
  then ascii_of_nat (Z.to_nat (n + 32))
  else c.

Fixpoint toLowerCase (s : string) : string :=
  match s with
  | EmptyString => EmptyString
  | String c s' => String (lower_char c) (toLowerCase s')
  end.

(** [s.charCodeAt(0)] of a string known to be non-empty; [None] stands for
    the NaN of the empty string. *)
Definition charCodeAt0 (s : string) : option Z :=
  match s with
  | EmptyString => None
  | String c _ => Some (code c)
  end.

(** Truthiness of a string: non-empty. *)
Definition truthy_string (s : string) : bool :=
  match s with EmptyString => false | _ => true end.

(** [Number::toString] of an integer. *)
Definition Z_to_string (z : Z) : string := NilEmpty.string_of_int (Z.to_int z).

(** [s.split('.')]: always at least one fragment. *)
Fixpoint split_dot (s : string) : list string :=
  match s with
  | EmptyString => [EmptyString]
  | String c s' =>
      if Ascii.eqb c "." then EmptyString :: split_dot s'
      else match split_dot s' with
           | h :: t => String c h :: t
           | [] => [String c EmptyString]
           end
  end.

(** [s] without its longest prefix of characters in the class [p]. *)
Fixpoint skip (p : ascii -> bool) (s : string) : string :=
  match s with
  | EmptyString => EmptyString
  | String c s' => if p c then skip p s' else s
  end.

(** Every character of [s] is in the class [p]. *)
Definition all_in (p : ascii -> bool) (s : string) : bool :=
  forallb p (list_ascii_of_string s).

(** The prefix of [s] that was consumed to reach the suffix [r]. *)
Definition consumed (s r : string) : string :=
  substring 0 (String.length s - String.length r) s.

End Js.

(** ** Backtracking regular expressions

    The matcher returns every way to match, in the priority order of a
    backtracking engine: greedy quantifiers list the longer alternatives
    first.  The match JavaScript reports is the head of that list. *)

Module Regex.

Inductive regex :=
| Class (p : ascii -> bool)        (* one code unit of a character class *)
| Seq (r1 r2 : regex)
| Star (r : regex)                 (* greedy r* *)
| Opt (r : regex)                  (* greedy r? *)
| Group (n : nat) (r : regex)      (* capturing group number n *)
| Eol.                             (* $ without the m flag *)

Definition Chr (c : ascii) : regex := Class (Ascii.eqb c).

(** r+ *)
Definition Plus (r : regex) : regex := Seq r (Star r).

Record mstate := { rest : string; caps : list (nat * string) }.

Definition set_cap (n : nat) (from to : mstate) : mstate :=
  {| rest := rest to;
     caps := (n, Js.consumed (rest from) (rest to)) :: caps to |}.

Definition progress (from to : mstate) : bool :=
  (String.length (rest to) <? String.length (rest from))%nat.

(** Iterations of a starred body: an iteration that consumes nothing is
    rejected, as the language specifies for a quantifier without minimum
    (the same holds for the one iteration of an optional body).  No group
    of the expressions below stands inside a starred body, so the reset of
    captures at each iteration is not modelled. *)
Fixpoint iterate (step : mstate -> list mstate) (fuel : nat) (st : mstate)
  : list mstate :=
  match fuel with
  | O => [st]
  | S f =>
      flat_map (fun st' => if progress st st' then iterate step f st' else [])
               (step st) ++ [st]
  end.

Fixpoint run (r : regex) (st : mstate) : list mstate :=
  match r with
  | Class p =>
      match rest st with
      | String c s' => if p c then [{| rest := s'; caps := caps st |}] else []
      | EmptyString => []
      end
  | Seq r1 r2 => flat_map (run r2) (run r1 st)
  | Star r' => iterate (run r') (S (String.length (rest st))) st
  | Opt r' => filter (progress st) (run r' st) ++ [st]
  | Group n r' => map (set_cap n st) (run r' st)
  | Eol => match rest st with EmptyString => [st] | _ => [] end
  end.

(** The preferred way to match [r] from the state [st], if there is one. *)
Definition first (r : regex) (st : mstate) : option mstate := hd_error (run r st).

(** A state all of whose text, left to read or captured, is in the class. *)
Definition state_in (p : ascii -> bool) (st : mstate) : Prop :=
  Js.all_in p (rest st) = true
  /\ Forall (fun nt => Js.all_in p (snd nt) = true) (caps st).

(** One match attempt at the start of [s]. *)
Definition exec (r : regex) (s : string) : option mstate :=
  first r {| rest := s; caps := [] |}.

(** [$n] in a replacement template: the text of group [n], empty when the
    group did not take part in the match. *)
Fixpoint cap (n : nat) (cs : list (nat * string)) : string :=
  match cs with
  | [] => EmptyString
  | (m, t) :: cs' => if Nat.eqb m n then t else cap n cs'
  end.

(** [s.replace(r, f)] for a regex without the g flag: the leftmost match
    only. The replacement [f] receives the matched text and the captures. *)
Fixpoint replace_first (r : regex) (f : string -> list (nat * string) -> string)
  (s : string) : string :=
  match exec r s with
  | Some st => f (Js.consumed s (rest st)) (caps st) ++ rest st
  | None =>
      match s with
      | EmptyString => EmptyString
      | String c s' => String c (replace_first r f s')
      end
  end.

(** [s.replace(r, f)] for a regex with the g flag: after a match the search
    resumes where the match ended; after an empty match it resumes one
    code unit further. [fuel] bounds the number of search positions. *)
Fixpoint replace_all_from (fuel : nat) (r : regex)
  (f : string -> list (nat * string) -> string) (s : string) : string :=
  match fuel with
  | O => s
  | S fuel' =>
      match exec r s with
      | Some st =>
          let m := Js.consumed s (rest st) in
          if Js.truthy_string m
          then f m (caps st) ++ replace_all_from fuel' r f (rest st)
          else match s with
               | EmptyString => f m (caps st)
               | String c s' => f m (caps st) ++ String c (replace_all_from fuel' r f s')
               end
      | None =>
          match s with
          | EmptyString => EmptyString
          | String c s' => String c (replace_all_from fuel' r f s')
          end
      end
  end.

Definition replace_all (r : regex) (f : string -> list (nat * string) -> string)
  (s : string) : string :=
  replace_all_from (S (String.length s)) r f s.

End Regex.

(** ** Numbers and array elements *)

Module Num.

(** A JavaScript number that is an integer, an infinity or NaN.  Fractions
    never arise: the fragments [prep] produces hold no dot. *)
Inductive Number := NaN | PosInf | NegInf | Finite (z : Z).

(** The double nearest to the natural number [n] (ties to even, infinity
    from 2^1024 on), which is what reading a run of decimal digits yields
    when the conversion is correctly rounded. *)
Definition round_double (n : Z) : Number :=
  if n <? 2 ^ 53 then Finite n
  else
    let e := Z.log2 n - 52 in
    let q := Z.shiftr n e in
    let r := n - Z.shiftl q e in
    let half := 2 ^ (e - 1) in
    let q' := if (half <? r) || ((r =? half) && Z.odd q) then q + 1 else q in
    let v := q' * 2 ^ e in
    if 2 ^ 1024 <=? v then PosInf else Finite v.

(** The value of a non-empty run of decimal digits, most significant first. *)
Fixpoint digits_value (acc : Z) (s : string) : option Z :=
  match s with
  | EmptyString => Some acc
  | String c s' =>
      if Js.is_digit c then digits_value (10 * acc + (Js.code c - 48)) s'
      else None
  end.

Definition unsigned_literal (s : string) : Number :=
  match s with
  | EmptyString => NaN
  | _ => match digits_value 0 s with
         | Some n => round_double n
         | None => NaN
         end
  end.

Definition negate (x : Number) : Number :=
  match x with
  | NaN => NaN
  | PosInf => NegInf
  | NegInf => PosInf
  | Finite z => Finite (- z)
  end.

(** [StringToNumber] on strings over the digits and the minus sign: the
    empty string is 0, an optionally signed run of digits is its value,
    anything else is NaN. *)
Definition StringToNumber (s : string) : Number :=
  match s with
  | EmptyString => Finite 0
  | String c s' =>
      if Ascii.eqb c "-" then negate (unsigned_literal s') else unsigned_literal s
  end.

Definition all_digits (s : string) : bool := Js.all_in Js.is_digit s.

(** A fragment that reads as a number: empty, or a non-empty run of digits
    with at most one minus sign in front. *)
Definition numeric_fragment (s : string) : bool :=
  match s with
  | EmptyString => true
  | String c s' =>
      if Ascii.eqb c "-" then Js.truthy_string s' && all_digits s' else all_digits s
  end.

(** An array element: a fragment (string), a number stored by the loop, or
    [undefined] (a hole, or a read past the end). *)
Inductive jsval := Undefined | Num (z : Z) | Str (s : string).

Definition ToNumber (v : jsval) : Number :=
  match v with
  | Undefined => NaN
  | Num z => Finite z
  | Str s => StringToNumber s
  end.

(** [ToInt32]: NaN and the infinities give 0, an integer wraps modulo 2^32
    into the signed range. *)
Definition ToInt32 (x : Number) : Z :=
  match x with
  | Finite z => (z + 2 ^ 31) mod 2 ^ 32 - 2 ^ 31
  | _ => 0
  end.

(** [~~v] *)
Definition double_tilde (v : jsval) : Z := ToInt32 (ToNumber v).

(** The relational operators on two array elements: two strings compare by
    code units, anything else as numbers, and NaN is unordered. *)
Definition number_ltb (x y : Number) : bool :=
  match x, y with
  | NaN, _ | _, NaN => false
  | PosInf, _ => false
  | _, PosInf => true
  | _, NegInf => false
  | NegInf, _ => true
  | Finite m, Finite n => m <? n
  end.

Definition js_lt (x y : jsval) : bool :=
  match x, y with
  | Str s, Str t => String.ltb s t
  | _, _ => number_ltb (ToNumber x) (ToNumber y)
  end.

Definition js_gt (x y : jsval) : bool := js_lt y x.

(** [a[i]]: [undefined] past the end. *)
Definition array_get (a : list jsval) (i : nat) : jsval := nth i a Undefined.

(** [a[i] = v]: in range the element is replaced; past the end the array
    grows, the skipped positions being holes that read as [undefined]. *)
Fixpoint array_set (a : list jsval) (i : nat) (v : jsval) : list jsval :=
  match a, i with
  | [], O => [v]
  | [], S i' => Undefined :: array_set [] i' v
  | _ :: t, O => v :: t
  | h :: t, S i' => h :: array_set t i' v
  end.

End Num.

(** ** The version comparator *)

Module Version.
Import Js Regex Num.

(** [[^0-9\.]] *)
Definition tag_char (c : ascii) : bool := negb (is_digit c || Ascii.eqb c ".").

(** [[\W_]] *)
Definition nonword_char (c : ascii) : bool := negb (is_word c) || Ascii.eqb c "_".

(** The characters of a fragment: digits and the minus sign. *)
Definition segment_char (c : ascii) : bool := is_digit c || Ascii.eqb c "-".

(** The characters left after the first replacement. *)
Definition normal_char (c : ascii) : bool := segment_char c || Ascii.eqb c ".".

(** [/[^0-9\.]+/g] *)
Definition re_tag : regex := Plus (Class tag_char).

(** [/[\W_]+/] *)
Definition re_nonword : regex := Plus (Class nonword_char).

(** [/(?:\.0+)*(\.-[0-9]+)(\.[0-9]+)?\.*$/g] *)
Definition re_trail : regex :=
  Seq (Star (Seq (Chr ".") (Plus (Chr "0"))))
 (Seq (Group 1 (Seq (Chr ".") (Seq (Chr "-") (Plus (Class is_digit)))))
 (Seq (Opt (Group 2 (Seq (Chr ".") (Plus (Class is_digit)))))
 (Seq (Star (Chr "."))
      Eol))).

(** The callback of the first replacement: the run [c] of characters that
    are neither digits nor dots loses its first stretch of non-alphanumeric
    characters; what is left, if anything, contributes the code of its first
    character, lower-cased, minus 65536. *)
Definition tag_segment (c : string) (_ : list (nat * string)) : string :=
  let c := replace_first re_nonword (fun _ _ => EmptyString) c in
  "." ++ (if truthy_string c
          then match charCodeAt0 (toLowerCase c) with
               | Some n => Z_to_string (n - 65536)
               | None => "NaN"
               end
          else EmptyString) ++ ".".

(** The template [$1$2] of the second replacement. *)
Definition keep_groups (_ : string) (cs : list (nat * string)) : string :=
  cap 1 cs ++ cap 2 cs.

(** [prep]: the two replacements, then the split at the dots.  The
    argument is a string, which the concatenation with the empty string
    leaves as it is. *)
Definition prep (t : string) : list jsval :=
  map Str (split_dot (replace_all re_trail keep_groups (replace_all re_tag tag_segment t))).

(** The [for] loop of [compareVer]. The bound [Math.max(a.length, b.length)]
    is read again at every turn; [None] is the model running out of fuel. *)
Fixpoint loop (fuel : nat) (a b : list jsval) (i : nat) : option Z :=
  match fuel with
  | O => None
  | S fuel' =>
      if (i <? Nat.max (List.length a) (List.length b))%nat then
        let a := array_set a i (Num (double_tilde (array_get a i))) in
        let b := array_set b i (Num (double_tilde (array_get b i))) in
        if js_gt (array_get a i) (array_get b i) then Some 1
        else if js_lt (array_get a i) (array_get b i) then Some (-1)
        else loop fuel' a b (S i)
      else Some 0
  end.

(** The integers the loop reads off an array of fragments. *)
Definition segments (a : list jsval) : list Z := map double_tilde a.

(** [compareVer]: the three wildcard guards, then the loop over the
    fragments of both tokens.  On two strings [!=] and [==] are string
    inequality and equality. *)
Definition compareVer (a b : string) : option Z :=
  if negb (a =? "*")%string && (b =? "*")%string then Some (-1)
  else if (a =? "*")%string && negb (b =? "*")%string then Some 1
  else if (a =? "*")%string && (b =? "*")%string then Some 0
  else
    let a := prep a in
    let b := prep b in
    loop (S (Nat.max (List.length a) (List.length b))) a b 0.

End Version.

(** ** JSON values and the operations the schema functions use *)

Module Json.

(** A value handed to the schema functions: what parsing a JSON file
    yields, or [undefined].  An object is the list of its own properties in
    the order [Object.entries] and [JSON.stringify] enumerate them; numbers
    are the integers that print in plain decimal. *)
#[warnings="-register-all"]
Inductive value :=
| JUndefined
| JNull
| JBool (b : bool)
| JNum (z : Z)
| JStr (s : string)
| JArr (xs : list value)
| JObj (kvs : list (string * value)).

(** The outcome of running a piece of the program: a value, a thrown
    [TypeError], or the model running out of fuel. *)
Inductive outcome (A : Type) :=
| Ret (a : A)
| TypeError
| OutOfFuel.
Arguments Ret {A} a.
Arguments TypeError {A}.
Arguments OutOfFuel {A}.

Definition bind {A B : Type} (c : outcome A) (k : A -> outcome B) : outcome B :=
  match c with
  | Ret a => k a
  | TypeError => TypeError
  | OutOfFuel => OutOfFuel
  end.

Notation "x <- c ;; k" := (bind c (fun x => k))
  (at level 61, c at next level, right associativity).

Definition truthy (v : value) : bool :=
  match v with
  | JUndefined | JNull => false
  | JBool b => b
  | JNum z => negb (z =? 0)
  | JStr s => Js.truthy_string s
  | JArr _ | JObj _ => true
  end.

Fixpoint assoc {A : Type} (k : string) (kvs : list (string * A)) : option A :=
  match kvs with
  | [] => None
  | (k', v) :: t => if (k' =? k)%string then Some v else assoc k t
  end.

Fixpoint indexed {A B : Type} (f : A -> B) (i : nat) (xs : list A) : list (string * B) :=
  match xs with
  | [] => []
  | x :: t => (Js.Z_to_string (Z.of_nat i), f x) :: indexed f (S i) t
  end.

Definition chars (s : string) : list ascii := list_ascii_of_string s.

(** The own enumerable string-keyed properties, as [Object.entries] lists
    them: the properties of an object, the elements of an array and the
    code units of a string under their indices, nothing for a number or a
    boolean. *)
Definition own_entries (v : value) : list (string * value) :=
  match v with
  | JObj kvs => kvs
  | JArr xs => indexed (fun x => x) 0 xs
  | JStr s => indexed (fun c => JStr (String c EmptyString)) 0 (chars s)
  | _ => []
  end.

(** [v[k]] for [v] other than [null] and [undefined]: an own property,
    else [length] of an array or string, else what the prototype chain
    gives.  There, [__proto__] is the prototype object itself, which has no
    enumerable property of its own and serializes as the empty object, the
    empty array, the empty string, 0 or false; every other inherited
    name is a method, which [JSON.stringify] treats as [undefined]. *)
Definition lookup_prop (v : value) (k : string) : value :=
  match assoc k (own_entries v) with
  | Some x => x
  | None =>
      match v with
      | JArr xs =>
          if (k =? "length")%string then JNum (Z.of_nat (List.length xs))
          else if (k =? "__proto__")%string then JArr [] else JUndefined
      | JStr s =>
          if (k =? "length")%string then JNum (Z.of_nat (String.length s))
          else if (k =? "__proto__")%string then JStr EmptyString else JUndefined
      | JObj _ => if (k =? "__proto__")%string then JObj [] else JUndefined
      | JNum _ => if (k =? "__proto__")%string then JNum 0 else JUndefined
      | JBool _ => if (k =? "__proto__")%string then JBool false else JUndefined
      | _ => JUndefined
      end
  end.

(** [v[k]]: a [TypeError] on [null] and [undefined]. *)
Definition get (v : value) (k : string) : outcome value :=
  match v with
  | JUndefined | JNull => TypeError
  | _ => Ret (lookup_prop v k)
  end.

(** [v?.[k]] *)
Definition get_opt (v : value) (k : string) : value :=
  match v with
  | JUndefined | JNull => JUndefined
  | _ => lookup_prop v k
  end.

(** [Object.entries(v)] *)
Definition Object_entries (v : value) : outcome (list (string * value)) :=
  match v with
  | JUndefined | JNull => TypeError
  | _ => Ret (own_entries v)
  end.

(** [keys.includes(e)] on an array of strings. *)
Definition includes (keys : list string) (e : string) : bool :=
  existsb (String.eqb e) keys.

(** [keys.filter(f)] with a callback that may throw. *)
Fixpoint filterM (f : string -> outcome bool) (keys : list string)
  : outcome (list string) :=
  match keys with
  | [] => Ret []
  | e :: t =>
      keep <- f e ;;
      rest <- filterM f t ;;
      Ret (if keep then e :: rest else rest)
  end.

(** *** JSON.stringify *)

Definition quote_char : ascii := ascii_of_nat 34.
Definition backslash : ascii := ascii_of_nat 92.

Definition hex_digit (n : Z) : ascii :=
  if n <? 10 then ascii_of_nat (Z.to_nat (48 + n))
  else ascii_of_nat (Z.to_nat (87 + n)).

Definition escape_char (c : ascii) : string :=
  let n := Js.code c in
  if n =? 34 then String backslash (String quote_char EmptyString)
  else if n =? 92 then String backslash (String backslash EmptyString)
  else if n =? 8 then String backslash "b"
  else if n =? 9 then String backslash "t"
  else if n =? 10 then String backslash "n"
  else if n =? 12 then String backslash "f"
  else if n =? 13 then String backslash "r"
  else if n <? 32
       then String backslash
              ("u00" ++ String (hex_digit (n / 16)) (String (hex_digit (n mod 16)) EmptyString))
  else String c EmptyString.

Fixpoint escape (s : string) : string :=
  match s with
  | EmptyString => EmptyString
  | String c s' => escape_char c ++ escape s'
  end.

Definition quote (s : string) : string :=
  String quote_char (escape s ++ String quote_char EmptyString).

Fixpoint join (parts : list string) : string :=
  match parts with
  | [] => EmptyString
  | [x] => x
  | x :: t => x ++ "," ++ join t
  end.

(** [JSON.stringify(v)]; [None] is the [undefined] it returns for
    [undefined].  A member that is [undefined] is left out of an object
    and printed as [null] in an array. *)
Fixpoint JSON_stringify (v : value) : option string :=
  match v with
  | JUndefined => None
  | JNull => Some "null"
  | JBool b => Some (if b then "true" else "false")
  | JNum z => Some (Js.Z_to_string z)
  | JStr s => Some (quote s)
  | JArr xs =>
      Some ("[" ++ join (map (fun x => match JSON_stringify x with
                                       | Some t => t
                                       | None => "null"
                                       end) xs) ++ "]")
  | JObj kvs =>
      let members :=
        (fix go (kvs : list (string * value)) : list string :=
           match kvs with
           | [] => []
           | (k, x) :: t =>
               match JSON_stringify x with
               | Some s => (quote k ++ ":" ++ s) :: go t
               | None => go t
               end
           end) kvs in
      Some ("{" ++ join members ++ "}")
  end.

(** [x != y] on two results of [JSON.stringify]. *)
Definition differs (x y : option string) : bool :=
  match x, y with
  | Some s, Some t => negb (s =? t)%string
  | None, None => false
  | _, _ => true
  end.

End Json.

(** ** The schema functions of [update_policy_templates.js] *)

Module Schema.
Import Json.

(** The inner [for] loop over [Object.entries(data[key])]; [rec] is the
    recursive call. *)
Fixpoint entries_loop (rec : value -> outcome (list string))
  (es : list (string * value)) (properties : list string)
  : outcome (list string) :=
  match es with
  | [] => Ret properties
  | (name, entry) :: es' =>
      let properties := (properties ++ [name])%list in
      subs <- rec entry ;;
      let properties :=
        if (0 <? List.length subs)%nat
        then (properties ++ map (fun e => (name ++ "_" ++ e)%string) subs)%list
        else properties in
      entries_loop rec es' properties
  end.

(** The outer [for] loop over the two grouping keys. *)
Fixpoint keys_loop (rec : value -> outcome (list string)) (data : value)
  (keys : list string) (properties : list string) : outcome (list string) :=
  match keys with
  | [] => Ret properties
  | key :: keys' =>
      group <- get data key ;;
      if truthy group then
        es <- Object_entries group ;;
        properties <- entries_loop rec es properties ;;
        keys_loop rec data keys' properties
      else keys_loop rec data keys' properties
  end.

(** The body of [extractFlatPolicyNamesFromPolicySchema]; [fuel] bounds
    the depth of the recursion. *)
Fixpoint extract_fuel (fuel : nat) (data : value) : outcome (list string) :=
  match fuel with
  | O => OutOfFuel
  | S fuel' =>
      keys_loop (extract_fuel fuel') data ["properties"; "patternProperties"] []
  end.

(** The nesting depth of a value, which bounds the recursion. *)
Fixpoint depth (v : value) : nat :=
  match v with
  | JArr xs => S (list_max (map depth xs))
  | JObj kvs => S (list_max (map (fun kv => depth (snd kv)) kvs))
  | _ => O
  end.

(** The function itself, with fuel for every level of [data]: it never
    runs out (lemma [extract_total] below). *)
Definition extractFlatPolicyNamesFromPolicySchema (data : value)
  : outcome (list string) :=
  extract_fuel (S (depth data)) data.

Record diff := { added : list string; removed : list string; changed : list string }.

(** [checkPolicySchemaChanges]; [Ret None] is the bare [return] of the
    guard, that is [undefined]. *)
Definition checkPolicySchemaChanges (file1 file2 : value) : outcome (option diff) :=
  if negb (truthy (get_opt file1 "properties")) || negb (truthy (get_opt file2 "properties"))
  then Ret None
  else
    keys1 <- extractFlatPolicyNamesFromPolicySchema file1 ;;
    keys2 <- extractFlatPolicyNamesFromPolicySchema file2 ;;
    added <- filterM (fun e => Ret (negb (includes keys1 e))) keys2 ;;
    removed <- filterM (fun e => Ret (negb (includes keys2 e))) keys1 ;;
    changed <- filterM (fun e =>
                 if includes keys1 e then
                   p2 <- get file2 "properties" ;;
                   x2 <- get p2 e ;;
                   p1 <- get file1 "properties" ;;
                   x1 <- get p1 e ;;
                   Ret (differs (JSON_stringify x2) (JSON_stringify x1))
                 else Ret false) keys2 ;;
    Ret (Some {| added := added; removed := removed; changed := changed |}).

End Schema.

(** ** The specification's reading of the two components *)

Module Spec.
Import Json.

(** Position-by-position comparison of two integer-segment sequences over
    [n] positions, a sequence that has ended reading as zeros; the first
    unequal position decides. *)
Fixpoint compare_positions (n : nat) (xs ys : list Z) : Z :=
  match n with
  | O => 0
  | S n' =>
      let x := hd 0 xs in
      let y := hd 0 ys in
      if y <? x then 1
      else if x <? y then -1
      else compare_positions n' (tl xs) (tl ys)
  end.

Definition compare_segments (xs ys : list Z) : Z :=
  compare_positions (Nat.max (List.length xs) (List.length ys)) xs ys.

(** The two grouping keys. *)
Definition is_group (k : string) : bool :=
  (k =? "properties")%string || (k =? "patternProperties")%string.

(** A schema node: a mapping whose [properties] and [patternProperties],
    when present, are mappings from names to schema nodes. *)
Fixpoint schema_node (v : value) : bool :=
  match v with
  | JObj kvs =>
      forallb (fun kv =>
                 if is_group (fst kv)
                 then match snd kv with
                      | JObj es => forallb (fun child => schema_node (snd child)) es
                      | _ => false
                      end
                 else true) kvs
  | _ => false
  end.

(** The children named by a grouping key of a node. *)
Definition group (key : string) (node : value) : list (string * value) :=
  match node with
  | JObj kvs => match assoc key kvs with
                | Some (JObj es) => es
                | _ => []
                end
  | _ => []
  end.

Definition prefixed (name : string) (b : string * value) : string * value :=
  ((name ++ "_" ++ fst b)%string, snd b).

(** Flattening with the node each flat name is bound to: for [properties]
    and then [patternProperties], every child in order, its own name bound
    to the child, followed by the child's flattening under the prefix
    [name_]. *)
Fixpoint flatten (node : value) : list (string * value) :=
  match node with
  | JObj kvs =>
      let children :=
        fix children (es : list (string * value)) : list (string * value) :=
          match es with
          | [] => []
          | (name, entry) :: es' =>
              ((name, entry) :: map (prefixed name) (flatten entry) ++ children es')%list
          end in
      let grouped :=
        fix grouped (key : string) (kvs : list (string * value)) : list (string * value) :=
          match kvs with
          | [] => []
          | (k, x) :: t =>
              if (k =? key)%string
              then match x with JObj es => children es | _ => [] end
              else grouped key t
          end in
      (grouped "properties" kvs ++ grouped "patternProperties" kvs)%list
  | _ => []
  end.

(** The flat key sequence of a node. *)
Definition flat_names (node : value) : list string := map fst (flatten node).

(** What one child contributes: its own name bound to it, then its
    flattening under the prefix. *)
Definition flat_child (child : string * value) : list (string * value) :=
  (fst child, snd child) :: map (prefixed (fst child)) (flatten (snd child)).

(** What one child contributes to the flat key sequence. *)
Definition names_child (child : string * value) : list string :=
  fst child :: map (fun e => (fst child ++ "_" ++ e)%string) (flat_names (snd child)).

(** The node bound to a flat name (the first such binding). *)
Definition bound_node (node : value) (name : string) : option value :=
  assoc name (flatten node).

(** The names of [l] that are not in [k], in the order of [l]. *)
Fixpoint difference (l k : list string) : list string :=
  match l with
  | [] => []
  | e :: t => if in_dec string_dec e k then difference t k else e :: difference t k
  end.

Definition serialize (x : option value) : option string :=
  match x with
  | Some v => JSON_stringify v
  | None => None
  end.

(** The specification's [changed]: the names present in both flattenings
    whose bound sub-nodes serialize differently. *)
Definition changed_by_bound_node (old new : value) : list string :=
  filter (fun e => if in_dec string_dec e (flat_names old)
                   then differs (serialize (bound_node new e)) (serialize (bound_node old e))
                   else false)
         (flat_names new).

(** The value has an own property [k]; [null] and [undefined] have none. *)
Definition has_key (k : string) (v : value) : bool :=
  match assoc k (own_entries v) with
  | Some _ => true
  | None => false
  end.

(** What the code compares for [changed]: the serializations of
    [properties[e]], read directly off the two top-level [properties]. *)
Definition direct_lookup_differs (old new : value) (e : string) : bool :=
  differs (JSON_stringify (lookup_prop (lookup_prop new "properties") e))
          (JSON_stringify (lookup_prop (lookup_prop old "properties") e)).

Definition changed_by_direct_lookup (old new : value) : list string :=
  filter (fun e => includes (flat_names old) e && direct_lookup_differs old new e)
         (flat_names new).

(** Every object of the value has distinct keys. *)
Fixpoint distinct_keys (v : value) : bool :=
  match v with
  | JObj kvs =>
      (fix go (seen : list string) (kvs : list (string * value)) : bool :=
         match kvs with
         | [] => true
         | (k, x) :: t => negb (includes seen k) && distinct_keys x && go (k :: seen) t
         end) [] kvs
  | JArr xs =>
      (fix go (xs : list value) : bool :=
         match xs with
         | [] => true
         | x :: t => distinct_keys x && go t
         end) xs
  | _ => true
  end.

End Spec.

(** ** Example schemas *)

Module Examples.
Import Json.

Definition typed (t : string) : value := JObj [("type", JStr t)].

(** [{properties:{a:{properties:{b:{}}}}}] *)
Definition nested : value :=
  JObj [("properties", JObj [("a", JObj [("properties", JObj [("b", JObj [])])])])].

(** [{properties:{x:{type:"string"}}}] *)
Definition old_xy : value := JObj [("properties", JObj [("x", typed "string")])].

(** [{properties:{x:{type:"string"}, y:{type:"boolean"}}}] *)
Definition new_xy : value :=
  JObj [("properties", JObj [("x", typed "string"); ("y", typed "boolean")])].

(** [{properties:{a:{properties:{b:{type:"string"}}}}}] and the same with
    [b] of type boolean: the two differ only below [a]. *)
Definition old_nested : value :=
  JObj [("properties", JObj [("a", JObj [("properties", JObj [("b", typed "string")])])])].
Definition new_nested : value :=
  JObj [("properties", JObj [("a", JObj [("properties", JObj [("b", typed "boolean")])])])].

(** [{properties:{}}] *)
Definition no_policies : value := JObj [("properties", JObj [])].

(** [{properties:{x:{}}, patternProperties:{x:{}}}]: the name [x] under
    both grouping keys. *)
Definition twice : value :=
  JObj [("properties", JObj [("x", JObj [])]);
        ("patternProperties", JObj [("x", JObj [])])].

(** A schema without [properties]. *)
Definition leaf : value := typed "string".

End Examples.

(** ** Further example schemas *)

Module Patterns.
Import Json.

(** [{properties:{}, patternProperties:{"^x$":{type:"string"}}}] and the
    same with type boolean: the two differ below the top-level
    [patternProperties] only. *)
Definition old_pattern : value :=
  JObj [("properties", JObj []);
        ("patternProperties", JObj [("^x$", Examples.typed "string")])].
Definition new_pattern : value :=
  JObj [("properties", JObj []);
        ("patternProperties", JObj [("^x$", Examples.typed "boolean")])].

End Patterns.

(** ** The order in which the members of an object are enumerated *)

Module Order.
Import Js Json.

(** A name that is an array index: the decimal text, without sign or
    leading zero, of an integer from 0 to 2^32 - 2. *)
Definition array_index (k : string) : option Z :=
  match k with
  | EmptyString => None
  | _ =>
      match Num.digits_value 0 k with
      | Some n =>
          if (Z_to_string n =? k)%string && (n <=? 2 ^ 32 - 2) then Some n else None
      | None => None
      end
  end.

(** An entry put in its place in a list sorted by index. *)
Fixpoint insert_index (n : Z) (kv : string * value) (l : list (Z * (string * value)))
  : list (Z * (string * value)) :=
  match l with
  | [] => [(n, kv)]
  | (m, kv') :: t =>
      if n <? m then (n, kv) :: l else (m, kv') :: insert_index n kv t
  end.

(** The entries whose names are array indices, in ascending order of the
    index. *)
Fixpoint index_entries (kvs : list (string * value)) : list (Z * (string * value)) :=
  match kvs with
  | [] => []
  | kv :: t =>
      match array_index (fst kv) with
      | Some n => insert_index n kv (index_entries t)
      | None => index_entries t
      end
  end.

(** The name of the entry is no array index. *)
Definition named (kv : string * value) : bool :=
  match array_index (fst kv) with
  | Some _ => false
  | None => true
  end.

(** The order in which [Object.entries] lists the members of an object
    whose members, of distinct names, were created in the order [kvs]: the
    array indices first, ascending, then the other names in the order of
    their creation. *)
Definition enumeration (kvs : list (string * value)) : list (string * value) :=
  (map snd (index_entries kvs) ++ filter named kvs)%list.

(** The value a JSON text or an object literal stands for, when [v] lists
    the members of every object in the order the text gives them, and the
    members of an object have distinct names. *)
Fixpoint written (v : value) : value :=
  match v with
  | JObj kvs => JObj (enumeration (map (fun kv => (fst kv, written (snd kv))) kvs))
  | JArr xs => JArr (map written xs)
  | _ => v
  end.

(** No name of a member, at any depth, is an array index. *)
Fixpoint plain_names (v : value) : bool :=
  match v with
  | JObj kvs => forallb (fun kv => named kv && plain_names (snd kv)) kvs
  | JArr xs => forallb plain_names xs
  | _ => true
  end.

(** [{properties:{b:{}, 2:{}, 10:{}}}], the members in this order. *)
Definition numbered : value :=
  JObj [("properties", JObj [("b", JObj []); ("2", JObj []); ("10", JObj [])])].

End Order.

(** ** Version tokens of a known shape *)

Module Tokens.
Import Js Num.

(** The characters of a dotted version: digits and dots. *)
Definition plain_char (c : ascii) : bool := is_digit c || Ascii.eqb c ".".

Definition plain (t : string) : bool := all_in plain_char t.

(** A run of zeros, possibly empty. *)
Definition zeros (z : string) : bool := all_in (Ascii.eqb "0") z.

(** Any character but the minus sign. *)
Definition not_minus (c : ascii) : bool := negb (Ascii.eqb c "-").

(** Reduction modulo 2^32 into the signed 32-bit range. *)
Definition wrap32 (z : Z) : Z := (z + 2 ^ 31) mod 2 ^ 32 - 2 ^ 31.

(** The integer a fragment made of digits counts as: its decimal value,
    rounded to a double and reduced to 32 bits; 0 for the empty fragment. *)
Definition fragment_number (f : string) : Z :=
  match digits_value 0 f with
  | Some v => ToInt32 (round_double v)
  | None => 0
  end.

(** The integers of the dot-separated fragments of a token. *)
Definition dotted_numbers (t : string) : list Z := map fragment_number (split_dot t).

(** The number a run [m] of characters that are neither digits nor dots
    stands for: the code of its first character that is not skipped as
    non-alphanumeric, lower-cased, minus 65536; nothing if all of [m] is
    skipped. *)
Definition tag_key (m : string) : option Z :=
  match skip Version.nonword_char m with
  | EmptyString => None
  | String c _ => Some (code (lower_char c) - 65536)
  end.

(** A non-empty run of zeros. *)
Definition zero_fragment (f : string) : bool := truthy_string f && zeros f.

(** A text of the form [(\.0+)*]: empty, or a dot followed by fragments that
    are non-empty runs of zeros. *)
Definition zero_tail (s : string) : bool :=
  match s with
  | EmptyString => true
  | String c s' => Ascii.eqb c "." && forallb zero_fragment (split_dot s')
  end.

(** [s] without its longest suffix of the form [(\.0+)*]. *)
Fixpoint strip_zero_tail (s : string) : string :=
  if zero_tail s then EmptyString
  else match s with
       | EmptyString => EmptyString
       | String c s' => String c (strip_zero_tail s')
       end.

(** The fragments [fs], each behind a dot, in front of [t]. *)
Definition blocks (fs : list string) (t : string) : string :=
  fold_right (fun f acc => String "." (f ++ acc)) t fs.

(** The number after a tag, if there is one. *)
Definition suffix_numbers (d : string) : list Z :=
  match d with
  | EmptyString => []
  | _ => [fragment_number d]
  end.

(** [(?:\.0+)], the body of the starred group of the second expression. *)
Definition zero_block : Regex.regex :=
  Regex.Seq (Regex.Chr ".") (Regex.Plus (Regex.Chr "0")).

(** The text after the dotted version once the tag is replaced: the number
    [ds] of the tag with its minus sign, between dots, and the digits [d]. *)
Definition tag_tail (ds d : string) : string :=
  String "." (String "-" ds ++ String "." d).

(** The text the second replacement puts for its match. *)
Definition kept_tail (ds d : string) : string :=
  String "." (String "-" ds)
  ++ match d with EmptyString => EmptyString | _ => String "." d end.

End Tokens.

(** ** Values the schema functions can read *)

Module Nodes.
Import Json Spec.

Definition not_nullish (v : value) : bool :=
  match v with
  | JUndefined | JNull => false
  | _ => true
  end.

(** No entry of a value under [properties] or [patternProperties], at any
    depth the extraction reaches, is [null] or [undefined].  Unlike a
    schema node, the value may group its entries in an array or a string,
    and hold anything elsewhere. *)
Fixpoint readable (v : value) : bool :=
  match v with
  | JObj kvs =>
      forallb (fun kv =>
                 if is_group (fst kv)
                 then match snd kv with
                      | JObj es =>
                          forallb (fun child => not_nullish (snd child)
                                                && readable (snd child)) es
                      | JArr xs => forallb (fun x => not_nullish x && readable x) xs
                      | _ => true
                      end
                 else true) kvs
  | _ => true
  end.

End Nodes.

(** ** Helpers of the policy template generator *)

Module Policy.
Import Js Regex.

Definition backslash : string := String Json.backslash EmptyString.

(** The one entry of [chars] in [escape_code_markdown], a backslash followed
    by a pipe.  Read as a regular expression it is the escaped pipe, which
    matches one pipe; read as a replacement it has no dollar sign and stands
    for itself. *)
Definition escaped_pipe : string := backslash ++ "|".

Definition chars : list (regex * string) := [(Chr "|", escaped_pipe)].

(** [escape_code_markdown]: for every entry of [chars], all matches of the
    entry as a pattern are replaced by the entry as a text. *)
Definition escape_code_markdown (str : string) : string :=
  fold_left (fun str char => replace_all (fst char) (fun _ _ => snd char) str)
            chars str.

(** [s.split(sep)] for a separator of one code unit. *)
Fixpoint split_at (sep : ascii) (s : string) : list string :=
  match s with
  | EmptyString => [EmptyString]
  | String c s' =>
      if Ascii.eqb c sep then EmptyString :: split_at sep s'
      else match split_at sep s' with
           | h :: t => String c h :: t
           | [] => [String c EmptyString]
           end
  end.

(** [parts.join(sep)] *)
Fixpoint join_with (sep : string) (parts : list string) : string :=
  match parts with
  | [] => EmptyString
  | [x] => x
  | x :: t => x ++ sep ++ join_with sep t
  end.

(** [s.substring(n)]: [s] without its first [n] code units. *)
Definition substring_from (n : nat) (s : string) : string :=
  substring n (String.length s - n) s.

(** The registry key under which the Thunderbird policies live, with its
    closing backslash. *)
Definition key_prefix : string :=
  "Software" ++ backslash ++ "Policies" ++ backslash ++ "Mozilla" ++ backslash
  ++ "Thunderbird" ++ backslash.

(** [getNameFromKey], local to [buildAdmxFiles]; [None] is the [undefined]
    of falling off the end of the function. *)
Definition getNameFromKey (key : string) : option string :=
  let key_prefix_length := String.length key_prefix in
  if (key_prefix_length <? String.length key)%nat
  then Some (join_with "_" (split_at Json.backslash (substring_from key_prefix_length key)))
  else None.

(** A text with every backslash turned into an underscore. *)
Fixpoint underscored (s : string) : string :=
  match s with
  | EmptyString => EmptyString
  | String c s' =>
      String (if Ascii.eqb c Json.backslash then "_"%char else c) (underscored s')
  end.

(** A text with a backslash put before every pipe. *)
Fixpoint pipes_escaped (s : string) : string :=
  match s with
  | EmptyString => EmptyString
  | String c s' =>
      if Ascii.eqb c "|" then escaped_pipe ++ pipes_escaped s'
      else String c (pipes_escaped s')
  end.

(** The number of pipes in a text. *)
Fixpoint pipes (s : string) : nat :=
  match s with
  | EmptyString => O
  | String c s' => ((if Ascii.eqb c "|" then 1 else 0) + pipes s')%nat
  end.

Definition no_backslash (c : ascii) : bool := negb (Ascii.eqb c Json.backslash).

End Policy.

(** ** The add-on reports that compare versions *)

Module Reports.
Import Js Json Version.

(** [ToString] of a value that converts (see [convertible] below): an
    array prints its elements separated by commas, [null] and [undefined]
    among them as nothing; an object prints as [[object Object]]. *)
Fixpoint ToString (v : value) : string :=
  match v with
  | JUndefined => "undefined"
  | JNull => "null"
  | JBool b => if b then "true" else "false"
  | JNum z => Z_to_string z
  | JStr s => s
  | JArr xs =>
      join (map (fun x => match x with
                          | JUndefined | JNull => EmptyString
                          | _ => ToString x
                          end) xs)
  | JObj _ => "[object Object]"
  end.

(** The values whose conversion to a string returns, and returns what
    [ToString] gives.  The conversion of an object calls its [toString]; an
    own member of that name hides the method of the prototype, and as no
    JSON value can be called, the conversion then throws a [TypeError].  The
    conversion of an array converts its elements, [null] and [undefined]
    apart.  A number from 10^21 on prints with an exponent. *)
Fixpoint convertible (v : value) : bool :=
  match v with
  | JNum z => Z.abs z <? 10 ^ 21
  | JArr xs =>
      forallb (fun x => match x with
                        | JUndefined | JNull => true
                        | _ => convertible x
                        end) xs
  | JObj kvs => negb (existsb (fun kv => (fst kv =? "toString")%string) kvs)
  | _ => true
  end.

Definition and_value (a b : value) : value := if truthy a then b else a.

(** [compareVer] on two values that convert.  [prep] turns its argument
    into a string by concatenation with the empty string, and a value is
    loosely equal to the string [*] exactly when its string conversion is
    [*].  On a value that does not convert, the first comparison with [*]
    throws. *)
Definition compareVer_values (a b : value) : option Z :=
  compareVer (ToString a) (ToString b).

Record ext := { version : value; data : value }.

(** [getExtData]: the version recorded for an ESR (or for [current]) and
    the data of that version.  A property read uses its key converted to a
    string, so that [ext_data[version]] throws on a version that does not
    convert; the definition is the function on the versions that do.
    [ext_data[version]] is read among the own properties; a version that
    names a member of [Object.prototype] would read that member, which has
    none of the properties the reports look at. *)
Definition getExtData (extJson : value) (esr : string) : ext :=
  let cmp_data := get_opt (get_opt extJson "xpilib") "cmp_data" in
  let version := if truthy cmp_data then lookup_prop cmp_data esr else JNull in
  let ext_data := get_opt (get_opt extJson "xpilib") "ext_data" in
  let data :=
    if truthy (and_value version ext_data)
    then lookup_prop ext_data (ToString version)
    else JNull in
  {| version := version; data := data |}.

(** One line of the report [wrong-order]:
    [if (x && y && compareVer(x, y) > 0) return { include: true }];
    [Some true] is the early return, [Some false] falls through and [None]
    is [compareVer] out of fuel. *)
Definition out_of_order (x y : value) : option bool :=
  if truthy x && truthy y
  then match compareVer_values x y with
       | Some r => Some (0 <? r)
       | None => None
       end
  else Some false.

(** The lines in turn, and [{ include: false }] at the end. *)
Fixpoint first_return (lines : list (option bool)) : option bool :=
  match lines with
  | [] => Some false
  | Some false :: rest => first_return rest
  | other :: _ => other
  end.

(** [rowData] of the report [wrong-order], for versions that convert: the
    [include] of its result. *)
Definition wrong_order (extJson : value) : option bool :=
  let v102 := version (getExtData extJson "102") in
  let v91 := version (getExtData extJson "91") in
  let v78 := version (getExtData extJson "78") in
  let v68 := version (getExtData extJson "68") in
  let v60 := version (getExtData extJson "60") in
  first_return
    [ out_of_order v60 v68; out_of_order v60 v78; out_of_order v60 v91;
      out_of_order v60 v102;
      out_of_order v68 v78; out_of_order v68 v91; out_of_order v68 v102;
      out_of_order v78 v91; out_of_order v78 v102;
      out_of_order v91 v102 ].

(** The ESR versions of an add-on, oldest ESR first. *)
Definition esr_versions (extJson : value) : list value :=
  map (fun esr => version (getExtData extJson esr)) ["60"; "68"; "78"; "91"; "102"].

(** [x] is at most [y], as [compareVer] sees it. *)
Definition at_most (x y : value) : bool :=
  match compareVer_values x y with
  | Some r => r <=? 0
  | None => false
  end.

(** Every element is at most its right neighbour. *)
Fixpoint ascending (vs : list value) : bool :=
  match vs with
  | x :: (y :: _) as rest => at_most x y && ascending rest
  | _ => true
  end.
















(** An add-on whose version for ESR 78 is below that for ESR 68, and
    which has none for ESR 91 and 102. *)
Definition out_of_step : value :=
  JObj [("xpilib",
         JObj [("cmp_data",
                JObj [("60", JStr "1.0"); ("68", JStr "2.0"); ("78", JStr "1.5")])])].


End Reports.

(** ** The compatibility data of the policy template generator *)

Module Compat.
Import Js Regex Json Schema.

(** White space and line terminators, among the code units below 256. *)
Definition is_space (c : ascii) : bool :=
  existsb (Z.eqb (code c)) [9; 10; 11; 12; 13; 32; 160].

Fixpoint trim_end (s : string) : string :=
  match s with
  | EmptyString => EmptyString
  | String c s' =>
      match trim_end s' with
      | EmptyString => if is_space c then EmptyString else String c EmptyString
      | t => String c t
      end
  end.

(** [s.trim()] *)
Definition trim (s : string) : string := trim_end (skip is_space s).

(** [raw_policy.trim().replace(/'/g, "")] *)
Definition clean (raw_policy : string) : string :=
  replace_all (Chr "'") (fun _ _ => EmptyString) (trim raw_policy).

(** The names every object inherits from [Object.prototype]. *)
Definition inherited (k : string) : bool :=
  existsb (String.eqb k)
    ["constructor"; "hasOwnProperty"; "isPrototypeOf"; "propertyIsEnumerable";
     "toLocaleString"; "toString"; "valueOf"; "__defineGetter__";
     "__defineSetter__"; "__lookupGetter__"; "__lookupSetter__"; "__proto__"].

(** [gCompatibilityData]: for every policy the versions recorded per tree,
    both in the order of insertion. *)
Definition versions := list (string * value).
Definition store := list (string * versions).

(** [o[k] = v]: an existing property keeps its place, a new one comes last. *)
Fixpoint set_entry {A : Type} (k : string) (v : A) (kvs : list (string * A))
  : list (string * A) :=
  match kvs with
  | [] => [(k, v)]
  | (k', v') :: t =>
      if (k' =? k)%string then (k', v) :: t else (k', v') :: set_entry k v t
  end.

(** [entry[tree]] for a name that is not inherited. *)
Definition version_in (tree : string) (entry : versions) : value :=
  match assoc tree entry with
  | Some v => v
  | None => JUndefined
  end.

(** [gCompatibilityData[policy][tree]], [undefined] where the policy has no
    entry. *)
Definition recorded (g : store) (policy tree : string) : value :=
  version_in tree match assoc policy g with Some e => e | None => [] end.

(** The body of the inner loop of [buildThunderbirdTemplates]: the entry of
    the policy is created if there is none, and the version is recorded
    unless a truthy one is there.  [None] leaves the model: with a name
    inherited from [Object.prototype] as policy or tree, the two reads would
    see inherited members. *)
Definition record (tree : string) (version : value) (g : store) (raw_policy : string)
  : option store :=
  let policy := clean raw_policy in
  if inherited policy || inherited tree then None
  else
    let entry := match assoc policy g with Some e => e | None => [] end in
    let entry :=
      if truthy (version_in tree entry) then entry else set_entry tree version entry in
    Some (set_entry policy entry g).

Fixpoint record_policies (tree : string) (version : value) (policies : list string)
  (g : store) : option store :=
  match policies with
  | [] => Some g
  | raw_policy :: rest =>
      match record tree version g raw_policy with
      | Some g' => record_policies tree version rest g'
      | None => None
      end
  end.

(** One turn of the outer loop, for one revision of the schema. *)
Definition record_revision (tree : string) (revision : value) (g : store)
  : outcome (option store) :=
  policies <- extractFlatPolicyNamesFromPolicySchema revision ;;
  Ret (record_policies tree (lookup_prop revision "version") policies g).

Fixpoint record_revisions (tree : string) (revisions : list value) (g : store)
  : outcome (option store) :=
  match revisions with
  | [] => Ret (Some g)
  | revision :: rest =>
      g' <- record_revision tree revision g ;;
      match g' with
      | Some g' => record_revisions tree rest g'
      | None => Ret None
      end
  end.

(** The loop over [data.comm.revisions], from the last revision of the array
    to the first. *)
Definition record_compatibility (tree : string) (revisions : list value) (g : store)
  : outcome (option store) :=
  record_revisions tree (rev revisions) g.

(** The revision lists the policy, under some spelling. *)
Definition lists (policy : string) (revision : value) : bool :=
  existsb (fun raw => (clean raw =? policy)%string) (Spec.flat_names revision).

(** What a sequence of revisions, taken in the order of the loop, leaves
    recorded for a policy where [before] was recorded. *)
Fixpoint settle (policy : string) (revisions : list value) (before : value) : value :=
  match revisions with
  | [] => before
  | revision :: rest =>
      settle policy rest
        (if truthy before then before
         else if lists policy revision then lookup_prop revision "version"
         else before)
  end.

(** A revision of the schema with the given version and top-level policies. *)
Definition revision_of (version : string) (policies : list string) : value :=
  JObj [("version", JStr version);
        ("properties", JObj (map (fun p => (p, JObj [])) policies))].

End Compat.

(** ** The badges of the add-on reports *)

Module Badges.
Import Js Json Reports.

(** A badge definition; a member that is absent reads as [undefined]. *)
Record badge := {
  bLeftText : value;
  bRightText : value;
  bColor : value;
  bTooltip : value
}.

(** The state of [badge_definitions]: the definitions under their names.
    The object is shared by all calls of [getBadgeElement], which writes to
    its definitions. *)
Definition definitions := list (string * badge).

(** [badge_definitions] as the script declares it. *)
Definition badge_definitions : definitions :=
  [ ("permission",
     {| bLeftText := JStr "p"; bRightText := JUndefined; bColor := JStr "orange";
        bTooltip := JStr "Requested permission" |});
    ("alternative_available",
     {| bLeftText := JStr "*"; bRightText := JStr "alternative available";
        bColor := JStr "darkgreen"; bTooltip := JUndefined |});
    ("work_in_progress",
     {| bLeftText := JStr "TB102"; bRightText := JStr "work in progress";
        bColor := JStr "yellow"; bTooltip := JUndefined |});
    ("incompatible91",
     {| bLeftText := JStr "TB91"; bRightText := JStr "incompatible";
        bColor := JStr "c90016"; bTooltip := JUndefined |});
    ("incompatible102",
     {| bLeftText := JStr "TB102"; bRightText := JStr "incompatible";
        bColor := JStr "c90016"; bTooltip := JUndefined |}) ].

(** What a member of [Object.prototype] gives as a definition: none of the
    four members. *)
Definition blank : badge :=
  {| bLeftText := JUndefined; bRightText := JUndefined; bColor := JUndefined;
     bTooltip := JUndefined |}.

Definition double_quote : string := String quote_char EmptyString.

(** [makeBadgeElement]; [None] is the argument [undefined], whose members
    cannot be read. *)
Definition makeBadgeElement (bOpt : option badge) (bLink : value) : outcome string :=
  match bOpt with
  | None => TypeError
  | Some bOpt =>
      let title :=
        if truthy (bTooltip bOpt)
        then "title='" ++ ToString (bTooltip bOpt) ++ "'"
        else EmptyString in
      let tag :=
        "<img src='https://img.shields.io/badge/" ++ ToString (bLeftText bOpt)
        ++ "-" ++ ToString (bRightText bOpt) ++ "-" ++ ToString (bColor bOpt)
        ++ ".png' " ++ title ++ ">" in
      Ret (if truthy bLink
           then "<a href=" ++ double_quote ++ ToString bLink ++ double_quote ++ ">"
                ++ tag ++ "</a>"
           else tag)
  end.

Definition with_right (b : badge) (text : string) : badge :=
  {| bLeftText := bLeftText b; bRightText := JStr text; bColor := bColor b;
     bTooltip := bTooltip b |}.

(** [getBadgeElement]: what the call returns or throws, and the
    definitions after it.  A name that has no definition of its own reads a
    member of [Object.prototype] if it is the name of one.  [None] leaves
    the model: the first part of the name is such a member, to which the
    function would write. *)
Definition getBadgeElement (defs : definitions) (badgeName : string) (bLink : value)
  : option (outcome string * definitions) :=
  let badgeParts := Policy.split_at "." badgeName in
  match assoc badgeName defs with
  | Some badgeOpt => Some (makeBadgeElement (Some badgeOpt) bLink, defs)
  | None =>
      if Compat.inherited badgeName
      then Some (makeBadgeElement (Some blank) bLink, defs)
      else
        let first := hd EmptyString badgeParts in
        match assoc first defs with
        | Some badgeOpt =>
            let badgeOpt :=
              with_right badgeOpt (Policy.join_with "." (tl badgeParts)) in
            Some (makeBadgeElement (Some badgeOpt) bLink,
                  Compat.set_entry first badgeOpt defs)
        | None =>
            if Compat.inherited first then None
            else Some (makeBadgeElement None bLink, defs)
        end
  end.

(** The cell of badges of a row: the badges rendered one after the other
    on the same definitions, for badges without a link.  The first call that
    throws ends the rendering. *)
Fixpoint render_badges (defs : definitions) (names : list string)
  : option (outcome (list string) * definitions) :=
  match names with
  | [] => Some (Ret [], defs)
  | name :: rest =>
      match getBadgeElement defs name JUndefined with
      | Some (Ret element, defs) =>
          match render_badges defs rest with
          | Some (Ret elements, defs) => Some (Ret (element :: elements), defs)
          | other => other
          end
      | Some (TypeError, defs) => Some (TypeError, defs)
      | Some (OutOfFuel, defs) => Some (OutOfFuel, defs)
      | None => None
      end
  end.

Definition no_dot (c : ascii) : bool := negb (Ascii.eqb c ".").

(** The loop that counts the badges of the rows of a report:
    [stats_counts[name] = 1 + (stats_counts[name] || 0)] for every badge in
    turn, the badges given by their names.  [None] leaves the model: for a
    name inherited from [Object.prototype] the read gives a function, and the
    sum is a string. *)
Fixpoint count_badges (stats : list string) (stats_counts : list (string * Z))
  : option (list (string * Z)) :=
  match stats with
  | [] => Some stats_counts
  | name :: rest =>
      if Compat.inherited name then None
      else
        let old :=
          match assoc name stats_counts with
          | Some n => if n =? 0 then 0 else n
          | None => 0
          end in
        count_badges rest (Compat.set_entry name (1 + old) stats_counts)
  end.

End Badges.

(** * Properties of the regular-expression matcher *)

Module RegexFacts.
Import Js Regex.

Lemma hd_error_app_some {A} (l k : list A) x :
  hd_error l = Some x -> hd_error (l ++ k) = Some x.
Proof. destruct l; simpl; [discriminate | auto]. Qed.

Lemma hd_error_flat_map {A B} (f : A -> list B) x l y :
  hd_error (f x) = Some y -> hd_error (flat_map f (x :: l)) = Some y.
Proof. intros H. simpl. apply hd_error_app_some, H. Qed.

(** ** Fuel of a starred body: any amount above the length left is enough *)

Lemma iterate_fuel step : forall fuel1 fuel2 st,
  (String.length (rest st) < fuel1)%nat ->
  (String.length (rest st) < fuel2)%nat ->
  iterate step fuel1 st = iterate step fuel2 st.
Proof.
  induction fuel1 as [|f1 IH]; intros [|f2] st H1 H2; try lia.
  simpl. f_equal. apply flat_map_ext. intros st'.
  unfold progress. destruct (Nat.ltb_spec (String.length (rest st'))
                                          (String.length (rest st))); [|reflexivity].
  apply IH; lia.
Qed.

Lemma run_star_unfold r st :
  run (Star r) st
  = (flat_map (fun st' => if progress st st' then run (Star r) st' else [])
              (run r st) ++ [st])%list.
Proof.
  change (run (Star r) st) with (iterate (run r) (S (String.length (rest st))) st).
  cbn [iterate]. f_equal. apply flat_map_ext. intros st'.
  unfold progress. destruct (Nat.ltb_spec (String.length (rest st'))
                                          (String.length (rest st))); [|reflexivity].
  change (run (Star r) st') with (iterate (run r) (S (String.length (rest st'))) st').
  apply iterate_fuel; lia.
Qed.

(** ** The preferred match, stage by stage *)

Lemma first_seq r1 r2 st x y :
  first r1 st = Some x -> first r2 x = Some y -> first (Seq r1 r2) st = Some y.
Proof.
  unfold first. cbn [run]. intros H1 H2.
  destruct (run r1 st) as [|x' l]; [discriminate|]. injection H1 as ->.
  apply hd_error_flat_map, H2.
Qed.

Lemma first_group n r st x :
  first r st = Some x -> first (Group n r) st = Some (set_cap n st x).
Proof.
  unfold first. cbn [run]. destruct (run r st); [discriminate|].
  intros H. injection H as ->. reflexivity.
Qed.

Lemma first_opt r st x :
  first r st = Some x -> progress st x = true -> first (Opt r) st = Some x.
Proof.
  unfold first. cbn [run]. intros H Hp.
  destruct (run r st) as [|x' l]; [discriminate|]. injection H as ->.
  cbn [filter]. rewrite Hp. reflexivity.
Qed.

Lemma first_star_stop r st : run r st = [] -> first (Star r) st = Some st.
Proof. intros H. unfold first. rewrite run_star_unfold, H. reflexivity. Qed.

Lemma first_star_step r st x y :
  first r st = Some x -> progress st x = true -> first (Star r) x = Some y ->
  first (Star r) st = Some y.
Proof.
  unfold first. intros H1 Hp H2. rewrite run_star_unfold.
  destruct (run r st) as [|x' l]; [discriminate|]. injection H1 as ->.
  apply hd_error_app_some, hd_error_flat_map. rewrite Hp. exact H2.
Qed.

Lemma run_seq r1 r2 st : run (Seq r1 r2) st = flat_map (run r2) (run r1 st).
Proof. reflexivity. Qed.

Lemma run_seq_nil r1 r2 st : run r1 st = [] -> run (Seq r1 r2) st = [].
Proof. intros H. rewrite run_seq, H. reflexivity. Qed.

Lemma run_group_nil n r st : run r st = [] -> run (Group n r) st = [].
Proof. intros H. cbn [run]. rewrite H. reflexivity. Qed.

Lemma run_star_nil r st : run r st = [] -> run (Star r) st = [st].
Proof. intros H. rewrite run_star_unfold, H. reflexivity. Qed.

Lemma first_class p c s cs :
  p c = true ->
  first (Class p) {| rest := String c s; caps := cs |} = Some {| rest := s; caps := cs |}.
Proof. intros H. unfold first. cbn. rewrite H. reflexivity. Qed.

Lemma first_eol cs :
  first Eol {| rest := EmptyString; caps := cs |}
  = Some {| rest := EmptyString; caps := cs |}.
Proof. reflexivity. Qed.

Lemma length_skip p s : (String.length (skip p s) <= String.length s)%nat.
Proof. induction s as [|c s IH]; simpl; [lia|]. destruct (p c); simpl; lia. Qed.

(** A starred class takes the longest run of the class. *)
Lemma first_star_class p s : forall cs,
  first (Star (Class p)) {| rest := s; caps := cs |}
  = Some {| rest := skip p s; caps := cs |}.
Proof.
  induction s as [|c s IH]; intros cs.
  - apply first_star_stop. reflexivity.
  - cbn [skip]. destruct (p c) eqn:Hc.
    + eapply first_star_step; [apply first_class, Hc | | apply IH].
      unfold progress. cbn [rest String.length]. apply Nat.ltb_lt. lia.
    + apply first_star_stop. cbn. rewrite Hc. reflexivity.
Qed.

Lemma first_plus_class p c s cs :
  p c = true ->
  first (Plus (Class p)) {| rest := String c s; caps := cs |}
  = Some {| rest := skip p s; caps := cs |}.
Proof.
  intros H. eapply first_seq; [apply first_class, H | apply first_star_class].
Qed.

Lemma first_plus_class_none p s cs :
  match s with String c _ => p c = false | EmptyString => True end ->
  run (Plus (Class p)) {| rest := s; caps := cs |} = [].
Proof.
  destruct s as [|c s]; [reflexivity|]. intros H. cbn. rewrite H. reflexivity.
Qed.

(** ** What was consumed *)

Lemma substring_all s : substring 0 (String.length s) s = s.
Proof. induction s as [|c s IH]; simpl; [reflexivity | rewrite IH; reflexivity]. Qed.

Lemma substring_prefix a b : substring 0 (String.length a) (a ++ b) = a.
Proof.
  induction a as [|c a IH]; simpl.
  - destruct b; reflexivity.
  - rewrite IH. reflexivity.
Qed.

Lemma length_append a b :
  String.length (a ++ b) = (String.length a + String.length b)%nat.
Proof. induction a as [|c a IH]; simpl; [reflexivity | rewrite IH; reflexivity]. Qed.

Lemma append_empty_r s : s ++ EmptyString = s.
Proof. induction s as [|c s IH]; simpl; [reflexivity | rewrite IH; reflexivity]. Qed.

Lemma consumed_app a b : consumed (a ++ b) b = a.
Proof.
  unfold consumed. rewrite length_append.
  replace (String.length a + String.length b - String.length b)%nat
    with (String.length a) by lia.
  apply substring_prefix.
Qed.

Lemma consumed_all s : consumed s EmptyString = s.
Proof. unfold consumed. cbn [String.length]. rewrite Nat.sub_0_r. apply substring_all. Qed.

Lemma skip_all_in p s : all_in p s = true -> skip p s = EmptyString.
Proof.
  unfold all_in. induction s as [|c s IH]; simpl; [reflexivity|].
  intros H. apply andb_prop in H as [Hc Hs]. rewrite Hc. apply IH, Hs.
Qed.

(** ** Characters: a match and its captures are made of input characters *)

Lemma all_in_app p a b : all_in p (a ++ b) = all_in p a && all_in p b.
Proof.
  unfold all_in. induction a as [|c a IH]; simpl; [reflexivity|].
  rewrite IH. apply andb_assoc.
Qed.

Lemma all_in_cons p c s : all_in p (String c s) = p c && all_in p s.
Proof. reflexivity. Qed.

Lemma all_in_substring p s : forall n k,
  all_in p s = true -> all_in p (substring n k s) = true.
Proof.
  induction s as [|c s IH]; intros n k H.
  - destruct n, k; reflexivity.
  - rewrite all_in_cons in H. apply andb_prop in H as [Hc Hs].
    destruct n, k; simpl; try reflexivity.
    + rewrite all_in_cons, Hc. apply IH, Hs.
    + apply IH, Hs.
    + apply IH, Hs.
Qed.

Lemma iterate_in p step :
  (forall st st', state_in p st -> In st' (step st) -> state_in p st') ->
  forall fuel st st', state_in p st -> In st' (iterate step fuel st) -> state_in p st'.
Proof.
  intros Hstep. induction fuel as [|fuel IH]; intros st st' Hst Hin; simpl in Hin.
  - destruct Hin as [<-|[]]. exact Hst.
  - apply in_app_or in Hin as [Hin|[<-|[]]]; [|exact Hst].
    apply in_flat_map in Hin as (x & Hx & Hin).
    destruct (progress st x); [|destruct Hin].
    eapply IH; [|exact Hin]. eapply Hstep; eauto.
Qed.

Lemma run_in p r : forall st st',
  state_in p st -> In st' (run r st) -> state_in p st'.
Proof.
  induction r as [q|r1 IH1 r2 IH2|r IH|r IH|n r IH|]; intros st st' Hst Hin;
    cbn [run] in Hin.
  - destruct Hst as [Hr Hc]. destruct (rest st) as [|c s] eqn:E; [destruct Hin|].
    destruct (q c); [|destruct Hin]. destruct Hin as [<-|[]].
    rewrite all_in_cons in Hr. apply andb_prop in Hr as [_ Hs]. split; assumption.
  - apply in_flat_map in Hin as (x & Hx & Hin). eauto.
  - eapply iterate_in; eauto.
  - apply in_app_or in Hin as [Hin|[<-|[]]]; [|exact Hst].
    apply filter_In in Hin as [Hin _]. eauto.
  - apply in_map_iff in Hin as (x & <- & Hx).
    destruct (IH _ _ Hst Hx) as [Hr Hc]. split; [exact Hr|].
    cbn [set_cap caps]. constructor; [|exact Hc].
    cbn [snd]. apply all_in_substring, Hst.
  - destruct (rest st); [|destruct Hin]. destruct Hin as [<-|[]]. exact Hst.
Qed.

Lemma exec_in p r s st :
  all_in p s = true -> exec r s = Some st -> state_in p st.
Proof.
  intros Hs H. unfold exec, first in H.
  apply (run_in p r {| rest := s; caps := [] |}).
  - split; [exact Hs | constructor].
  - destruct (run r {| rest := s; caps := [] |}); [discriminate|].
    injection H as ->. left. reflexivity.
Qed.

Lemma cap_in p n cs :
  Forall (fun nt => all_in p (snd nt) = true) cs -> all_in p (cap n cs) = true.
Proof.
  induction 1 as [|[m t] cs Ht Hcs IH]; simpl; [reflexivity|].
  destruct (Nat.eqb m n); assumption.
Qed.

(** Replacing matches by text made of the captures keeps the characters
    of the input. *)
Lemma replace_all_in p r f :
  (forall m cs, all_in p m = true ->
                Forall (fun nt => all_in p (snd nt) = true) cs ->
                all_in p (f m cs) = true) ->
  forall fuel s, all_in p s = true -> all_in p (replace_all_from fuel r f s) = true.
Proof.
  intros Hf. induction fuel as [|fuel IH]; intros s Hs; [exact Hs|].
  cbn [replace_all_from]. destruct (exec r s) as [st|] eqn:E.
  - destruct (exec_in p r s st Hs E) as [Hr Hc].
    assert (Hm : all_in p (f (consumed s (rest st)) (caps st)) = true)
      by (apply Hf; [apply all_in_substring, Hs | exact Hc]).
    cbv zeta. destruct (truthy_string (consumed s (rest st))).
    + rewrite all_in_app, Hm. apply IH, Hr.
    + destruct s as [|c s]; [exact Hm|].
      rewrite all_in_cons in Hs. apply andb_prop in Hs as [Hc' Hs].
      rewrite all_in_app, Hm, all_in_cons, Hc'. apply IH, Hs.
  - destruct s as [|c s]; [reflexivity|].
    rewrite all_in_cons in Hs. apply andb_prop in Hs as [Hc Hs].
    rewrite all_in_cons, Hc. apply IH, Hs.
Qed.

(** ** Global replacement, one search position at a time *)

Lemma replace_all_none fuel r f c s :
  exec r (String c s) = None ->
  replace_all_from (S fuel) r f (String c s) = String c (replace_all_from fuel r f s).
Proof. intros H. cbn [replace_all_from]. rewrite H. reflexivity. Qed.

Lemma replace_all_some fuel r f s st :
  exec r s = Some st -> truthy_string (consumed s (rest st)) = true ->
  replace_all_from (S fuel) r f s
  = f (consumed s (rest st)) (caps st) ++ replace_all_from fuel r f (rest st).
Proof. intros H Hm. cbn [replace_all_from]. rewrite H. cbv zeta. rewrite Hm. reflexivity. Qed.

Lemma replace_all_end fuel r f :
  exec r EmptyString = None -> replace_all_from (S fuel) r f EmptyString = EmptyString.
Proof. intros H. cbn [replace_all_from]. rewrite H. reflexivity. Qed.

(** ** Fuel of the global replacement *)

Lemma iterate_length step :
  (forall st st', In st' (step st) ->
                  (String.length (rest st') <= String.length (rest st))%nat) ->
  forall fuel st st', In st' (iterate step fuel st) ->
                      (String.length (rest st') <= String.length (rest st))%nat.
Proof.
  intros Hstep. induction fuel as [|fuel IH]; intros st st' Hin; simpl in Hin.
  - destruct Hin as [<-|[]]. lia.
  - apply in_app_or in Hin as [Hin|[<-|[]]]; [|lia].
    apply in_flat_map in Hin as (x & Hx & Hin).
    destruct (progress st x); [|destruct Hin].
    specialize (IH _ _ Hin). specialize (Hstep _ _ Hx). lia.
Qed.

(** Matching only moves forward. *)
Lemma run_length r : forall st st',
  In st' (run r st) -> (String.length (rest st') <= String.length (rest st))%nat.
Proof.
  induction r as [q|r1 IH1 r2 IH2|r IH|r IH|n r IH|]; intros st st' Hin;
    cbn [run] in Hin.
  - destruct (rest st) as [|c s] eqn:E; [destruct Hin|].
    destruct (q c); [|destruct Hin]. destruct Hin as [<-|[]]. simpl. lia.
  - apply in_flat_map in Hin as (x & Hx & Hin).
    specialize (IH1 _ _ Hx). specialize (IH2 _ _ Hin). lia.
  - eapply iterate_length; eauto.
  - apply in_app_or in Hin as [Hin|[<-|[]]]; [|lia].
    apply filter_In in Hin as [Hin _]. auto.
  - apply in_map_iff in Hin as (x & <- & Hx). apply (IH _ _ Hx).
  - destruct (rest st) eqn:E; [|destruct Hin]. destruct Hin as [<-|[]].
    rewrite E. lia.
Qed.

Lemma exec_length r s st :
  exec r s = Some st -> (String.length (rest st) <= String.length s)%nat.
Proof.
  unfold exec, first. intros H.
  apply (run_length r {| rest := s; caps := [] |}).
  destruct (run r {| rest := s; caps := [] |}); [discriminate|].
  injection H as ->. left. reflexivity.
Qed.

Lemma truthy_consumed_length s r :
  (String.length r <= String.length s)%nat ->
  truthy_string (consumed s r) = true -> (String.length r < String.length s)%nat.
Proof.
  unfold consumed. intros H Ht.
  destruct (String.length s - String.length r)%nat eqn:E; [|lia].
  destruct s; discriminate.
Qed.

(** Any fuel above the length of the string gives the same replacement:
    the search never stops for want of fuel. *)
Lemma replace_all_fuel r f : forall fuel1 fuel2 s,
  (String.length s < fuel1)%nat -> (String.length s < fuel2)%nat ->
  replace_all_from fuel1 r f s = replace_all_from fuel2 r f s.
Proof.
  induction fuel1 as [|f1 IH]; intros [|f2] s H1 H2; try lia.
  cbn [replace_all_from]. destruct (exec r s) as [st|] eqn:E.
  - cbv zeta. pose proof (exec_length _ _ _ E) as Hl.
    destruct (truthy_string (consumed s (rest st))) eqn:Ht.
    + pose proof (truthy_consumed_length _ _ Hl Ht). f_equal. apply IH; lia.
    + destruct s as [|c s]; [reflexivity|]. cbn [String.length] in *.
      do 2 f_equal. apply IH; lia.
  - destruct s as [|c s]; [reflexivity|]. cbn [String.length] in *.
    f_equal. apply IH; lia.
Qed.

End RegexFacts.

(** * Properties of the version comparator *)

Module VersionFacts.
Import Js Regex Num Version Spec RegexFacts.

(** ** Arrays *)

Lemma array_get_set_nil i v : array_get (array_set [] i v) i = v.
Proof. unfold array_get. induction i; simpl; auto. Qed.

Lemma array_get_set_eq a i v : array_get (array_set a i v) i = v.
Proof.
  revert i; induction a as [|h t IH]; intros i.
  - apply array_get_set_nil.
  - destruct i; simpl; [reflexivity | apply IH].
Qed.

Lemma length_array_set a i v :
  List.length (array_set a i v) = Nat.max (List.length a) (S i).
Proof.
  revert i; induction a as [|h t IH]; intros i; simpl.
  - induction i; simpl; auto.
  - destruct i; simpl; [lia | rewrite IH; lia].
Qed.

(** ** The integer the loop reads at a position *)

Lemma ToInt32_range x : - 2 ^ 31 <= ToInt32 x < 2 ^ 31.
Proof.
  destruct x; simpl ToInt32; try lia.
  pose proof (Z.mod_pos_bound (z + 2 ^ 31) (2 ^ 32) ltac:(lia)). lia.
Qed.

Lemma hd_skipn_segments a i :
  hd 0 (skipn i (segments a)) = double_tilde (array_get a i).
Proof.
  unfold array_get, segments. revert i; induction a as [|h t IH]; intros [|i]; simpl; auto.
Qed.

Lemma tl_skipn {A} (l : list A) i : tl (skipn i l) = skipn (S i) l.
Proof.
  revert i; induction l as [|h t IH]; intros [|i]; simpl; auto.
Qed.

(** Storing the integer just read leaves every later segment as it was. *)
Lemma skipn_segments_set a i :
  skipn (S i) (segments (array_set a i (Num (double_tilde (array_get a i)))))
  = skipn (S i) (segments a).
Proof.
  unfold array_get, segments. revert i; induction a as [|h t IH]; intros i.
  - simpl. destruct i; simpl; [reflexivity|].
    generalize (Num (double_tilde (nth (S i) [] Undefined))). intros v.
    clear. induction i; simpl; auto.
  - destruct i; simpl; [reflexivity|]. apply (IH i).
Qed.

Lemma js_lt_Num m n : js_lt (Num m) (Num n) = (m <? n).
Proof. reflexivity. Qed.

(** ** The loop computes the position-by-position comparison *)

Lemma loop_compare_positions n : forall fuel a b i,
  (n = Nat.max (List.length a) (List.length b) - i)%nat ->
  (n < fuel)%nat ->
  loop fuel a b i
  = Some (compare_positions n (skipn i (segments a)) (skipn i (segments b))).
Proof.
  induction n as [|n IH]; intros fuel a b i Hn Hf;
    (destruct fuel as [|fuel]; [lia|]); simpl loop.
  - destruct (Nat.ltb_spec i (Nat.max (List.length a) (List.length b))); [lia|].
    reflexivity.
  - destruct (Nat.ltb_spec i (Nat.max (List.length a) (List.length b))); [|lia].
    rewrite !array_get_set_eq. unfold js_gt. rewrite !js_lt_Num.
    simpl compare_positions. rewrite !hd_skipn_segments, !tl_skipn.
    destruct (_ <? _); [reflexivity|]. destruct (_ <? _); [reflexivity|].
    rewrite IH; [| rewrite !length_array_set; lia | lia].
    rewrite !skipn_segments_set. reflexivity.
Qed.

(** Away from the wildcard, [compareVer] is the specification's comparison
    of the two normalized segment sequences. *)
Lemma compareVer_segments a b :
  a <> "*" -> b <> "*" ->
  compareVer a b = Some (compare_segments (segments (prep a)) (segments (prep b))).
Proof.
  intros Ha Hb. unfold compareVer.
  apply String.eqb_neq in Ha, Hb. rewrite Ha, Hb. cbn [negb andb]. cbv zeta.
  rewrite (loop_compare_positions
             (Nat.max (List.length (prep a)) (List.length (prep b)))) by lia.
  unfold compare_segments, segments. simpl skipn. rewrite !length_map. reflexivity.
Qed.

(** ** Order properties of the position-by-position comparison *)

Lemma compare_positions_nil n : compare_positions n [] [] = 0.
Proof. induction n; simpl; auto. Qed.

Lemma compare_positions_more n : forall xs ys k,
  (Nat.max (List.length xs) (List.length ys) <= n)%nat ->
  compare_positions (n + k) xs ys = compare_positions n xs ys.
Proof.
  induction n as [|n IH]; intros xs ys k H.
  - destruct xs, ys; simpl in H; try lia. simpl. apply compare_positions_nil.
  - simpl. destruct (_ <? _); [reflexivity|]. destruct (_ <? _); [reflexivity|].
    apply IH. destruct xs, ys; simpl in *; lia.
Qed.

Lemma compare_segments_at n xs ys :
  (Nat.max (List.length xs) (List.length ys) <= n)%nat ->
  compare_segments xs ys = compare_positions n xs ys.
Proof.
  intros H. unfold compare_segments.
  replace n with (Nat.max (List.length xs) (List.length ys)
                  + (n - Nat.max (List.length xs) (List.length ys)))%nat at 1 by lia.
  symmetry. apply compare_positions_more. lia.
Qed.

Lemma compare_positions_range n : forall xs ys,
  compare_positions n xs ys = -1 \/ compare_positions n xs ys = 0
  \/ compare_positions n xs ys = 1.
Proof.
  induction n as [|n IH]; intros xs ys; simpl; auto.
  destruct (_ <? _); auto. destruct (_ <? _); auto.
Qed.

Lemma compare_positions_antisym n : forall xs ys,
  compare_positions n xs ys = - compare_positions n ys xs.
Proof.
  induction n as [|n IH]; intros xs ys; simpl; auto.
  destruct (Z.ltb_spec (hd 0 ys) (hd 0 xs)), (Z.ltb_spec (hd 0 xs) (hd 0 ys));
    try lia; auto.
Qed.

Lemma compare_positions_trans n : forall xs ys zs,
  compare_positions n xs ys <= 0 ->
  compare_positions n ys zs <= 0 ->
  compare_positions n xs zs <= 0.
Proof.
  induction n as [|n IH]; intros xs ys zs Hxy Hyz; simpl in *; [lia|].
  repeat match goal with
         | |- context [?u <? ?v] => destruct (Z.ltb_spec u v)
         | H : context [?u <? ?v] |- _ => destruct (Z.ltb_spec u v)
         end; try lia.
  eapply IH; eauto.
Qed.

Lemma compare_segments_antisym xs ys :
  compare_segments xs ys = - compare_segments ys xs.
Proof.
  unfold compare_segments. rewrite (Nat.max_comm (List.length ys)).
  apply compare_positions_antisym.
Qed.

Lemma compare_segments_trans xs ys zs :
  compare_segments xs ys <= 0 ->
  compare_segments ys zs <= 0 ->
  compare_segments xs zs <= 0.
Proof.
  set (n := Nat.max (List.length xs) (Nat.max (List.length ys) (List.length zs))).
  rewrite (compare_segments_at n xs ys), (compare_segments_at n ys zs),
    (compare_segments_at n xs zs) by (subst n; lia).
  apply compare_positions_trans.
Qed.

(** ** Fragments that are not numbers *)

Lemma digits_value_all_digits s : forall acc,
  all_digits s = true -> exists n, digits_value acc s = Some n.
Proof.
  unfold all_digits, all_in. induction s as [|c s IH]; intros acc H; simpl in *.
  - eauto.
  - apply andb_prop in H as [Hc Hs]. rewrite Hc. apply IH, Hs.
Qed.

Lemma digits_value_not_all_digits s : forall acc,
  all_digits s = false -> digits_value acc s = None.
Proof.
  unfold all_digits, all_in. induction s as [|c s IH]; intros acc H; simpl in *.
  - discriminate.
  - destruct (is_digit c); [apply IH, H | reflexivity].
Qed.

Lemma unsigned_literal_non_numeric s :
  truthy_string s && all_digits s = false -> unsigned_literal s = NaN.
Proof.
  destruct s as [|c s]; [reflexivity|]. cbn [truthy_string andb]. intros H.
  unfold unsigned_literal. rewrite digits_value_not_all_digits by exact H.
  reflexivity.
Qed.

Lemma double_tilde_non_numeric s :
  numeric_fragment s = false -> double_tilde (Str s) = 0.
Proof.
  destruct s as [|c s]; [discriminate|]. unfold numeric_fragment, double_tilde.
  cbn [ToNumber StringToNumber]. destruct (Ascii.eqb c "-"); intros H.
  - rewrite unsigned_literal_non_numeric by exact H. reflexivity.
  - rewrite unsigned_literal_non_numeric by exact H. reflexivity.
Qed.

Lemma array_get_past_end a i :
  (List.length a <= i)%nat -> array_get a i = Undefined.
Proof. intros H. unfold array_get. apply nth_overflow, H. Qed.

(** ** Normalizing a release-candidate token *)

Lemma exec_tag_none c s : tag_char c = false -> exec re_tag (String c s) = None.
Proof.
  intros H. unfold exec, first, re_tag. rewrite first_plus_class_none; auto.
Qed.

Lemma exec_tag_some c s :
  tag_char c = true ->
  exec re_tag (String c s) = Some {| rest := skip tag_char s; caps := [] |}.
Proof. intros H. apply first_plus_class, H. Qed.

Lemma digit_not_tag c : is_digit c = true -> tag_char c = false.
Proof. intros H. unfold tag_char. rewrite H. reflexivity. Qed.

Lemma skip_tag_digits d : all_digits d = true -> skip tag_char d = d.
Proof.
  destruct d as [|c d]; [reflexivity|]. unfold all_digits, all_in. simpl.
  intros H. apply andb_prop in H as [Hc _]. rewrite (digit_not_tag c Hc). reflexivity.
Qed.

(** A run of digits holds no tag: the first replacement leaves it alone. *)
Lemma replace_tag_digits f d : forall fuel,
  all_digits d = true -> replace_all_from fuel re_tag f d = d.
Proof.
  unfold all_digits, all_in. induction d as [|c d IH]; intros [|fuel] H; try reflexivity.
  simpl in H. apply andb_prop in H as [Hc Hd].
  rewrite replace_all_none by (apply exec_tag_none, digit_not_tag, Hc).
  rewrite IH by exact Hd. reflexivity.
Qed.

Lemma split_dot_digits d : all_digits d = true -> split_dot d = [d].
Proof.
  unfold all_digits, all_in. induction d as [|c d IH]; [reflexivity|]. simpl.
  intros H. apply andb_prop in H as [Hc Hd]. rewrite (IH Hd).
  destruct (Ascii.eqb_spec c "."); [subst; discriminate | reflexivity].
Qed.

(** ** The characters of the fragments *)

Lemma tag_number_chars y :
  all_in normal_char (Z_to_string (code y - 65536)) = true.
Proof. destruct y as [[] [] [] [] [] [] [] []]; reflexivity. Qed.

Lemma tag_segment_chars m cs : all_in normal_char (tag_segment m cs) = true.
Proof.
  unfold tag_segment.
  destruct (replace_first re_nonword (fun _ _ => EmptyString) m) as [|x c']; [reflexivity|].
  cbn [truthy_string toLowerCase charCodeAt0].
  rewrite all_in_app, all_in_app, tag_number_chars. reflexivity.
Qed.

Lemma truthy_consumed s r :
  (String.length r < String.length s)%nat -> truthy_string (consumed s r) = true.
Proof.
  unfold consumed. intros H.
  destruct (String.length s - String.length r)%nat as [|k] eqn:E; [lia|].
  destruct s as [|c s]; [simpl in H; lia | reflexivity].
Qed.

Lemma not_tag_normal c : tag_char c = false -> normal_char c = true.
Proof.
  unfold tag_char, normal_char, segment_char. intros H.
  apply negb_false_iff, orb_prop in H as [H|H]; rewrite H;
    rewrite ?orb_true_r; reflexivity.
Qed.

(** After the first replacement only digits, dots and minus signs are left:
    every other character was part of a run, and a run is replaced by dots
    around a negative number or around nothing. *)
Lemma replace_tags_chars : forall fuel s,
  (String.length s < fuel)%nat ->
  all_in normal_char (replace_all_from fuel re_tag tag_segment s) = true.
Proof.
  induction fuel as [|fuel IH]; intros s H; [lia|].
  destruct s as [|c s].
  - rewrite replace_all_end; reflexivity.
  - cbn [String.length] in H. destruct (tag_char c) eqn:Hc.
    + rewrite (replace_all_some _ _ _ _ _ (exec_tag_some c s Hc)); cbn [rest caps].
      * rewrite all_in_app, tag_segment_chars. apply IH.
        pose proof (length_skip tag_char s). lia.
      * apply truthy_consumed. pose proof (length_skip tag_char s).
        cbn [String.length]. lia.
    + rewrite replace_all_none by (apply exec_tag_none, Hc).
      rewrite all_in_cons, (not_tag_normal c Hc). apply IH. lia.
Qed.

Lemma keep_groups_chars m cs :
  all_in normal_char m = true ->
  Forall (fun nt : nat * string => all_in normal_char (snd nt) = true) cs ->
  all_in normal_char (keep_groups m cs) = true.
Proof.
  intros _ H. unfold keep_groups. rewrite all_in_app, !cap_in by exact H. reflexivity.
Qed.

Lemma split_dot_chars s :
  all_in normal_char s = true ->
  Forall (fun f => all_in segment_char f = true) (split_dot s).
Proof.
  induction s as [|c s IH]; intros H; [repeat constructor|].
  rewrite all_in_cons in H. apply andb_prop in H as [Hc Hs].
  specialize (IH Hs). cbn [split_dot]. destruct (Ascii.eqb c ".") eqn:E.
  - constructor; [reflexivity | exact IH].
  - unfold normal_char in Hc. rewrite E, orb_false_r in Hc.
    destruct (split_dot s) as [|h t]; [repeat constructor; rewrite all_in_cons, Hc; reflexivity|].
    inversion IH as [|? ? Hh Ht]; subst. constructor; [|exact Ht].
    rewrite all_in_cons, Hc. exact Hh.
Qed.

(** Whatever the token, every fragment [prep] hands to the loop is a
    string of digits and minus signs: the strings on which
    [StringToNumber] is modelled. *)
Lemma prep_fragment_chars t :
  Forall (fun v => exists f, v = Str f /\ all_in segment_char f = true) (prep t).
Proof.
  unfold prep. apply Forall_map.
  eapply Forall_impl; [|apply split_dot_chars].
  - intros f Hf. exists f. split; [reflexivity | exact Hf].
  - unfold replace_all at 1. apply replace_all_in; [apply keep_groups_chars|].
    unfold replace_all. apply replace_tags_chars. lia.
Qed.

Lemma replace_tags_rc d :
  all_digits d = true ->
  replace_all re_tag tag_segment ("91.0rc" ++ d) = "91.0.-65422." ++ d.
Proof.
  intros Hd. unfold replace_all. cbn [append String.length].
  do 4 (rewrite replace_all_none by (apply exec_tag_none; reflexivity)).
  rewrite (replace_all_some _ _ _ _ {| rest := d; caps := [] |}).
  - cbn [rest caps]. change (String "r" (String "c" d)) with ("rc" ++ d).
    rewrite consumed_app, replace_tag_digits by exact Hd. reflexivity.
  - rewrite exec_tag_some by reflexivity. cbn [skip].
    change (tag_char "c") with true. cbv iota. rewrite skip_tag_digits by exact Hd.
    reflexivity.
  - cbn [rest]. change (String "r" (String "c" d)) with ("rc" ++ d).
    rewrite consumed_app. reflexivity.
Qed.

Lemma exec_trail_other c s :
  Ascii.eqb "." c = false -> exec re_trail (String c s) = None.
Proof.
  intros H. unfold exec, first, re_trail.
  assert (D : forall cs, run (Chr ".") {| rest := String c s; caps := cs |} = [])
    by (intros cs; unfold Chr; cbn [run rest]; rewrite H; reflexivity).
  rewrite run_seq, (run_star_nil _ _ (run_seq_nil _ _ _ (D _))).
  cbn [flat_map]. rewrite app_nil_r.
  rewrite (run_seq_nil _ _ _ (run_group_nil _ _ _ (run_seq_nil _ _ _ (D _)))).
  reflexivity.
Qed.

Lemma exec_trail_rc d :
  all_digits d = true -> d <> EmptyString ->
  exec re_trail (".0.-65422." ++ d)
  = Some {| rest := EmptyString; caps := [(2%nat, "." ++ d); (1%nat, ".-65422")] |}.
Proof.
  intros Hd Hne. destruct d as [|c d]; [congruence|].
  assert (Hc : is_digit c = true /\ all_in is_digit d = true).
  { unfold all_digits, all_in in Hd. simpl in Hd. apply andb_prop in Hd. exact Hd. }
  destruct Hc as [Hc Hd']. unfold exec, re_trail.
  eapply first_seq.
  { (* the zero segments *)
    eapply first_star_step.
    - eapply first_seq; [apply first_class; reflexivity|].
      apply first_plus_class. reflexivity.
    - unfold progress. cbn [rest skip append String.length].
      change (Ascii.eqb "0" ".") with false. cbv iota.
      cbn [String.length]. apply Nat.ltb_lt. lia.
    - apply first_star_stop. reflexivity. }
  cbn [skip append]. change (Ascii.eqb "0" ".") with false. cbv iota.
  eapply first_seq.
  { (* the tag *)
    apply first_group. eapply first_seq; [apply first_class; reflexivity|].
    eapply first_seq; [apply first_class; reflexivity|].
    apply first_plus_class. reflexivity. }
  cbn [skip]. change (is_digit "5") with true. change (is_digit "4") with true.
  change (is_digit "2") with true. change (is_digit ".") with false. cbv iota.
  eapply first_seq.
  { (* the digits after the tag *)
    apply first_opt.
    - apply first_group.
      eapply first_seq; [apply first_class; reflexivity|].
      apply first_plus_class, Hc.
    - unfold progress, set_cap. cbn [rest String.length]. apply Nat.ltb_lt.
      pose proof (length_skip is_digit d). lia. }
  rewrite (skip_all_in _ _ Hd').
  eapply first_seq; [apply first_star_class|].
  cbn [skip]. unfold set_cap. cbn [rest caps].
  rewrite consumed_all.
  change (String "." (String "-" (String "6" (String "5" (String "4"
            (String "2" (String "2" (String "." (String c d)))))))))
    with (".-65422" ++ String "." (String c d)).
  rewrite consumed_app. apply first_eol.
Qed.

Lemma replace_trail_rc d :
  all_digits d = true -> d <> EmptyString ->
  replace_all re_trail keep_groups ("91.0.-65422." ++ d) = "91.-65422." ++ d.
Proof.
  intros Hd Hne. unfold replace_all. cbn [append String.length].
  do 2 (rewrite replace_all_none by (apply exec_trail_other; reflexivity)).
  change (String "." (String "0" (String "." (String "-" (String "6" (String "5"
            (String "4" (String "2" (String "2" (String "." d))))))))))
    with (".0.-65422." ++ d).
  rewrite (replace_all_some _ _ _ _ _ (exec_trail_rc d Hd Hne)).
  - cbn [rest caps]. rewrite replace_all_end by reflexivity.
    rewrite append_empty_r. reflexivity.
  - cbn [rest]. rewrite consumed_all. reflexivity.
Qed.

(** The fragments of a release-candidate token: the version, the tag and
    the digits after it. *)
Lemma prep_rc d :
  all_digits d = true -> d <> EmptyString ->
  prep ("91.0rc" ++ d) = [Str "91"; Str "-65422"; Str d].
Proof.
  intros Hd Hne. unfold prep.
  rewrite replace_tags_rc, replace_trail_rc by assumption.
  cbn [append split_dot]. rewrite (split_dot_digits d Hd). reflexivity.
Qed.

Lemma compareVer_rc_segments d1 d2 :
  all_digits d1 = true -> d1 <> EmptyString ->
  all_digits d2 = true -> d2 <> EmptyString ->
  compareVer ("91.0rc" ++ d1) ("91.0rc" ++ d2)
  = Some (Z.sgn (double_tilde (Str d1) - double_tilde (Str d2))).
Proof.
  intros H1 N1 H2 N2. rewrite compareVer_segments by discriminate.
  rewrite !prep_rc by assumption. unfold compare_segments, segments.
  cbn [map List.length Nat.max compare_positions hd tl].
  change (double_tilde (Str "91") <? double_tilde (Str "91")) with false.
  change (double_tilde (Str "-65422") <? double_tilde (Str "-65422")) with false.
  cbv iota. f_equal.
  destruct (Z.ltb_spec (double_tilde (Str d2)) (double_tilde (Str d1)));
    [rewrite Z.sgn_pos; lia|].
  destruct (Z.ltb_spec (double_tilde (Str d1)) (double_tilde (Str d2)));
    [rewrite Z.sgn_neg; lia|].
  replace (double_tilde (Str d1) - double_tilde (Str d2)) with 0 by lia. reflexivity.
Qed.

Lemma is_digit_code c : is_digit c = true -> 48 <= code c <= 57.
Proof.
  unfold is_digit, in_range. intros H. apply andb_prop in H as [H1 H2].
  apply Z.leb_le in H1, H2. change (code "0") with 48 in H1.
  change (code "9") with 57 in H2. lia.
Qed.

Lemma digits_value_some s : forall acc v,
  0 <= acc -> digits_value acc s = Some v -> all_digits s = true /\ acc <= v.
Proof.
  unfold all_digits, all_in. induction s as [|c s IH]; intros acc v Ha H;
    cbn [digits_value forallb list_ascii_of_string] in *.
  - injection H as <-. split; [reflexivity | lia].
  - destruct (is_digit c) eqn:Hc; [|discriminate].
    pose proof (is_digit_code c Hc). apply IH in H as [Hs Hv]; [|lia].
    split; [exact Hs | lia].
Qed.

(** Reading a run of digits whose value is below 2^31 gives that value. *)
Lemma double_tilde_digits d v :
  d <> EmptyString -> digits_value 0 d = Some v -> v < 2 ^ 31 ->
  double_tilde (Str d) = v.
Proof.
  intros Hne Hv Hlt. destruct (digits_value_some d 0 v ltac:(lia) Hv) as [_ H0].
  destruct d as [|c d]; [congruence|].
  unfold double_tilde. cbn [ToNumber StringToNumber].
  assert (Hc : Ascii.eqb c "-" = false).
  { destruct (Ascii.eqb_spec c "-") as [->|]; [|reflexivity].
    simpl in Hv. discriminate. }
  rewrite Hc. unfold unsigned_literal. rewrite Hv. unfold round_double.
  destruct (Z.ltb_spec v (2 ^ 53)); [|lia].
  unfold ToInt32. rewrite Z.mod_small by lia. lia.
Qed.

(** ** The claims about [compareVer] *)

(** C1. [compareVer] orders version tokens: it always returns, swapping the
    arguments negates the result, and from [compareVer a b <= 0] and
    [compareVer b c <= 0] follows [compareVer a c <= 0]. *)
Theorem compareVer_total_order :
  (forall a b, exists r,
      compareVer a b = Some r /\ compareVer b a = Some (- r))
  /\ (forall a b c, exists x y z,
         compareVer a b = Some x /\ compareVer b c = Some y
         /\ compareVer a c = Some z
         /\ (x <= 0 -> y <= 0 -> z <= 0)).
Proof.
  split.
  - intros a b.
    destruct (string_dec a "*") as [->|Ha], (string_dec b "*") as [->|Hb].
    + exists 0. split; reflexivity.
    + exists 1. unfold compareVer. apply String.eqb_neq in Hb.
      rewrite Hb. split; reflexivity.
    + exists (-1). unfold compareVer. apply String.eqb_neq in Ha.
      rewrite Ha. split; reflexivity.
    + eexists. rewrite !compareVer_segments by assumption.
      split; [reflexivity|]. f_equal. apply compare_segments_antisym.
  - intros a b c.
    assert (W : forall v, v <> "*" ->
                compareVer v "*" = Some (-1) /\ compareVer "*" v = Some 1).
    { intros v Hv. unfold compareVer. apply String.eqb_neq in Hv.
      rewrite Hv. split; reflexivity. }
    destruct (string_dec a "*") as [->|Ha], (string_dec b "*") as [->|Hb],
        (string_dec c "*") as [->|Hc];
      repeat match goal with
             | H : ?v <> "*" |- _ => pose proof (W v H) as [? ?]; revert H
             end; intros;
      try (do 3 eexists; repeat split; try eassumption; try reflexivity; lia).
    + exists 1. do 2 eexists. rewrite (compareVer_segments b c) by assumption.
      repeat split; try eassumption; try reflexivity; lia.
    + exists (-1), 1. eexists. rewrite (compareVer_segments a c) by assumption.
      repeat split; try eassumption; try reflexivity; lia.
    + eexists. exists (-1), (-1). rewrite (compareVer_segments a b) by assumption.
      repeat split; try eassumption; try reflexivity; lia.
    + do 3 eexists. rewrite !compareVer_segments by assumption.
      repeat split; try reflexivity. apply compare_segments_trans.
Qed.

Lemma compareVer_total_order_witness :
  (exists r, compareVer "1.0" "1.5" = Some r /\ compareVer "1.5" "1.0" = Some (- r))
  /\ (exists z, compareVer "1.0" "2.0" = Some z /\ z <= 0).
Proof.
  destruct compareVer_total_order as [A T]. split; [apply A|].
  destruct (T "1.0" "1.5" "2.0") as (x & y & z & Hx & Hy & Hz & H).
  exists z. split; [exact Hz|]. apply H.
  - vm_compute in Hx. injection Hx as <-. discriminate.
  - vm_compute in Hy. injection Hy as <-. discriminate.
Defined.

(** C2. The wildcard is greater than every other token and equal to
    itself: for [v] other than the literal asterisk, [compareVer v "*"] is
    -1 and [compareVer "*" v] is 1, and [compareVer "*" "*"] is 0. *)
Theorem compareVer_wildcard v :
  v <> "*" ->
  compareVer v "*" = Some (-1) /\ compareVer "*" v = Some 1
  /\ compareVer "*" "*" = Some 0.
Proof.
  intros Hv. apply String.eqb_neq in Hv. unfold compareVer. rewrite Hv.
  repeat split; reflexivity.
Qed.

Lemma compareVer_wildcard_witness :
  "91.0" <> "*"
  /\ compareVer "91.0" "*" = Some (-1) /\ compareVer "*" "91.0" = Some 1
  /\ compareVer "*" "*" = Some 0.
Proof.
  split; [discriminate | apply (compareVer_wildcard "91.0"); discriminate].
Defined.

(** C3. The edge cases of the specification: a pre-release build is below
    its release, missing trailing segments count as zero, and segments
    compare as numbers. *)
Theorem compareVer_edge_cases :
  compareVer "91.0a1" "91.0" = Some (-1)
  /\ compareVer "4" "4.0.0" = Some 0
  /\ compareVer "1.0.0" "1.0.0.0" = Some 0
  /\ compareVer "102.0" "91.0" = Some 1
  /\ compareVer "91.0" "91.0" = Some 0.
Proof.
  split; [|split; [|split; [|split]]]; vm_compute; reflexivity.
Qed.

(** C8. [compareVer] returns for every pair of strings, and the result is
    -1, 0 or 1.  Whatever the tokens, the fragments are strings of digits
    and minus signs; an empty fragment, a fragment that is not a number
    and a position past the end of an array all read as 0, so empty and
    malformed tokens still compare. *)
Theorem compareVer_never_raises :
  (forall a b, exists r,
      compareVer a b = Some r /\ (r = -1 \/ r = 0 \/ r = 1))
  /\ (forall t, Forall (fun v => exists f, v = Str f /\ all_in segment_char f = true)
                       (prep t))
  /\ double_tilde (Str EmptyString) = 0
  /\ (forall s, numeric_fragment s = false -> double_tilde (Str s) = 0)
  /\ (forall a i, (List.length a <= i)%nat -> double_tilde (array_get a i) = 0)
  /\ segments (prep EmptyString) = [0]
  /\ compareVer EmptyString EmptyString = Some 0
  /\ compareVer EmptyString "0.0" = Some 0
  /\ compareVer "..-.." "0" = Some 0.
Proof.
  split; [|split; [|split; [|split; [|split; [|split; [|split; [|split]]]]]]].
  - intros a b.
    destruct (string_dec a "*") as [->|Ha], (string_dec b "*") as [->|Hb].
    + exists 0. split; auto.
    + exists 1. unfold compareVer. apply String.eqb_neq in Hb. rewrite Hb. auto.
    + exists (-1). unfold compareVer. apply String.eqb_neq in Ha. rewrite Ha. auto.
    + eexists. rewrite compareVer_segments by assumption. split; [reflexivity|].
      apply compare_positions_range.
  - apply prep_fragment_chars.
  - vm_compute. reflexivity.
  - apply double_tilde_non_numeric.
  - intros a i H. rewrite array_get_past_end by exact H. reflexivity.
  - vm_compute. reflexivity.
  - vm_compute. reflexivity.
  - vm_compute. reflexivity.
  - vm_compute. reflexivity.
Qed.

Lemma compareVer_never_raises_witness :
  (exists r, compareVer "1.0-beta" "?" = Some r /\ (r = -1 \/ r = 0 \/ r = 1))
  /\ double_tilde (Str "-") = 0
  /\ double_tilde (array_get [Str "1"] 1) = 0.
Proof.
  destruct compareVer_never_raises as (T & _ & _ & N & P & _).
  split; [apply T | split; [apply N; reflexivity | apply P; simpl; lia]].
Defined.

(** C9, as stated, fails: the code returns 1 for rc10 against rc2. *)
Lemma compareVer_rc10_above_rc2 : compareVer "91.0rc10" "91.0rc2" = Some 1.
Proof. vm_compute. reflexivity. Qed.

(** C9, amended.  The digits after a tag are a segment of their own and
    compare as integers: for two runs of digits of values [v1] and [v2]
    below 2^31, the token [91.0rc] followed by the first run against
    [91.0rc] followed by the second gives the sign of [v1 - v2], so rc10 is
    above rc2. *)
Theorem compareVer_tag_suffix_numeric d1 d2 v1 v2 :
  d1 <> EmptyString -> d2 <> EmptyString ->
  digits_value 0 d1 = Some v1 -> digits_value 0 d2 = Some v2 ->
  v1 < 2 ^ 31 -> v2 < 2 ^ 31 ->
  compareVer ("91.0rc" ++ d1) ("91.0rc" ++ d2) = Some (Z.sgn (v1 - v2)).
Proof.
  intros N1 N2 H1 H2 L1 L2.
  destruct (digits_value_some d1 0 v1 ltac:(lia) H1) as [A1 _].
  destruct (digits_value_some d2 0 v2 ltac:(lia) H2) as [A2 _].
  rewrite compareVer_rc_segments by assumption.
  rewrite (double_tilde_digits d1 v1), (double_tilde_digits d2 v2) by assumption.
  reflexivity.
Qed.

Lemma compareVer_tag_suffix_numeric_witness :
  compareVer "91.0rc10" "91.0rc2" = Some 1 /\ compareVer "91.0rc2" "91.0rc10" = Some (-1).
Proof.
  split.
  - apply (compareVer_tag_suffix_numeric "10" "2" 10 2);
      (reflexivity || discriminate).
  - apply (compareVer_tag_suffix_numeric "2" "10" 2 10);
      (reflexivity || discriminate).
Defined.

End VersionFacts.

(** * Properties of the schema functions *)

Module SchemaFacts.
Import Json Schema Spec.

(** ** The specification's flattening, unfolded once *)

Lemma flatten_eq node :
  flatten node
  = flat_map flat_child (group "properties" node ++ group "patternProperties" node).
Proof.
  destruct node as [| | | | | |kvs]; try reflexivity.
  simpl. rewrite flat_map_app. f_equal.
  - induction kvs as [|[k x] t IH]; simpl; [reflexivity|].
    destruct (k =? "properties")%string; [|apply IH].
    destruct x as [| | | | | |es]; try reflexivity.
    clear. induction es as [|[n e] es IH]; simpl; [reflexivity|].
    unfold flat_child at 1. simpl. do 2 f_equal. apply IH.
  - induction kvs as [|[k x] t IH]; simpl; [reflexivity|].
    destruct (k =? "patternProperties")%string; [|apply IH].
    destruct x as [| | | | | |es]; try reflexivity.
    clear. induction es as [|[n e] es IH]; simpl; [reflexivity|].
    unfold flat_child at 1. simpl. do 2 f_equal. apply IH.
Qed.

Lemma flat_names_eq node :
  flat_names node
  = flat_map names_child (group "properties" node ++ group "patternProperties" node).
Proof.
  unfold flat_names. rewrite flatten_eq.
  induction (group "properties" node ++ group "patternProperties" node)%list
    as [|[n e] l IH]; simpl; [reflexivity|].
  rewrite map_app, IH. unfold names_child at 1. simpl. do 2 f_equal.
  unfold flat_names. rewrite !map_map. reflexivity.
Qed.

(** ** Schema nodes *)

Lemma assoc_In {A} k (kvs : list (string * A)) x :
  assoc k kvs = Some x -> In (k, x) kvs.
Proof.
  induction kvs as [|[k' v] t IH]; simpl; [discriminate|].
  destruct (String.eqb_spec k' k) as [->|]; intros H.
  - left. congruence.
  - right. auto.
Qed.

Lemma depth_member k x kvs : In (k, x) kvs -> (depth x < depth (JObj kvs))%nat.
Proof.
  intros H. simpl.
  assert (L : Forall (fun n => (n <= list_max (map (fun kv => depth (snd kv)) kvs))%nat)
                     (map (fun kv : string * value => depth (snd kv)) kvs))
    by (apply list_max_le; lia).
  rewrite Forall_forall in L.
  specialize (L (depth x)). apply Nat.lt_succ_r, L.
  apply in_map_iff. exists (k, x). auto.
Qed.

(** What a grouping key of a schema node holds: a mapping of schema nodes,
    each nested two levels below the node, or nothing. *)
Lemma schema_group node key :
  schema_node node = true -> is_group key = true ->
  (lookup_prop node key = JObj (group key node)
   \/ (lookup_prop node key = JUndefined /\ group key node = []))
  /\ (forall child, In child (group key node) ->
        schema_node (snd child) = true /\ (S (depth (snd child)) < depth node)%nat).
Proof.
  destruct node as [| | | | | |kvs]; try discriminate. intros Hs Hk.
  unfold lookup_prop, group. cbn [own_entries].
  destruct (assoc key kvs) as [x|] eqn:Hx.
  - apply assoc_In in Hx. pose proof (depth_member _ _ _ Hx) as Hd.
    cbn [schema_node] in Hs. rewrite forallb_forall in Hs.
    specialize (Hs _ Hx). cbn [fst snd] in Hs. rewrite Hk in Hs.
    destruct x as [| | | | | |es]; try discriminate.
    split; [left; reflexivity|]. intros [n e] Hc.
    rewrite forallb_forall in Hs. split; [apply (Hs _ Hc)|].
    pose proof (depth_member _ _ _ Hc). cbn [snd]. lia.
  - split; [right; split; [|reflexivity] | intros ? []].
    unfold is_group in Hk.
    destruct (String.eqb_spec key "__proto__") as [->|]; [discriminate | reflexivity].
Qed.

(** ** The loops of the extraction *)

Lemma entries_loop_flat rec es : forall acc,
  (forall child, In child es -> rec (snd child) = Ret (flat_names (snd child))) ->
  entries_loop rec es acc = Ret (acc ++ flat_map names_child es)%list.
Proof.
  induction es as [|[n e] es IH]; intros acc H; simpl.
  - rewrite app_nil_r. reflexivity.
  - pose proof (H (n, e) (or_introl eq_refl)) as He. cbn [snd] in He.
    rewrite He. cbn [bind].
    rewrite IH by (intros c Hc; apply H; right; exact Hc).
    f_equal. unfold names_child at 2. cbn [fst snd].
    destruct (flat_names e) as [|x l]; simpl; rewrite <- !app_assoc; reflexivity.
Qed.

Lemma keys_loop_group rec node key keys acc :
  schema_node node = true -> is_group key = true ->
  keys_loop rec node (key :: keys) acc
  = (acc' <- entries_loop rec (group key node) acc ;; keys_loop rec node keys acc').
Proof.
  intros Hs Hk. destruct (schema_group node key Hs Hk) as [[Hg|[Hg Hn]] _].
  - cbn [keys_loop]. destruct node; try discriminate.
    unfold get. rewrite Hg. cbn [bind truthy Object_entries own_entries]. reflexivity.
  - cbn [keys_loop]. destruct node; try discriminate.
    unfold get. rewrite Hg, Hn. reflexivity.
Qed.

(** On a schema node the extraction returns the specification's flat key
    sequence, whatever fuel beyond the nesting depth it is given. *)
Lemma extract_fuel_flat_names fuel : forall node,
  schema_node node = true -> (depth node < fuel)%nat ->
  extract_fuel fuel node = Ret (flat_names node).
Proof.
  induction fuel as [|fuel IH]; intros node Hs Hd; [lia|].
  cbn [extract_fuel].
  pose proof (schema_group node "properties" Hs eq_refl) as [_ Hp].
  pose proof (schema_group node "patternProperties" Hs eq_refl) as [_ Hpp].
  rewrite keys_loop_group by auto.
  rewrite entries_loop_flat
    by (intros c Hc; destruct (Hp c Hc); apply IH; [assumption | lia]).
  cbn [bind]. rewrite keys_loop_group by auto.
  rewrite entries_loop_flat
    by (intros c Hc; destruct (Hpp c Hc); apply IH; [assumption | lia]).
  cbn [bind keys_loop]. rewrite flat_names_eq, flat_map_app. reflexivity.
Qed.

Lemma extract_flat_names node :
  schema_node node = true ->
  extractFlatPolicyNamesFromPolicySchema node = Ret (flat_names node).
Proof.
  intros Hs. apply extract_fuel_flat_names; [assumption | lia].
Qed.

(** ** The extraction never runs out of fuel *)

Lemma index_key_not_p z s : Js.Z_to_string z <> String "p" s.
Proof.
  unfold Js.Z_to_string. destruct (Z.to_int z) as [u|u]; destruct u; discriminate.
Qed.

Lemma group_key_p key : is_group key = true -> exists s, key = String "p" s.
Proof.
  unfold is_group. intros H. apply orb_prop in H as [H|H];
    apply String.eqb_eq in H; subst; eauto.
Qed.

Lemma assoc_indexed_group {A B} (f : A -> B) key xs : forall i,
  is_group key = true -> assoc key (indexed f i xs) = None.
Proof.
  intros i H. destruct (group_key_p key H) as [s ->]. revert i.
  induction xs as [|x xs IH]; intros i; simpl; [reflexivity|].
  destruct (String.eqb_spec (Js.Z_to_string (Z.of_nat i)) (String "p" s)) as [E|_].
  - destruct (index_key_not_p _ _ E).
  - apply IH.
Qed.

Lemma depth_element x xs : In x xs -> (depth x < depth (JArr xs))%nat.
Proof.
  intros H. simpl.
  assert (L : Forall (fun n => (n <= list_max (map depth xs))%nat) (map depth xs))
    by (apply list_max_le; lia).
  rewrite Forall_forall in L. apply Nat.lt_succ_r, L, in_map, H.
Qed.

Lemma In_indexed {A B} (f : A -> B) k y xs : forall i,
  In (k, y) (indexed f i xs) -> exists x, In x xs /\ y = f x.
Proof.
  induction xs as [|x xs IH]; intros i H; simpl in H; [destruct H|].
  destruct H as [H|H].
  - injection H as _ <-. exists x. split; [left|]; reflexivity.
  - destruct (IH _ H) as (x' & Hx & ->). exists x'. split; [right|]; auto.
Qed.

(** An entry of a value is nested no deeper than the value. *)
Lemma depth_own_entry v child :
  In child (own_entries v) -> (depth (snd child) <= depth v)%nat.
Proof.
  destruct child as [k y]. destruct v as [| | | |s|xs|kvs]; cbn [own_entries snd];
    try (intros []).
  - intros H. apply In_indexed in H as (c & _ & ->). simpl. lia.
  - intros H. apply In_indexed in H as (x & Hx & ->).
    pose proof (depth_element _ _ Hx). lia.
  - intros H. pose proof (depth_member _ _ _ H). lia.
Qed.

(** What a grouping key reads off any value: nothing, or a member one level
    down. *)
Lemma depth_group_value v key :
  is_group key = true ->
  lookup_prop v key = JUndefined \/ (depth (lookup_prop v key) < depth v)%nat.
Proof.
  intros H. destruct (group_key_p key H) as [s ->]. unfold lookup_prop.
  destruct v as [| | | |t|xs|kvs]; cbn [own_entries assoc]; auto.
  - rewrite assoc_indexed_group by exact H. left.
    unfold is_group in H. destruct (String.eqb_spec (String "p" s) "length"); [discriminate|].
    destruct (String.eqb_spec (String "p" s) "__proto__"); [discriminate|]. reflexivity.
  - rewrite assoc_indexed_group by exact H. left.
    destruct (String.eqb_spec (String "p" s) "length"); [discriminate|].
    destruct (String.eqb_spec (String "p" s) "__proto__"); [discriminate|]. reflexivity.
  - destruct (assoc (String "p" s) kvs) as [x|] eqn:E.
    + right. apply assoc_In in E. apply (depth_member _ _ _ E).
    + left. destruct (String.eqb_spec (String "p" s) "__proto__"); [discriminate|].
      reflexivity.
Qed.

Lemma entries_loop_fuel rec es : forall acc,
  (forall child, In child es -> rec (snd child) <> OutOfFuel) ->
  entries_loop rec es acc <> OutOfFuel.
Proof.
  induction es as [|[n e] es IH]; intros acc H; simpl; [discriminate|].
  pose proof (H (n, e) (or_introl eq_refl)) as He. cbn [snd] in He.
  destruct (rec e); cbn [bind]; try congruence.
  apply IH. intros c Hc. apply H. right. exact Hc.
Qed.

Lemma keys_loop_fuel rec v keys : forall acc,
  Forall (fun key => is_group key = true) keys ->
  (forall e, (S (depth e) < S (depth v))%nat -> rec e <> OutOfFuel) ->
  keys_loop rec v keys acc <> OutOfFuel.
Proof.
  induction keys as [|key keys IH]; intros acc Hk Hrec; simpl; [discriminate|].
  inversion Hk as [|? ? Hkey Hkeys]; subst.
  unfold get. destruct v eqn:Ev; try discriminate; cbn [bind]; rewrite <- Ev in *;
    (destruct (depth_group_value v key Hkey) as [Hu|Hd];
     [rewrite Hu; cbn [truthy]; apply IH; assumption|];
     destruct (truthy (lookup_prop v key)); [|apply IH; assumption];
     unfold Object_entries;
     destruct (lookup_prop v key) eqn:Eg; cbn [bind]; try discriminate;
     rewrite <- Eg in *;
     (destruct (entries_loop rec (own_entries (lookup_prop v key)) acc) eqn:El;
      cbn [bind]; [apply IH; assumption | discriminate |];
      exfalso; revert El; apply entries_loop_fuel;
      intros c Hc; apply Hrec; pose proof (depth_own_entry _ _ Hc); lia)).
Qed.

Lemma extract_fuel_enough : forall fuel v,
  (depth v < fuel)%nat -> extract_fuel fuel v <> OutOfFuel.
Proof.
  induction fuel as [|fuel IH]; intros v H; [lia|]. cbn [extract_fuel].
  apply keys_loop_fuel; [repeat constructor|].
  intros e He. apply IH. lia.
Qed.

(** The extraction returns a list or throws, for every value. *)
Lemma extract_total data :
  extractFlatPolicyNamesFromPolicySchema data <> OutOfFuel.
Proof. apply extract_fuel_enough. lia. Qed.

(** ** The filters of the diff *)

Lemma filterM_pure f keys : filterM (fun e => Ret (f e)) keys = Ret (filter f keys).
Proof.
  induction keys as [|e t IH]; simpl; [reflexivity|].
  rewrite IH. simpl. destruct (f e); reflexivity.
Qed.

Lemma filterM_ext f g keys :
  (forall e, f e = g e) -> filterM f keys = filterM g keys.
Proof.
  intros H. induction keys as [|e t IH]; simpl; [reflexivity|].
  rewrite H, IH. reflexivity.
Qed.

Lemma includes_In keys e : includes keys e = true <-> In e keys.
Proof.
  unfold includes. rewrite existsb_exists. split.
  - intros [x [Hx He]]. apply String.eqb_eq in He. subst. exact Hx.
  - intros H. exists e. split; [exact H | apply String.eqb_refl].
Qed.

Lemma filter_not_includes l k :
  filter (fun e => negb (includes k e)) l = difference l k.
Proof.
  induction l as [|e t IH]; simpl; [reflexivity|].
  destruct (in_dec string_dec e k) as [Hin|Hout].
  - apply includes_In in Hin. rewrite Hin. simpl. exact IH.
  - destruct (includes k e) eqn:E; [apply includes_In in E; contradiction|].
    simpl. rewrite IH. reflexivity.
Qed.

Lemma differs_neq x y : differs x y = true <-> x <> y.
Proof.
  destruct x as [s|], y as [t|]; simpl; split; try congruence; try discriminate.
  - intros H E. injection E as ->. rewrite String.eqb_refl in H. discriminate.
  - intros H. destruct (String.eqb_spec s t); [subst; congruence | reflexivity].
Qed.

Lemma has_key_properties node :
  schema_node node = true -> has_key "properties" node = true ->
  lookup_prop node "properties" = JObj (group "properties" node).
Proof.
  intros Hs Hk. destruct node as [| | | | | |kvs]; try discriminate.
  unfold has_key in Hk. unfold lookup_prop, group. cbn [own_entries] in *.
  destruct (assoc "properties" kvs) as [x|] eqn:Hx; [|discriminate].
  apply assoc_In in Hx. cbn [schema_node] in Hs. rewrite forallb_forall in Hs.
  specialize (Hs _ Hx). cbn [fst snd is_group] in Hs.
  destruct x; try discriminate. reflexivity.
Qed.

Lemma filterM_fuel f keys :
  (forall e, f e <> OutOfFuel) -> filterM f keys <> OutOfFuel.
Proof.
  intros H. induction keys as [|e t IH]; simpl; [discriminate|].
  specialize (H e). destruct (f e); cbn [bind]; try congruence.
  destruct (filterM f t); cbn [bind]; congruence.
Qed.

Lemma get_fuel {A} v k (c : value -> outcome A) :
  (forall x, c x <> OutOfFuel) -> bind (get v k) c <> OutOfFuel.
Proof. intros H. unfold get. destruct v; cbn [bind]; auto; discriminate. Qed.

(** The diff returns a result or throws, for every pair of values. *)
Lemma check_total file1 file2 : checkPolicySchemaChanges file1 file2 <> OutOfFuel.
Proof.
  unfold checkPolicySchemaChanges.
  destruct (negb _ || negb _); [discriminate|].
  pose proof (extract_total file1) as T1. pose proof (extract_total file2) as T2.
  destruct (extractFlatPolicyNamesFromPolicySchema file1) as [keys1| |];
    cbn [bind]; try congruence.
  destruct (extractFlatPolicyNamesFromPolicySchema file2) as [keys2| |];
    cbn [bind]; try congruence.
  rewrite !filterM_pure. cbn [bind].
  match goal with |- bind (filterM ?f ?l) _ <> _ =>
    pose proof (filterM_fuel f l) as F; destruct (filterM f l) end;
    cbn [bind]; try discriminate.
  exfalso. apply F; [|reflexivity].
  intros e. destruct (includes keys1 e); [|discriminate].
  apply get_fuel. intros p2. apply get_fuel. intros x2.
  apply get_fuel. intros p1. apply get_fuel. intros x1. discriminate.
Qed.

(** The diff of two schema nodes that have a [properties] key. *)
Lemma check_schema_nodes old new :
  schema_node old = true -> schema_node new = true ->
  has_key "properties" old = true -> has_key "properties" new = true ->
  checkPolicySchemaChanges old new
  = Ret (Some {| added := difference (flat_names new) (flat_names old);
                 removed := difference (flat_names old) (flat_names new);
                 changed := changed_by_direct_lookup old new |}).
Proof.
  intros So Sn Ko Kn. unfold checkPolicySchemaChanges.
  pose proof (has_key_properties old So Ko) as Po.
  pose proof (has_key_properties new Sn Kn) as Pn.
  destruct old as [| | | | | |ko]; try discriminate.
  destruct new as [| | | | | |kn]; try discriminate.
  cbn [get_opt]. rewrite Po, Pn. cbn [truthy negb orb].
  rewrite !extract_flat_names by assumption. cbn [bind].
  rewrite !filterM_pure. cbn [bind]. rewrite !filter_not_includes.
  rewrite (filterM_ext _ (fun e => Ret (includes (flat_names (JObj ko)) e
                                        && direct_lookup_differs (JObj ko) (JObj kn) e))).
  - rewrite filterM_pure. reflexivity.
  - intros e. destruct (includes (flat_names (JObj ko)) e); [|reflexivity].
    unfold get at 1. cbn [bind]. rewrite Pn. unfold get at 1. cbn [bind].
    unfold get at 1. cbn [bind]. rewrite Po. unfold get at 1. cbn [bind].
    unfold direct_lookup_differs. rewrite Po, Pn. reflexivity.
Qed.

Lemma lookup_absent es e :
  assoc e es = None ->
  lookup_prop (JObj es) e = if (e =? "__proto__")%string then JObj [] else JUndefined.
Proof. intros H. unfold lookup_prop. cbn [own_entries]. rewrite H. reflexivity. Qed.

Lemma difference_In l k e : In e (difference l k) <-> In e l /\ ~ In e k.
Proof.
  induction l as [|x t IH]; simpl; [tauto|].
  destruct (in_dec string_dec x k) as [Hin|Hout]; simpl; rewrite IH; split.
  - tauto.
  - intros [[->|H] Hn]; [contradiction | tauto].
  - intros [->|H]; tauto.
  - tauto.
Qed.

Lemma difference_count l k e :
  ~ In e k -> count_occ string_dec (difference l k) e = count_occ string_dec l e.
Proof.
  intros H. induction l as [|x t IH]; simpl; [reflexivity|].
  destruct (in_dec string_dec x k) as [Hin|Hout]; simpl;
    destruct (string_dec x e) as [->|]; auto; contradiction.
Qed.

(** ** The claims about the schema functions *)

(** *** The order of enumeration *)

Lemma In_insert_index n kv l x :
  In x (Order.insert_index n kv l) <-> x = (n, kv) \/ In x l.
Proof.
  induction l as [|[m kv'] t IH]; cbn [Order.insert_index].
  - cbn [In]. intuition congruence.
  - destruct (n <? m); cbn [In]; [intuition congruence|]. rewrite IH. tauto.
Qed.

Lemma In_index_entries kvs n kv :
  In (n, kv) (Order.index_entries kvs) -> In kv kvs /\ Order.array_index (fst kv) = Some n.
Proof.
  induction kvs as [|x t IH]; cbn [Order.index_entries]; [intros []|].
  destruct (Order.array_index (fst x)) as [m|] eqn:E.
  - rewrite In_insert_index. intros [H|H].
    + injection H as -> ->. split; [left; reflexivity | exact E].
    + destruct (IH H). split; [right|]; assumption.
  - intros H. destruct (IH H). split; [right|]; assumption.
Qed.

Lemma In_enumeration kvs kv : In kv (Order.enumeration kvs) -> In kv kvs.
Proof.
  unfold Order.enumeration. intros H. apply in_app_or in H as [H|H].
  - apply in_map_iff in H as ([n x] & <- & H). apply In_index_entries in H. apply H.
  - apply filter_In in H. apply H.
Qed.

(** A name that is no array index is found where it was: the entries
    ahead of it in the enumeration have other names. *)
Lemma assoc_enumeration key kvs :
  Order.array_index key = None -> assoc key (Order.enumeration kvs) = assoc key kvs.
Proof.
  intros K. unfold Order.enumeration.
  assert (A : forall l, (forall n kv, In (n, kv) l -> Order.array_index (fst kv) = Some n) ->
              forall r : list (string * value),
                assoc key (map snd l ++ r)%list = assoc key r).
  { induction l as [|[n [k x]] l IH]; intros H r; [reflexivity|].
    cbn [map snd app assoc]. pose proof (H n (k, x) (or_introl eq_refl)) as E.
    cbn [fst] in E. destruct (String.eqb_spec k key) as [->|_]; [congruence|].
    apply IH. intros m kv Hm. apply (H m kv). right. exact Hm. }
  rewrite A by (intros n kv H; apply (In_index_entries kvs), H).
  induction kvs as [|[k x] t IH]; [reflexivity|]. cbn [filter assoc].
  unfold Order.named at 1. cbn [fst].
  destruct (String.eqb_spec k key) as [->|N].
  - rewrite K. cbn [assoc]. rewrite String.eqb_refl. reflexivity.
  - destruct (Order.array_index k); [exact IH|]. cbn [assoc].
    apply String.eqb_neq in N. rewrite N. exact IH.
Qed.

Lemma assoc_map_snd {A B} (f : A -> B) key (kvs : list (string * A)) :
  assoc key (map (fun kv => (fst kv, f (snd kv))) kvs) = option_map f (assoc key kvs).
Proof.
  induction kvs as [|[k x] t IH]; [reflexivity|]. cbn [map assoc fst snd].
  destruct (k =? key)%string; [reflexivity | exact IH].
Qed.

Lemma group_key_named key : is_group key = true -> Order.array_index key = None.
Proof.
  unfold is_group. intros H. apply orb_prop in H as [H|H];
    apply String.eqb_eq in H; subst key; reflexivity.
Qed.

(** The children of a group of the value a text stands for: those the text
    gives, in the order of enumeration. *)
Lemma group_written key v :
  is_group key = true ->
  group key (Order.written v)
  = Order.enumeration (map (fun kv => (fst kv, Order.written (snd kv))) (group key v)).
Proof.
  intros K. destruct v as [| | | | | |kvs]; try reflexivity.
  cbn [Order.written group].
  rewrite assoc_enumeration by (apply group_key_named, K).
  rewrite assoc_map_snd. destruct (assoc key kvs) as [[| | | | | |es]|]; reflexivity.
Qed.

Lemma schema_node_written : forall n v,
  (depth v < n)%nat -> schema_node v = true -> schema_node (Order.written v) = true.
Proof.
  induction n as [|n IH]; intros v D S; [lia|].
  destruct v as [| | | | | |kvs]; try discriminate.
  cbn [Order.written schema_node] in *. rewrite forallb_forall in *.
  intros kv' H. apply In_enumeration, in_map_iff in H as ([k x] & <- & H).
  specialize (S (k, x) H). cbn [fst snd] in *.
  destruct (is_group k); [|reflexivity].
  destruct x as [| | | | | |es]; try discriminate.
  pose proof (depth_member _ _ _ H) as Dx.
  cbn [Order.written]. rewrite forallb_forall in *.
  intros child' Hc. apply In_enumeration, in_map_iff in Hc as ([c y] & <- & Hc).
  specialize (S (c, y) Hc). cbn [fst snd] in *.
  pose proof (depth_member _ _ _ Hc) as Dy.
  apply IH; [lia | exact S].
Qed.

Lemma enumeration_named kvs :
  forallb Order.named kvs = true -> Order.enumeration kvs = kvs.
Proof.
  unfold Order.enumeration. induction kvs as [|kv t IH]; [reflexivity|].
  cbn [forallb Order.index_entries filter]. intros H. apply andb_prop in H as [N T].
  rewrite N. unfold Order.named in N.
  destruct (Order.array_index (fst kv)); [discriminate|].
  specialize (IH T). destruct (Order.index_entries t) as [|[m x] rest] eqn:I.
  - cbn [map app] in *. rewrite IH. reflexivity.
  - exfalso.
    destruct (In_index_entries t m x) as [Hx E]; [rewrite I; left; reflexivity|].
    rewrite forallb_forall in T. specialize (T x Hx). unfold Order.named in T.
    rewrite E in T. discriminate.
Qed.

(** Without array indices among the names, the order the text gives is the
    order of enumeration. *)
Lemma written_plain : forall n v,
  (depth v < n)%nat -> Order.plain_names v = true -> Order.written v = v.
Proof.
  induction n as [|n IH]; intros v D P; [lia|].
  destruct v as [| | | | |xs|kvs]; try reflexivity.
  - cbn [Order.written Order.plain_names] in *. f_equal.
    rewrite forallb_forall in P. rewrite <- (map_id xs) at 2. apply map_ext_in.
    intros x Hx. apply IH; [|apply P, Hx].
    pose proof (depth_element x xs Hx). lia.
  - cbn [Order.written Order.plain_names] in *. f_equal.
    assert (M : map (fun kv => (fst kv, Order.written (snd kv))) kvs = kvs).
    { rewrite <- (map_id kvs) at 2. apply map_ext_in. intros [k x] Hx.
      rewrite forallb_forall in P. specialize (P (k, x) Hx).
      apply andb_prop in P as [_ P]. cbn [fst snd] in *.
      rewrite IH; [reflexivity | | exact P].
      pose proof (depth_member _ _ _ Hx). lia. }
    rewrite M. apply enumeration_named. rewrite forallb_forall in *.
    intros kv Hkv. specialize (P kv Hkv). apply andb_prop in P as [N _]. exact N.
Qed.

(** C7, as stated, fails: the children are not taken in the order they are
    given.  Of the children [b], [2], [10], given in this order, the two
    whose names are array indices come first. *)
Lemma extract_index_names_first :
  schema_node Order.numbered = true /\ distinct_keys Order.numbered = true
  /\ flat_names Order.numbered = ["b"; "2"; "10"]
  /\ extractFlatPolicyNamesFromPolicySchema (Order.written Order.numbered)
     = Ret ["2"; "10"; "b"]
  /\ extractFlatPolicyNamesFromPolicySchema (Order.written Order.numbered)
     <> Ret (flat_names Order.numbered).
Proof. split; [|split; [|split; [|split]]]; try reflexivity. discriminate. Qed.

(** C7, amended.  On the value that a text of a schema node with distinct
    names stands for, the extraction returns the flattening: the children under [properties], then those under
    [patternProperties], each child giving its own name followed by the
    names of its own flattening prefixed with the name and an underscore.
    The children of a group come in the order of enumeration: those whose
    names are array indices first, ascending, then the others as the text
    gives them; where no name is an array index this is the order of the
    text. *)
Theorem extract_flattens v :
  schema_node v = true -> distinct_keys v = true ->
  extractFlatPolicyNamesFromPolicySchema (Order.written v)
  = Ret (flat_names (Order.written v))
  /\ flat_names (Order.written v)
     = flat_map names_child (group "properties" (Order.written v)
                             ++ group "patternProperties" (Order.written v))
  /\ (forall key, is_group key = true ->
        group key (Order.written v)
        = Order.enumeration
            (map (fun kv => (fst kv, Order.written (snd kv))) (group key v)))
  /\ (Order.plain_names v = true ->
      Order.written v = v
      /\ extractFlatPolicyNamesFromPolicySchema v = Ret (flat_names v))
  /\ extractFlatPolicyNamesFromPolicySchema Examples.nested = Ret ["a"; "a_b"].
Proof.
  intros Hs _.
  split; [apply extract_flat_names, (schema_node_written (S (depth v))); [lia | exact Hs]|].
  split; [apply flat_names_eq|].
  split; [intros key K; apply group_written, K|].
  split; [|reflexivity].
  intros P. split; [apply (written_plain (S (depth v))); [lia | exact P]|].
  apply extract_flat_names, Hs.
Qed.

Lemma extract_flattens_witness :
  extractFlatPolicyNamesFromPolicySchema (Order.written Order.numbered)
  = Ret (flat_names (Order.written Order.numbered))
  /\ group "properties" (Order.written Order.numbered)
     = [("2", JObj []); ("10", JObj []); ("b", JObj [])]
  /\ extractFlatPolicyNamesFromPolicySchema Examples.nested = Ret ["a"; "a_b"].
Proof.
  destruct (extract_flattens Order.numbered eq_refl eq_refl) as (E & _ & G & _ & X).
  split; [exact E|]. split; [exact (G "properties" eq_refl) | exact X].
Defined.

(** C5. For two schema nodes that have a [properties] key the diff is
    returned, [added] being the flat names of the new node that the old one
    lacks and [removed] those of the old node that the new one lacks, each in
    the order of the flattening. *)
Theorem check_added_removed old new :
  schema_node old = true -> schema_node new = true ->
  has_key "properties" old = true -> has_key "properties" new = true ->
  (exists d, checkPolicySchemaChanges old new = Ret (Some d)
             /\ added d = difference (flat_names new) (flat_names old)
             /\ removed d = difference (flat_names old) (flat_names new)
             /\ (forall e, In e (added d) <->
                           In e (flat_names new) /\ ~ In e (flat_names old))
             /\ (forall e, In e (removed d) <->
                           In e (flat_names old) /\ ~ In e (flat_names new)))
  /\ checkPolicySchemaChanges Examples.old_xy Examples.new_xy
     = Ret (Some {| added := ["y"]; removed := []; changed := [] |}).
Proof.
  intros So Sn Ko Kn. split; [|reflexivity].
  eexists. rewrite check_schema_nodes by assumption.
  split; [reflexivity|]. cbn [added removed].
  split; [reflexivity|]. split; [reflexivity|].
  split; intros e; apply difference_In.
Qed.

Lemma check_added_removed_witness :
  exists d, checkPolicySchemaChanges Examples.old_xy Examples.new_xy = Ret (Some d)
            /\ added d = ["y"] /\ removed d = [].
Proof.
  destruct (check_added_removed Examples.old_xy Examples.new_xy
              eq_refl eq_refl eq_refl eq_refl) as [(d & Hd & Ha & Hr & _) _].
  exists d. split; [exact Hd|]. split; [exact Ha | exact Hr].
Defined.

Lemma lacks_properties v :
  has_key "properties" v = false -> truthy (get_opt v "properties") = false.
Proof.
  unfold has_key, get_opt, lookup_prop. intros H.
  destruct (assoc "properties" (own_entries v)); [discriminate|].
  destruct v; reflexivity.
Qed.

(** C6. When either argument has no [properties] key, [null] and
    [undefined] included, nothing is returned and nothing is thrown. *)
Theorem check_not_comparable file1 file2 :
  has_key "properties" file1 = false \/ has_key "properties" file2 = false ->
  checkPolicySchemaChanges file1 file2 = Ret None.
Proof.
  intros [H|H]; apply lacks_properties in H; unfold checkPolicySchemaChanges;
    rewrite H; cbn [negb]; rewrite ?orb_true_r; reflexivity.
Qed.

Lemma check_not_comparable_witness :
  checkPolicySchemaChanges JNull Examples.new_xy = Ret None
  /\ checkPolicySchemaChanges Examples.new_xy JUndefined = Ret None
  /\ checkPolicySchemaChanges Examples.leaf Examples.new_xy = Ret None
  /\ checkPolicySchemaChanges Examples.new_xy Examples.leaf = Ret None.
Proof.
  split; [|split; [|split]].
  - apply (check_not_comparable JNull Examples.new_xy). left. reflexivity.
  - apply (check_not_comparable Examples.new_xy JUndefined). right. reflexivity.
  - apply (check_not_comparable Examples.leaf Examples.new_xy). left. reflexivity.
  - apply (check_not_comparable Examples.new_xy Examples.leaf). right. reflexivity.
Defined.

(** C4, as stated, fails: the two schemas differ in the node bound to
    [a_b], which is a flat name of both, yet [changed] holds [a] alone. *)
Lemma changed_misses_nested_name :
  schema_node Examples.old_nested = true /\ schema_node Examples.new_nested = true
  /\ has_key "properties" Examples.old_nested = true
  /\ has_key "properties" Examples.new_nested = true
  /\ checkPolicySchemaChanges Examples.old_nested Examples.new_nested
     = Ret (Some {| added := []; removed := []; changed := ["a"] |})
  /\ changed_by_bound_node Examples.old_nested Examples.new_nested = ["a"; "a_b"].
Proof. split; [|split; [|split; [|split; [|split]]]]; reflexivity. Qed.

(** C4, amended.  [changed] holds the flat names of the new node that are
    flat names of the old node too and for which [properties[e]], read
    directly off the two top-level [properties] objects, serializes
    differently.  A name that is a key of neither top-level [properties],
    be it a nested name or a name under the top-level [patternProperties],
    is never reported; a name that is a key of both is reported exactly when
    the two nodes under it, with all they hold, serialize differently. *)
Theorem changed_direct_lookup old new :
  schema_node old = true -> schema_node new = true ->
  has_key "properties" old = true -> has_key "properties" new = true ->
  (exists d,
    checkPolicySchemaChanges old new = Ret (Some d)
    /\ changed d = changed_by_direct_lookup old new
    /\ (forall e, In e (changed d) <->
          In e (flat_names new) /\ In e (flat_names old)
          /\ JSON_stringify (lookup_prop (lookup_prop new "properties") e)
             <> JSON_stringify (lookup_prop (lookup_prop old "properties") e))
    /\ (forall e, assoc e (group "properties" old) = None ->
                  assoc e (group "properties" new) = None ->
                  ~ In e (changed d))
    /\ (forall e x y, assoc e (group "properties" old) = Some x ->
                      assoc e (group "properties" new) = Some y ->
                      (In e (changed d) <-> JSON_stringify y <> JSON_stringify x)))
  /\ checkPolicySchemaChanges Patterns.old_pattern Patterns.new_pattern
     = Ret (Some {| added := []; removed := []; changed := [] |}).
Proof.
  intros So Sn Ko Kn. split; [|reflexivity].
  eexists. rewrite check_schema_nodes by assumption.
  split; [reflexivity|]. cbn [changed]. split; [reflexivity|].
  assert (M : forall e, In e (changed_by_direct_lookup old new) <->
                In e (flat_names new) /\ In e (flat_names old)
                /\ JSON_stringify (lookup_prop (lookup_prop new "properties") e)
                   <> JSON_stringify (lookup_prop (lookup_prop old "properties") e)).
  { intros e. unfold changed_by_direct_lookup. rewrite filter_In, andb_true_iff.
    rewrite includes_In. unfold direct_lookup_differs. rewrite differs_neq. tauto. }
  split; [exact M|]. split.
  - intros e Ho Hn Hin. apply M in Hin as (_ & _ & Hd). apply Hd.
    rewrite (has_key_properties old So Ko), (has_key_properties new Sn Kn).
    rewrite !lookup_absent by assumption. reflexivity.
  - intros e x y Ho Hn. rewrite M.
    rewrite (has_key_properties old So Ko), (has_key_properties new Sn Kn).
    unfold lookup_prop. cbn [own_entries]. rewrite Ho, Hn.
    assert (N : forall node z, assoc e (group "properties" node) = Some z ->
                In e (flat_names node)).
    { intros node z Hz. rewrite flat_names_eq. apply in_flat_map.
      exists (e, z). split; [|left; reflexivity].
      apply in_or_app. left. apply assoc_In, Hz. }
    pose proof (N old x Ho). pose proof (N new y Hn). tauto.
Qed.

Lemma changed_direct_lookup_witness :
  exists d,
    checkPolicySchemaChanges Examples.old_nested Examples.new_nested = Ret (Some d)
    /\ changed d = changed_by_direct_lookup Examples.old_nested Examples.new_nested
    /\ (forall e, In e (changed d) <->
          In e (flat_names Examples.new_nested) /\ In e (flat_names Examples.old_nested)
          /\ JSON_stringify (lookup_prop (lookup_prop Examples.new_nested "properties") e)
             <> JSON_stringify (lookup_prop (lookup_prop Examples.old_nested "properties") e))
    /\ (forall e, assoc e (group "properties" Examples.old_nested) = None ->
                  assoc e (group "properties" Examples.new_nested) = None ->
                  ~ In e (changed d))
    /\ (forall e x y, assoc e (group "properties" Examples.old_nested) = Some x ->
                      assoc e (group "properties" Examples.new_nested) = Some y ->
                      (In e (changed d) <-> JSON_stringify y <> JSON_stringify x)).
Proof.
  apply (changed_direct_lookup Examples.old_nested Examples.new_nested); reflexivity.
Defined.

(** C10. The diff does not deduplicate.  A name the old node lacks occurs
    in [added] as often as the flattening of the new node emits it, and
    likewise for [removed]; a name under both [properties] and
    [patternProperties] of one node is emitted twice and reported twice. *)
Theorem diff_keeps_duplicates :
  (forall old new e,
      schema_node old = true -> schema_node new = true ->
      has_key "properties" old = true -> has_key "properties" new = true ->
      exists d, checkPolicySchemaChanges old new = Ret (Some d)
        /\ (~ In e (flat_names old) ->
            count_occ string_dec (added d) e = count_occ string_dec (flat_names new) e)
        /\ (~ In e (flat_names new) ->
            count_occ string_dec (removed d) e = count_occ string_dec (flat_names old) e))
  /\ distinct_keys Examples.twice = true
  /\ extractFlatPolicyNamesFromPolicySchema Examples.twice = Ret ["x"; "x"]
  /\ checkPolicySchemaChanges Examples.no_policies Examples.twice
     = Ret (Some {| added := ["x"; "x"]; removed := []; changed := [] |})
  /\ checkPolicySchemaChanges Examples.twice Examples.no_policies
     = Ret (Some {| added := []; removed := ["x"; "x"]; changed := [] |}).
Proof.
  split; [|split; [|split; [|split]]]; try reflexivity.
  intros old new e So Sn Ko Kn. eexists. rewrite check_schema_nodes by assumption.
  split; [reflexivity|]. cbn [added removed]. split; apply difference_count.
Qed.

Lemma diff_keeps_duplicates_witness :
  exists d, checkPolicySchemaChanges Examples.no_policies Examples.twice = Ret (Some d)
            /\ count_occ string_dec (added d) "x" = 2%nat.
Proof.
  destruct diff_keeps_duplicates as [G _].
  destruct (G Examples.no_policies Examples.twice "x" eq_refl eq_refl eq_refl eq_refl)
    as (d & Hd & Ha & _).
  exists d. split; [exact Hd|]. rewrite Ha; [reflexivity | intros []].
Defined.

End SchemaFacts.

(** * Tokens of a known shape *)

Module TokenFacts.
Import Js Regex Num Version Spec Tokens RegexFacts VersionFacts.

Lemma all_in_weaken (p q : ascii -> bool) s :
  (forall c, p c = true -> q c = true) -> all_in p s = true -> all_in q s = true.
Proof.
  intros W. induction s as [|c s IH]; [reflexivity|].
  rewrite !all_in_cons. intros H. apply andb_prop in H as [Hc Hs].
  rewrite (W c Hc), (IH Hs). reflexivity.
Qed.

Lemma plain_not_tag c : plain_char c = true -> tag_char c = false.
Proof. unfold plain_char, tag_char. intros ->. reflexivity. Qed.

Lemma plain_not_minus c : plain_char c = true -> not_minus c = true.
Proof.
  unfold not_minus. destruct (Ascii.eqb_spec c "-") as [->|]; [|reflexivity].
  discriminate.
Qed.

Lemma digit_plain c : is_digit c = true -> plain_char c = true.
Proof. unfold plain_char. intros ->. reflexivity. Qed.

Lemma zero_digit c : Ascii.eqb "0" c = true -> is_digit c = true.
Proof. intros H. apply Ascii.eqb_eq in H. subst c. reflexivity. Qed.

(** A dotted version holds no tag: the first replacement leaves it alone. *)
Lemma replace_tag_plain f s : forall fuel,
  plain s = true -> replace_all_from fuel re_tag f s = s.
Proof.
  unfold plain. induction s as [|c s IH]; intros [|fuel] H; try reflexivity.
  rewrite all_in_cons in H. apply andb_prop in H as [Hc Hs].
  rewrite replace_all_none by (apply exec_tag_none, plain_not_tag, Hc).
  rewrite IH by exact Hs. reflexivity.
Qed.

(** The second expression needs a minus sign: where there is none, no way
    of matching is left. *)
Lemma in_run_seq r1 r2 st y :
  In y (run (Seq r1 r2) st) -> exists x, In x (run r1 st) /\ In y (run r2 x).
Proof. rewrite run_seq. intros H. apply in_flat_map in H. exact H. Qed.

Lemma in_run_group n r st y :
  In y (run (Group n r) st) -> exists x, In x (run r st) /\ y = set_cap n st x.
Proof.
  cbn [run]. intros H. apply in_map_iff in H as (x & E & Hx). exists x. auto.
Qed.

Lemma in_run_class p st y :
  In y (run (Class p) st) ->
  exists c, rest st = String c (rest y) /\ p c = true /\ caps y = caps st.
Proof.
  cbn [run]. destruct (rest st) as [|c s]; [intros []|].
  destruct (p c) eqn:E; [|intros []]. intros [<-|[]]. exists c. auto.
Qed.

Lemma run_trail_not_minus st :
  state_in not_minus st -> run re_trail st = [].
Proof.
  intros S0. destruct (run re_trail st) as [|y l] eqn:E; [reflexivity|]. exfalso.
  assert (Hy : In y (run re_trail st)) by (rewrite E; left; reflexivity).
  clear E. unfold re_trail in Hy.
  apply in_run_seq in Hy as (x & Hx & Hy).
  pose proof (run_in _ _ _ _ S0 Hx) as Sx.
  apply in_run_seq in Hy as (g & Hg & _).
  apply in_run_group in Hg as (z & Hz & _).
  apply in_run_seq in Hz as (u & Hu & Hz).
  pose proof (run_in _ _ _ _ Sx Hu) as [Su _].
  apply in_run_seq in Hz as (w & Hw & _).
  apply in_run_class in Hw as (c & Ec & Hc & _).
  rewrite Ec, all_in_cons in Su. apply andb_prop in Su as [Nc _].
  unfold not_minus in Nc. rewrite Ascii.eqb_sym, Hc in Nc. discriminate.
Qed.

Lemma exec_trail_not_minus s : all_in not_minus s = true -> exec re_trail s = None.
Proof.
  intros H. unfold exec, first. rewrite run_trail_not_minus; [reflexivity|].
  split; [exact H | constructor].
Qed.

Lemma replace_trail_not_minus f s : forall fuel,
  all_in not_minus s = true -> replace_all_from fuel re_trail f s = s.
Proof.
  induction s as [|c s IH]; intros [|fuel] H; try reflexivity.
  rewrite replace_all_none by (apply exec_trail_not_minus, H).
  rewrite all_in_cons in H. apply andb_prop in H as [_ Hs].
  rewrite IH by exact Hs. reflexivity.
Qed.

(** On a dotted version [prep] is the split at the dots. *)
Lemma prep_plain t : plain t = true -> prep t = map Str (split_dot t).
Proof.
  intros H. unfold prep, replace_all.
  rewrite (replace_tag_plain _ t) by exact H.
  rewrite replace_trail_not_minus; [reflexivity|].
  exact (all_in_weaken _ _ t plain_not_minus H).
Qed.

Lemma split_dot_plain s :
  plain s = true -> Forall (fun f => all_digits f = true) (split_dot s).
Proof.
  unfold plain, all_digits. induction s as [|c s IH]; intros H; [repeat constructor|].
  rewrite all_in_cons in H. apply andb_prop in H as [Hc Hs].
  specialize (IH Hs). cbn [split_dot]. destruct (Ascii.eqb c ".") eqn:E.
  - constructor; [reflexivity | exact IH].
  - unfold plain_char in Hc. rewrite E, orb_false_r in Hc.
    destruct (split_dot s) as [|h t]; [repeat constructor; rewrite all_in_cons, Hc; reflexivity|].
    inversion IH as [|? ? Hh Ht]; subst. constructor; [|exact Ht].
    rewrite all_in_cons, Hc. exact Hh.
Qed.

Lemma fragment_number_digits f :
  all_digits f = true -> double_tilde (Str f) = fragment_number f.
Proof.
  destruct f as [|c f]; [reflexivity|]. intros H.
  unfold double_tilde, fragment_number. cbn [ToNumber StringToNumber].
  assert (Hc : Ascii.eqb c "-" = false).
  { unfold all_digits in H. rewrite all_in_cons in H. apply andb_prop in H as [Hc _].
    destruct (Ascii.eqb_spec c "-") as [->|]; [discriminate | reflexivity]. }
  rewrite Hc. unfold unsigned_literal.
  destruct (digits_value 0 (String c f)); reflexivity.
Qed.

Lemma segments_prep_plain t : plain t = true -> segments (prep t) = dotted_numbers t.
Proof.
  intros H. rewrite prep_plain by exact H. unfold segments, dotted_numbers.
  rewrite map_map. apply map_ext_in. intros f Hf.
  apply fragment_number_digits.
  pose proof (split_dot_plain t H) as F. rewrite Forall_forall in F. auto.
Qed.

Lemma plain_not_wildcard t : plain t = true -> t <> "*".
Proof. intros H ->. discriminate. Qed.

Lemma compareVer_plain a b :
  plain a = true -> plain b = true ->
  compareVer a b = Some (compare_segments (dotted_numbers a) (dotted_numbers b)).
Proof.
  intros Ha Hb. rewrite compareVer_segments by (apply plain_not_wildcard; assumption).
  rewrite !segments_prep_plain by assumption. reflexivity.
Qed.

Lemma split_dot_nonempty s : split_dot s <> [].
Proof.
  destruct s as [|c s]; [discriminate|]. cbn [split_dot].
  destruct (Ascii.eqb c "."); [discriminate|]. destruct (split_dot s); discriminate.
Qed.

Lemma split_dot_app a s :
  split_dot (a ++ String "." s) = (split_dot a ++ split_dot s)%list.
Proof.
  induction a as [|c a IH]; [reflexivity|].
  cbn [append split_dot]. rewrite IH. destruct (Ascii.eqb c "."); [reflexivity|].
  pose proof (split_dot_nonempty a) as N.
  destruct (split_dot a); [congruence | reflexivity].
Qed.

Lemma digits_value_zeros z : zeros z = true -> digits_value 0 z = Some 0.
Proof.
  unfold zeros. induction z as [|c z IH]; [reflexivity|].
  rewrite all_in_cons. intros H. apply andb_prop in H as [Hc Hz].
  apply Ascii.eqb_eq in Hc. subst c. cbn [digits_value].
  change (is_digit "0") with true. cbv iota.
  change (10 * 0 + (code "0" - 48)) with 0. auto.
Qed.

Lemma compare_positions_zero_tail n : forall xs,
  compare_positions n xs (xs ++ [0])%list = 0.
Proof.
  induction n as [|n IH]; intros xs; [reflexivity|].
  destruct xs as [|x xs]; cbn [compare_positions app hd tl].
  - apply compare_positions_nil.
  - rewrite Z.ltb_irrefl. apply IH.
Qed.

Lemma compare_single x y : compare_segments [x] [y] = Z.sgn (x - y).
Proof.
  unfold compare_segments. cbn [List.length Nat.max compare_positions hd tl].
  destruct (Z.ltb_spec y x); [rewrite Z.sgn_pos; lia|].
  destruct (Z.ltb_spec x y); [rewrite Z.sgn_neg; lia|].
  replace (x - y) with 0 by lia. reflexivity.
Qed.

Lemma fragment_number_value d v :
  digits_value 0 d = Some v -> v < 2 ^ 53 -> fragment_number d = wrap32 v.
Proof.
  intros Hv L. unfold fragment_number. rewrite Hv. unfold round_double.
  destruct (Z.ltb_spec v (2 ^ 53)); [reflexivity | lia].
Qed.

(** ** Properties of [compareVer] on dotted and numeric tokens *)

(** X1. Every token compares equal to itself. *)
Theorem compareVer_reflexive a : compareVer a a = Some 0.
Proof.
  destruct (string_dec a "*") as [->|Ha]; [reflexivity|].
  rewrite compareVer_segments by assumption. f_equal.
  pose proof (compare_segments_antisym (segments (prep a)) (segments (prep a))). lia.
Qed.

(** X2. On tokens made of digits and dots only, [prep] is the split at the
    dots, every fragment is a run of digits, and [compareVer] compares the
    numbers of the fragments position by position. *)
Theorem compareVer_dotted a b :
  plain a = true -> plain b = true ->
  compareVer a b = Some (compare_segments (dotted_numbers a) (dotted_numbers b))
  /\ prep a = map Str (split_dot a)
  /\ Forall (fun f => all_digits f = true) (split_dot a).
Proof.
  intros Ha Hb. split; [apply compareVer_plain; assumption|].
  split; [apply prep_plain, Ha | apply split_dot_plain, Ha].
Qed.

Lemma compareVer_dotted_witness :
  compareVer "91.10" "91.9" = Some (compare_segments [91; 10] [91; 9])
  /\ prep "91.10" = [Str "91"; Str "10"].
Proof.
  destruct (compareVer_dotted "91.10" "91.9") as (H & P & _);
    [reflexivity | reflexivity |].
  split; [exact H | exact P].
Defined.

(** X3. One more fragment of zeros at the end of a dotted version, or an
    empty one, changes nothing. *)
Theorem compareVer_trailing_zeros a z :
  plain a = true -> zeros z = true ->
  compareVer a (a ++ "." ++ z) = Some 0 /\ compareVer (a ++ "." ++ z) a = Some 0.
Proof.
  intros Ha Hz.
  assert (Dz : all_digits z = true) by exact (all_in_weaken _ _ z zero_digit Hz).
  assert (Pz : plain (a ++ "." ++ z) = true).
  { unfold plain in *. rewrite all_in_app, Ha. cbn [append]. rewrite all_in_cons.
    exact (all_in_weaken _ _ z digit_plain Dz). }
  assert (N : dotted_numbers (a ++ "." ++ z) = (dotted_numbers a ++ [0])%list).
  { unfold dotted_numbers. cbn [append]. rewrite split_dot_app, map_app.
    rewrite (split_dot_digits z Dz). cbn [map]. unfold fragment_number.
    rewrite (digits_value_zeros z Hz). reflexivity. }
  assert (E : compare_segments (dotted_numbers a) (dotted_numbers a ++ [0]) = 0).
  { unfold compare_segments. apply compare_positions_zero_tail. }
  rewrite !compareVer_plain by assumption. rewrite N.
  rewrite (compare_segments_antisym (dotted_numbers a ++ [0])), E.
  split; reflexivity.
Qed.

Lemma compareVer_trailing_zeros_witness :
  compareVer "91.0" "91.0.00" = Some 0 /\ compareVer "91.0.00" "91.0" = Some 0.
Proof. apply (compareVer_trailing_zeros "91.0" "00"); reflexivity. Defined.

(** X4. Two runs of digits compare by their values reduced modulo 2^32 into
    the signed 32-bit range, not by the values themselves. *)
Theorem compareVer_numbers d1 d2 v1 v2 :
  digits_value 0 d1 = Some v1 -> digits_value 0 d2 = Some v2 ->
  v1 < 2 ^ 53 -> v2 < 2 ^ 53 ->
  compareVer d1 d2 = Some (Z.sgn (wrap32 v1 - wrap32 v2)).
Proof.
  intros H1 H2 L1 L2.
  destruct (digits_value_some d1 0 v1 (Z.le_refl 0) H1) as [D1 _].
  destruct (digits_value_some d2 0 v2 (Z.le_refl 0) H2) as [D2 _].
  rewrite compareVer_plain by (eapply all_in_weaken; [apply digit_plain | eassumption]).
  unfold dotted_numbers. rewrite (split_dot_digits d1 D1), (split_dot_digits d2 D2).
  cbn [map]. rewrite compare_single.
  rewrite (fragment_number_value d1 v1 H1 L1), (fragment_number_value d2 v2 H2 L2).
  reflexivity.
Qed.

Lemma compareVer_numbers_witness :
  compareVer "2147483648" "0" = Some (Z.sgn (wrap32 2147483648 - wrap32 0))
  /\ Z.sgn (wrap32 2147483648 - wrap32 0) = -1.
Proof.
  split; [|reflexivity].
  apply (compareVer_numbers "2147483648" "0" 2147483648 0);
    [reflexivity | reflexivity | lia | lia].
Defined.

End TokenFacts.

(** * Tokens with a tag *)

Module TagFacts.
Import Js Regex Num Version Spec Tokens RegexFacts VersionFacts TokenFacts.

Lemma append_assoc a b c : (a ++ b) ++ c = a ++ (b ++ c).
Proof. induction a as [|x a IH]; [reflexivity|]. cbn [append]. rewrite IH. reflexivity. Qed.

(** ** The callback of the first replacement *)

Lemma replace_first_nonword_kept c m :
  nonword_char c = false ->
  exists m', replace_first re_nonword (fun _ _ => EmptyString) (String c m) = String c m'.
Proof.
  intros H. cbn [replace_first].
  assert (E : exec re_nonword (String c m) = None).
  { unfold exec, first, re_nonword. rewrite first_plus_class_none; auto. }
  rewrite E. eexists. reflexivity.
Qed.

Lemma replace_first_nonword_cut c m :
  nonword_char c = true ->
  replace_first re_nonword (fun _ _ => EmptyString) (String c m) = skip nonword_char m.
Proof.
  intros H. cbn [replace_first].
  assert (E : exec re_nonword (String c m)
              = Some {| rest := skip nonword_char m; caps := [] |}).
  { apply first_plus_class, H. }
  rewrite E. reflexivity.
Qed.

(** The text the callback returns for a run [m]. *)
Lemma tag_segment_key m cs :
  tag_segment m cs
  = "." ++ match tag_key m with Some n => Z_to_string n | None => EmptyString end ++ ".".
Proof.
  destruct m as [|c m]; [reflexivity|]. unfold tag_segment, tag_key.
  destruct (nonword_char c) eqn:E.
  - rewrite replace_first_nonword_cut by exact E. cbn [skip]. rewrite E.
    destruct (skip nonword_char m) as [|x r]; reflexivity.
  - destruct (replace_first_nonword_kept c m E) as [m' ->]. cbn [skip]. rewrite E.
    reflexivity.
Qed.

Lemma tag_key_shape y :
  match Z_to_string (code y - 65536) with
  | String c ds => Ascii.eqb c "-" && (all_digits ds && truthy_string ds)
  | EmptyString => false
  end = true.
Proof. destruct y as [[] [] [] [] [] [] [] []]; reflexivity. Qed.

Lemma tag_key_value y : double_tilde (Str (Z_to_string (code y - 65536))) = code y - 65536.
Proof. destruct y as [[] [] [] [] [] [] [] []]; reflexivity. Qed.

Lemma tag_key_negative y : code y - 65536 < 0.
Proof. destruct y as [[] [] [] [] [] [] [] []]; reflexivity. Qed.

(** The number of a tag is written as a minus sign and digits, and reads
    back as itself. *)
Lemma tag_key_text m n :
  tag_key m = Some n ->
  n < 0 /\ double_tilde (Str (Z_to_string n)) = n
  /\ exists ds, Z_to_string n = String "-" ds /\ all_digits ds = true /\ ds <> EmptyString.
Proof.
  unfold tag_key. destruct (skip nonword_char m) as [|c r]; [discriminate|].
  intros E. injection E as <-.
  split; [apply tag_key_negative|]. split; [apply tag_key_value|].
  pose proof (tag_key_shape (lower_char c)) as S.
  destruct (Z_to_string (code (lower_char c) - 65536)) as [|x ds]; [discriminate|].
  apply andb_prop in S as [X S]. apply andb_prop in S as [D T].
  apply Ascii.eqb_eq in X. subst x. exists ds.
  split; [reflexivity|]. split; [exact D|]. intros ->. discriminate.
Qed.

(** ** The first replacement on a dotted version, a tag and digits *)

Lemma skip_tag_run m d :
  all_in tag_char m = true -> all_digits d = true -> skip tag_char (m ++ d) = d.
Proof.
  intros Hm Hd. induction m as [|c m IH]; [apply skip_tag_digits, Hd|].
  rewrite all_in_cons in Hm. apply andb_prop in Hm as [Hc Hm].
  cbn [append skip]. rewrite Hc. auto.
Qed.

Lemma replace_tag_tagged f v m d :
  plain v = true -> all_in tag_char m = true -> m <> EmptyString ->
  all_digits d = true ->
  forall fuel, (String.length (v ++ m ++ d) < fuel)%nat ->
  replace_all_from fuel re_tag f (v ++ m ++ d) = v ++ f m [] ++ d.
Proof.
  intros Hv Hm Nm Hd. unfold plain in Hv.
  induction v as [|c v IH]; intros [|fuel] L; try (exfalso; lia).
  - destruct m as [|x m]; [congruence|]. cbn [append].
    rewrite all_in_cons in Hm. apply andb_prop in Hm as [Hx Hm].
    rewrite (replace_all_some _ _ _ _ {| rest := d; caps := [] |}).
    + cbn [rest caps]. change (String x (m ++ d)) with (String x m ++ d).
      rewrite consumed_app, replace_tag_digits by exact Hd. reflexivity.
    + rewrite exec_tag_some by exact Hx. rewrite skip_tag_run by assumption.
      reflexivity.
    + cbn [rest]. change (String x (m ++ d)) with (String x m ++ d).
      rewrite consumed_app. reflexivity.
  - rewrite all_in_cons in Hv. apply andb_prop in Hv as [Hc Hv].
    cbn [append]. rewrite replace_all_none by (apply exec_tag_none, plain_not_tag, Hc).
    rewrite IH; [reflexivity | exact Hv |]. cbn [append String.length] in L. lia.
Qed.

(** ** Texts of the form [(\.0+)*] *)

Lemma blocks_split s t : blocks (split_dot s) t = String "." (s ++ t).
Proof.
  induction s as [|c s IH]; [reflexivity|]. cbn [split_dot].
  destruct (Ascii.eqb_spec c ".") as [->|N].
  - cbn [blocks fold_right append]. fold (blocks (split_dot s) t). rewrite IH. reflexivity.
  - pose proof (split_dot_nonempty s) as E.
    destruct (split_dot s) as [|h r]; [congruence|].
    cbn [blocks fold_right append] in *. injection IH as IH. rewrite IH. reflexivity.
Qed.

Lemma zero_tail_blocks z :
  zero_tail z = true ->
  exists fs, Forall (fun f => zero_fragment f = true) fs /\ forall t, z ++ t = blocks fs t.
Proof.
  destruct z as [|c s]; intros H.
  - exists []. split; [constructor | reflexivity].
  - cbn [zero_tail] in H. apply andb_prop in H as [C F].
    apply Ascii.eqb_eq in C. subst c. exists (split_dot s). split.
    + apply Forall_forall. rewrite forallb_forall in F. exact F.
    + intros t. rewrite blocks_split. reflexivity.
Qed.

Lemma zero_tail_app a b :
  zero_tail a = true -> zero_tail b = true -> zero_tail (a ++ b) = true.
Proof.
  destruct a as [|c a]; [auto|]. destruct b as [|c' b].
  - rewrite append_empty_r. auto.
  - cbn [append zero_tail]. intros Ha Hb.
    apply andb_prop in Ha as [-> Fa]. apply andb_prop in Hb as [C Fb].
    apply Ascii.eqb_eq in C. subst c'.
    rewrite split_dot_app, forallb_app, Fa, Fb. reflexivity.
Qed.

Lemma zero_tail_block zs :
  zeros zs = true -> zs <> EmptyString -> zero_tail (String "." zs) = true.
Proof.
  intros Z N. cbn [zero_tail].
  rewrite (split_dot_digits zs) by exact (all_in_weaken _ _ zs zero_digit Z).
  cbn [forallb]. unfold zero_fragment. rewrite Z.
  destruct zs; [congruence | reflexivity].
Qed.

Lemma fragments_not_minus s :
  forallb zeros (split_dot s) = true -> all_in not_minus s = true.
Proof.
  induction s as [|c s IH]; [reflexivity|]. cbn [split_dot].
  destruct (Ascii.eqb_spec c ".") as [->|N].
  - cbn [forallb]. intros H. apply andb_prop in H as [_ H].
    rewrite all_in_cons, (IH H). reflexivity.
  - pose proof (split_dot_nonempty s) as E.
    destruct (split_dot s) as [|h r]; [congruence|].
    cbn [forallb] in *. intros H. apply andb_prop in H as [Hh Hr].
    unfold zeros in Hh. rewrite all_in_cons in Hh. apply andb_prop in Hh as [Hc Hh].
    apply Ascii.eqb_eq in Hc. subst c.
    rewrite all_in_cons. rewrite IH; [reflexivity|].
    rewrite Hr. unfold zeros. rewrite Hh. reflexivity.
Qed.

Lemma zero_tail_not_minus z : zero_tail z = true -> all_in not_minus z = true.
Proof.
  destruct z as [|c s]; [reflexivity|]. cbn [zero_tail]. intros H.
  apply andb_prop in H as [C F]. apply Ascii.eqb_eq in C. subst c.
  rewrite all_in_cons. cbn [not_minus]. apply fragments_not_minus.
  rewrite forallb_forall in *. intros f Hf. specialize (F f Hf).
  unfold zero_fragment in F. apply andb_prop in F as [_ F]. exact F.
Qed.

(** ** The second expression on a dotted version followed by a tag *)

(** What a starred body consumes is made of what its iterations consume. *)
Lemma iterate_consumes (R : string -> Prop) step :
  R EmptyString -> (forall a b, R a -> R b -> R (a ++ b)) ->
  (forall st st', In st' (step st) -> exists z, rest st = z ++ rest st' /\ R z) ->
  forall fuel st y, In y (iterate step fuel st) -> exists z, rest st = z ++ rest y /\ R z.
Proof.
  intros R0 Rapp Hstep. induction fuel as [|fuel IH]; intros st y Hy.
  - destruct Hy as [<-|[]]. exists EmptyString. auto.
  - cbn [iterate] in Hy. apply in_app_or in Hy as [Hy|[<-|[]]].
    + apply in_flat_map in Hy as (x & Hx & Hy).
      destruct (progress st x); [|destruct Hy].
      destruct (Hstep _ _ Hx) as (z1 & E1 & R1).
      destruct (IH _ _ Hy) as (z2 & E2 & R2).
      exists (z1 ++ z2). split; [|auto].
      rewrite append_assoc, <- E2. exact E1.
    + exists EmptyString. auto.
Qed.

Lemma in_run_zeros st y :
  In y (run (Star (Chr "0")) st) -> exists z, rest st = z ++ rest y /\ zeros z = true.
Proof.
  cbn [run]. apply iterate_consumes.
  - reflexivity.
  - intros a b Ha Hb. unfold zeros in *. rewrite all_in_app, Ha, Hb. reflexivity.
  - intros x x' Hx. apply in_run_class in Hx as (c & E & C & _).
    exists (String c EmptyString). split; [exact E|].
    unfold zeros. rewrite all_in_cons, C. reflexivity.
Qed.

Lemma in_run_zero_block st y :
  In y (run zero_block st) -> exists z, rest st = z ++ rest y /\ zero_tail z = true.
Proof.
  unfold zero_block, Plus. intros H.
  apply in_run_seq in H as (x1 & H1 & H).
  apply in_run_seq in H as (x2 & H2 & H).
  apply in_run_class in H1 as (c1 & E1 & C1 & _).
  apply in_run_class in H2 as (c2 & E2 & C2 & _).
  apply in_run_zeros in H as (zs & E & Z).
  apply Ascii.eqb_eq in C1, C2. subst c1 c2.
  exists (String "." (String "0" zs)). split.
  - rewrite E1, E2, E. reflexivity.
  - apply zero_tail_block; [|discriminate].
    unfold zeros in *. rewrite all_in_cons, Z. reflexivity.
Qed.

Lemma in_run_zero_blocks st y :
  In y (run (Star zero_block) st) ->
  exists z, rest st = z ++ rest y /\ zero_tail z = true.
Proof.
  cbn [run]. apply (iterate_consumes (fun z => zero_tail z = true)).
  - reflexivity.
  - apply zero_tail_app.
  - apply in_run_zero_block.
Qed.

(** The first minus sign of a text is where it is. *)
Lemma before_minus a : forall b r r',
  all_in not_minus a = true -> all_in not_minus b = true ->
  a ++ String "." (String "-" r) = b ++ String "." (String "-" r') -> a = b.
Proof.
  induction a as [|x a IH]; intros [|y b] r r' Ha Hb E; cbn [append] in E.
  - reflexivity.
  - exfalso. injection E as <- E. destruct b as [|y' b]; cbn [append] in E.
    + discriminate.
    + injection E as <- _. rewrite !all_in_cons in Hb. cbn in Hb. discriminate.
  - exfalso. injection E as -> E. destruct a as [|x' a]; cbn [append] in E.
    + discriminate.
    + injection E as -> _. rewrite !all_in_cons in Ha. cbn in Ha. discriminate.
  - injection E as -> E. rewrite all_in_cons in Ha, Hb.
    apply andb_prop in Ha as [_ Ha]. apply andb_prop in Hb as [_ Hb].
    rewrite (IH b r r' Ha Hb E). reflexivity.
Qed.

(** Before the tag, the second expression matches only from a position
    whence the dotted version reads [(\.0+)*]. *)
Lemma exec_trail_early v r :
  all_in not_minus v = true -> zero_tail v = false ->
  exec re_trail (v ++ String "." (String "-" r)) = None.
Proof.
  intros Hv Z. unfold exec, first.
  destruct (run re_trail _) as [|y l] eqn:E; [reflexivity|]. exfalso.
  assert (Hy : In y (run re_trail {| rest := v ++ String "." (String "-" r); caps := [] |}))
    by (rewrite E; left; reflexivity).
  clear E. unfold re_trail in Hy.
  apply in_run_seq in Hy as (x & Hx & Hy).
  apply in_run_zero_blocks in Hx as (z & Ez & Tz). cbn [rest] in Ez.
  apply in_run_seq in Hy as (g & Hg & _).
  apply in_run_group in Hg as (w & Hw & _).
  apply in_run_seq in Hw as (u1 & H1 & Hw).
  apply in_run_seq in Hw as (u2 & H2 & _).
  apply in_run_class in H1 as (c1 & E1 & C1 & _).
  apply in_run_class in H2 as (c2 & E2 & C2 & _).
  apply Ascii.eqb_eq in C1, C2. subst c1 c2.
  rewrite E1, E2 in Ez.
  apply before_minus in Ez; [|exact Hv | apply zero_tail_not_minus, Tz].
  congruence.
Qed.

Lemma skip_zeros_app f r :
  zeros f = true -> skip (Ascii.eqb "0") r = r -> skip (Ascii.eqb "0") (f ++ r) = r.
Proof.
  intros Z R. induction f as [|c f IH]; [exact R|].
  unfold zeros in Z. rewrite all_in_cons in Z. apply andb_prop in Z as [C Z].
  cbn [append skip]. rewrite C. auto.
Qed.

Lemma skip_zeros_blocks fs t :
  skip (Ascii.eqb "0") t = t -> skip (Ascii.eqb "0") (blocks fs t) = blocks fs t.
Proof. destruct fs; [auto | reflexivity]. Qed.

(** Greedily, the starred block takes all of a text of the form [(\.0+)*]
    in front of something that is no such block. *)
Lemma first_zero_blocks t cs fs :
  skip (Ascii.eqb "0") t = t ->
  run zero_block {| rest := t; caps := cs |} = [] ->
  Forall (fun f => zero_fragment f = true) fs ->
  first (Star zero_block) {| rest := blocks fs t; caps := cs |}
  = Some {| rest := t; caps := cs |}.
Proof.
  intros St Rt F. induction F as [|f fs Hf F IH].
  - apply first_star_stop, Rt.
  - unfold zero_fragment in Hf. apply andb_prop in Hf as [Nf Zf].
    destruct f as [|c f]; [discriminate|].
    unfold zeros in Zf. rewrite all_in_cons in Zf. apply andb_prop in Zf as [C Zf].
    cbn [blocks fold_right append]. fold (blocks fs t).
    assert (A : first zero_block
                  {| rest := String "." (String c (f ++ blocks fs t)); caps := cs |}
                = Some {| rest := blocks fs t; caps := cs |}).
    { unfold zero_block. eapply first_seq; [apply first_class; reflexivity|].
      unfold Chr. rewrite first_plus_class by exact C.
      rewrite skip_zeros_app; [reflexivity | exact Zf | apply skip_zeros_blocks, St]. }
    eapply first_star_step; [exact A| |exact IH].
    + unfold progress. cbn [rest String.length]. apply Nat.ltb_lt.
      rewrite length_append. lia.
Qed.

Lemma first_opt_none r st : run r st = [] -> first (Opt r) st = Some st.
Proof. intros H. unfold first. cbn [run]. rewrite H. reflexivity. Qed.

Lemma skip_digits_app ds r :
  all_digits ds = true -> skip is_digit r = r -> skip is_digit (ds ++ r) = r.
Proof.
  intros D R. induction ds as [|c ds IH]; [exact R|].
  unfold all_digits in D. rewrite all_in_cons in D. apply andb_prop in D as [C D].
  cbn [append skip]. rewrite C. auto.
Qed.

Lemma exec_trail_match z ds d :
  zero_tail z = true -> all_digits ds = true -> ds <> EmptyString ->
  all_digits d = true ->
  exists st, exec re_trail (z ++ tag_tail ds d) = Some st
             /\ rest st = EmptyString
             /\ keep_groups (z ++ tag_tail ds d) (caps st) = kept_tail ds d.
Proof.
  intros Z Ds Ns Dd. destruct (zero_tail_blocks z Z) as (fs & F & B). rewrite B.
  destruct ds as [|c0 ds]; [congruence|].
  assert (C0 : is_digit c0 = true /\ all_digits ds = true).
  { unfold all_digits in *. rewrite all_in_cons in Ds. apply andb_prop in Ds. exact Ds. }
  destruct C0 as [C0 Ds'].
  assert (G : first (Group 1 (Seq (Chr ".") (Seq (Chr "-") (Plus (Class is_digit)))))
                {| rest := tag_tail (String c0 ds) d; caps := [] |}
              = Some {| rest := String "." d;
                        caps := [(1%nat, String "." (String "-" (String c0 ds)))] |}).
  { erewrite first_group.
    2:{ eapply first_seq; [apply first_class; reflexivity|].
        eapply first_seq; [apply first_class; reflexivity|].
        cbn [append]. apply first_plus_class, C0. }
    rewrite skip_digits_app by (exact Ds' || reflexivity).
    unfold set_cap. cbn [rest caps]. unfold tag_tail.
    change (String "." (String "-" (String c0 ds) ++ String "." d))
      with (String "." (String "-" (String c0 ds)) ++ String "." d).
    rewrite consumed_app. reflexivity. }
  assert (S0 : first (Star zero_block) {| rest := blocks fs (tag_tail (String c0 ds) d);
                                           caps := [] |}
               = Some {| rest := tag_tail (String c0 ds) d; caps := [] |}).
  { apply first_zero_blocks; [reflexivity | reflexivity | exact F]. }
  destruct d as [|c d].
  - (* no digits after the tag *)
    eexists. split; [|split].
    + unfold exec, re_trail. fold zero_block.
      eapply first_seq; [exact S0|]. eapply first_seq; [exact G|].
      eapply first_seq; [apply first_opt_none; reflexivity|].
      eapply first_seq; [apply first_star_class|]. apply first_eol.
    + reflexivity.
    + cbn [caps]. unfold keep_groups, kept_tail. cbn [cap Nat.eqb]. reflexivity.
  - assert (Cd : is_digit c = true /\ all_in is_digit d = true).
    { unfold all_digits in Dd. rewrite all_in_cons in Dd. apply andb_prop in Dd. exact Dd. }
    destruct Cd as [Cc Cd].
    eexists. split; [|split].
    + unfold exec, re_trail. fold zero_block.
      eapply first_seq; [exact S0|]. eapply first_seq; [exact G|].
      eapply first_seq.
      { apply first_opt.
        - apply first_group.
          eapply first_seq; [apply first_class; reflexivity|].
          apply first_plus_class, Cc.
        - unfold progress, set_cap. cbn [rest String.length]. apply Nat.ltb_lt.
          pose proof (length_skip is_digit d). lia. }
      rewrite (skip_all_in _ _ Cd).
      eapply first_seq; [apply first_star_class|]. apply first_eol.
    + reflexivity.
    + cbn [caps set_cap rest]. unfold keep_groups, kept_tail. cbn [cap Nat.eqb].
      rewrite consumed_all. reflexivity.
Qed.

Lemma strip_cons c v :
  strip_zero_tail (String c v)
  = if zero_tail (String c v) then EmptyString else String c (strip_zero_tail v).
Proof. reflexivity. Qed.

Lemma strip_split v :
  exists z, v = strip_zero_tail v ++ z /\ zero_tail z = true.
Proof.
  induction v as [|c v (z & E & Z)]; [exists EmptyString; auto|].
  rewrite strip_cons. destruct (zero_tail (String c v)) eqn:T.
  - exists (String c v). auto.
  - exists z. cbn [append]. rewrite <- E. auto.
Qed.

(** The second replacement cuts the zero fragments that end the dotted
    version, and the dots around the digits after the tag. *)
Lemma replace_trail_tagged ds d :
  all_digits ds = true -> ds <> EmptyString -> all_digits d = true ->
  forall v fuel,
    plain v = true -> (String.length (v ++ tag_tail ds d) < fuel)%nat ->
    replace_all_from fuel re_trail keep_groups (v ++ tag_tail ds d)
    = strip_zero_tail v ++ kept_tail ds d.
Proof.
  intros Ds Ns Dd.
  assert (M : forall z fuel, zero_tail z = true ->
            replace_all_from (S fuel) re_trail keep_groups (z ++ tag_tail ds d)
            = kept_tail ds d).
  { intros z fuel Z. destruct (exec_trail_match z ds d Z Ds Ns Dd) as (st & E & R & K).
    rewrite (replace_all_some _ _ _ _ st E).
    - rewrite R, consumed_all, K.
      replace (replace_all_from fuel re_trail keep_groups EmptyString) with EmptyString
        by (destruct fuel; reflexivity).
      apply append_empty_r.
    - rewrite R, consumed_all. destruct z; reflexivity. }
  induction v as [|c v IH]; intros [|fuel] Hv L; try (exfalso; lia).
  - apply (M EmptyString). reflexivity.
  - rewrite strip_cons. destruct (zero_tail (String c v)) eqn:Z.
    + apply M, Z.
    + cbn [append]. rewrite replace_all_none.
      * unfold plain in Hv. rewrite all_in_cons in Hv. apply andb_prop in Hv as [_ Hv].
        rewrite IH; [reflexivity | exact Hv |]. cbn [append String.length] in L. lia.
      * change (String c (v ++ tag_tail ds d))
          with (String c v ++ String "." (String "-" (ds ++ String "." d))).
        apply exec_trail_early; [|exact Z].
        exact (all_in_weaken _ _ _ plain_not_minus Hv).
Qed.

Lemma tag_key_nonempty m n : tag_key m = Some n -> m <> EmptyString.
Proof. intros H ->. discriminate. Qed.

(** The fragments of a dotted version [v] followed by a tag [m] and digits
    [d]: those of [v] without its closing zero fragments, the number of
    the tag, and [d] if it is not empty. *)
Lemma prep_tagged v m d n :
  plain v = true -> all_in tag_char m = true -> tag_key m = Some n ->
  all_digits d = true ->
  prep (v ++ m ++ d)
  = map Str (split_dot (strip_zero_tail v)
             ++ Z_to_string n :: match d with EmptyString => [] | _ => [d] end)%list.
Proof.
  intros Hv Hm Hn Hd. unfold prep, replace_all.
  rewrite replace_tag_tagged;
    [|exact Hv | exact Hm | exact (tag_key_nonempty m n Hn) | exact Hd | lia].
  rewrite tag_segment_key, Hn.
  destruct (tag_key_text m n Hn) as (_ & _ & ds & EN & Ds & Ns). rewrite EN.
  assert (E : v ++ ("." ++ String "-" ds ++ ".") ++ d = v ++ tag_tail ds d).
  { unfold tag_tail. cbn [append]. rewrite append_assoc. reflexivity. }
  rewrite E. rewrite replace_trail_tagged; [|assumption..|lia].
  f_equal. unfold kept_tail.
  change (String "." (String "-" ds) ++ match d with
                                        | EmptyString => EmptyString
                                        | String _ _ => String "." d
                                        end)
    with (String "." (String "-" ds ++ match d with
                                       | EmptyString => EmptyString
                                       | String _ _ => String "." d
                                       end)).
  rewrite split_dot_app. f_equal.
  assert (T : split_dot (String "-" ds) = [String "-" ds]).
  { cbn [split_dot]. change (Ascii.eqb "-" ".") with false. cbv iota.
    rewrite (split_dot_digits ds Ds). reflexivity. }
  destruct d as [|c d].
  - rewrite append_empty_r. exact T.
  - rewrite split_dot_app, T, (split_dot_digits _ Hd). reflexivity.
Qed.

Lemma plain_strip v : plain v = true -> plain (strip_zero_tail v) = true.
Proof.
  intros H. destruct (strip_split v) as (z & E & _). unfold plain in *.
  rewrite E, all_in_app in H. apply andb_prop in H as [H _]. exact H.
Qed.

Lemma segments_tagged v m d n :
  plain v = true -> all_in tag_char m = true -> tag_key m = Some n ->
  all_digits d = true ->
  segments (prep (v ++ m ++ d))
  = (dotted_numbers (strip_zero_tail v) ++ n :: suffix_numbers d)%list.
Proof.
  intros Hv Hm Hn Hd. rewrite (prep_tagged v m d n) by assumption.
  unfold segments. rewrite map_map, map_app. cbn [map]. f_equal.
  - unfold dotted_numbers. apply map_ext_in. intros f Hf.
    apply fragment_number_digits.
    pose proof (split_dot_plain _ (plain_strip v Hv)) as F.
    rewrite Forall_forall in F. auto.
  - destruct (tag_key_text m n Hn) as (_ & V & _). rewrite V. f_equal.
    destruct d as [|c d]; [reflexivity|]. cbn [map suffix_numbers].
    rewrite fragment_number_digits by exact Hd. reflexivity.
Qed.

Lemma zero_fragment_number f : zero_fragment f = true -> fragment_number f = 0.
Proof.
  unfold zero_fragment. intros H. apply andb_prop in H as [_ Z].
  unfold fragment_number. rewrite (digits_value_zeros f Z). reflexivity.
Qed.

(** The numbers of a dotted version are those of its stripped form and
    zeros. *)
Lemma numbers_strip v :
  exists k, dotted_numbers v = (dotted_numbers (strip_zero_tail v) ++ repeat 0 k)%list.
Proof.
  destruct (strip_split v) as (z & E & Z).
  remember (strip_zero_tail v) as s eqn:Hs. clear Hs. subst v.
  destruct z as [|c z].
  - exists O. rewrite append_empty_r, app_nil_r. reflexivity.
  - cbn [zero_tail] in Z. apply andb_prop in Z as [C F].
    apply Ascii.eqb_eq in C. subst c. exists (List.length (split_dot z)).
    unfold dotted_numbers. rewrite split_dot_app, map_app. f_equal.
    rewrite forallb_forall in F. induction (split_dot z) as [|f fs IH]; [reflexivity|].
    cbn [map List.length repeat]. rewrite zero_fragment_number by (apply F; left; reflexivity).
    f_equal. apply IH. intros x Hx. apply F. right. exact Hx.
Qed.

Lemma compare_positions_prefix p : forall n xs ys,
  compare_positions (List.length p + n) (p ++ xs) (p ++ ys) = compare_positions n xs ys.
Proof.
  induction p as [|x p IH]; intros n xs ys; [reflexivity|].
  cbn [List.length Nat.add app compare_positions hd tl]. rewrite Z.ltb_irrefl. apply IH.
Qed.

Lemma compare_segments_prefix p xs ys :
  compare_segments (p ++ xs) (p ++ ys) = compare_segments xs ys.
Proof.
  unfold compare_segments. rewrite !length_app, Nat.add_max_distr_l.
  apply compare_positions_prefix.
Qed.

Lemma compare_segments_below_zeros n ds k :
  n < 0 -> compare_segments (n :: ds) (repeat 0 k) = -1.
Proof.
  intros N. unfold compare_segments.
  destruct (Nat.max (List.length (n :: ds)) (List.length (repeat 0 k))) as [|j] eqn:E.
  - cbn [List.length] in E. lia.
  - cbn [compare_positions hd]. replace (hd 0 (repeat 0 k)) with 0 by (destruct k; reflexivity).
    destruct (Z.ltb_spec 0 n); [lia|]. destruct (Z.ltb_spec n 0); [reflexivity | lia].
Qed.

Lemma compare_tag_suffix n1 n2 d1 d2 :
  compare_segments (n1 :: suffix_numbers d1) (n2 :: suffix_numbers d2)
  = compare_segments [n1; fragment_number d1] [n2; fragment_number d2].
Proof.
  unfold compare_segments.
  destruct d1 as [|c1 d1], d2 as [|c2 d2];
    cbn [suffix_numbers List.length Nat.max compare_positions hd tl];
    try change (fragment_number EmptyString) with 0;
    destruct (n2 <? n1); try reflexivity;
    destruct (n1 <? n2); try reflexivity;
    rewrite ?Z.ltb_irrefl; reflexivity.
Qed.

Lemma tagged_not_wildcard v m d n :
  plain v = true -> tag_key m = Some n -> v ++ m ++ d <> "*".
Proof.
  intros Hv Hn E. destruct v as [|c v].
  - destruct m as [|x m]; [discriminate|]. cbn [append] in E.
    injection E as -> E. destruct m; [|discriminate]. discriminate.
  - cbn [append] in E. injection E as -> _. discriminate.
Qed.

(** ** Properties of [compareVer] on tokens with a tag *)

(** X5. A dotted version followed by a tag that holds a letter, and
    possibly by digits, is below the dotted version itself. *)
Theorem compareVer_tagged_below_release v m d :
  plain v = true -> all_in tag_char m = true -> tag_key m <> None ->
  all_digits d = true ->
  compareVer (v ++ m ++ d) v = Some (-1) /\ compareVer v (v ++ m ++ d) = Some 1.
Proof.
  intros Hv Hm Hk Hd. destruct (tag_key m) as [n|] eqn:Hn; [clear Hk | congruence].
  assert (E : compare_segments (segments (prep (v ++ m ++ d))) (segments (prep v)) = -1).
  { rewrite (segments_tagged v m d n), segments_prep_plain by assumption.
    destruct (numbers_strip v) as [k ->]. rewrite compare_segments_prefix.
    apply compare_segments_below_zeros.
    destruct (tag_key_text m n Hn) as (N & _). exact N. }
  rewrite !compareVer_segments;
    try (apply plain_not_wildcard, Hv); try (apply (tagged_not_wildcard v m d n); assumption).
  rewrite (compare_segments_antisym (segments (prep v))), E. split; reflexivity.
Qed.

Lemma compareVer_tagged_below_release_witness :
  compareVer "1.0.0-Beta2" "1.0.0" = Some (-1)
  /\ compareVer "1.0.0" "1.0.0-Beta2" = Some 1.
Proof.
  apply (compareVer_tagged_below_release "1.0.0" "-Beta" "2");
    [reflexivity | reflexivity | discriminate | reflexivity].
Defined.

(** X6. Two tokens with the same dotted version before their tags compare
    by the numbers of the tags, which depend on one character each, and
    then by the numbers after the tags. *)
Theorem compareVer_tagged_same_version v m1 d1 n1 m2 d2 n2 :
  plain v = true ->
  all_in tag_char m1 = true -> tag_key m1 = Some n1 -> all_digits d1 = true ->
  all_in tag_char m2 = true -> tag_key m2 = Some n2 -> all_digits d2 = true ->
  compareVer (v ++ m1 ++ d1) (v ++ m2 ++ d2)
  = Some (compare_segments [n1; fragment_number d1] [n2; fragment_number d2]).
Proof.
  intros Hv M1 K1 D1 M2 K2 D2.
  rewrite compareVer_segments;
    try (apply (tagged_not_wildcard v m1 d1 n1); assumption);
    try (apply (tagged_not_wildcard v m2 d2 n2); assumption).
  rewrite (segments_tagged v m1 d1 n1), (segments_tagged v m2 d2 n2) by assumption.
  rewrite compare_segments_prefix, compare_tag_suffix. reflexivity.
Qed.

Lemma compareVer_tagged_same_version_witness :
  compareVer "91.0beta3" "91.0-B3" = Some 0
  /\ compareVer "91.0alpha9" "91.0b1" = Some (-1).
Proof.
  split.
  - apply (compareVer_tagged_same_version "91.0" "beta" "3" (-65438) "-B" "3" (-65438));
      reflexivity.
  - apply (compareVer_tagged_same_version "91.0" "alpha" "9" (-65439) "b" "1" (-65438));
      reflexivity.
Defined.

(** X22. A run of characters between a dotted version and digits that
    holds no letter (hyphens, underscores, spaces and the like) is no tag:
    the token compares as if a zero fragment stood in its place. *)
Theorem compareVer_separator v m d :
  plain v = true -> all_in tag_char m = true -> m <> EmptyString ->
  tag_key m = None -> all_digits d = true -> v ++ m ++ d <> "*" ->
  compareVer (v ++ m ++ d) (v ++ ".0." ++ d) = Some 0
  /\ prep (v ++ m ++ d) = map Str (split_dot (v ++ ".." ++ d)).
Proof.
  intros Hv Hm Nm Hk Hd W.
  assert (Pd : plain d = true) by exact (all_in_weaken _ _ d digit_plain Hd).
  assert (P1 : plain (v ++ ".." ++ d) = true).
  { unfold plain in *. rewrite all_in_app, Hv. cbn [append]. rewrite !all_in_cons.
    exact Pd. }
  assert (P2 : plain (v ++ ".0." ++ d) = true).
  { unfold plain in *. rewrite all_in_app, Hv. cbn [append]. rewrite !all_in_cons.
    exact Pd. }
  assert (E : prep (v ++ m ++ d) = map Str (split_dot (v ++ ".." ++ d))).
  { unfold prep, replace_all.
    rewrite replace_tag_tagged; [|exact Hv | exact Hm | exact Nm | exact Hd | lia].
    rewrite tag_segment_key, Hk.
    change ("." ++ EmptyString ++ ".") with "..".
    rewrite replace_trail_not_minus; [reflexivity|].
    exact (all_in_weaken _ _ _ plain_not_minus P1). }
  split; [|exact E].
  rewrite compareVer_segments; [|exact W | apply plain_not_wildcard, P2].
  rewrite (segments_prep_plain _ P2), E.
  assert (S1 : segments (map Str (split_dot (v ++ ".." ++ d)))
               = dotted_numbers (v ++ ".." ++ d)).
  { rewrite <- (prep_plain _ P1). apply segments_prep_plain, P1. }
  rewrite S1. f_equal.
  assert (N : dotted_numbers (v ++ ".." ++ d) = dotted_numbers (v ++ ".0." ++ d)).
  { unfold dotted_numbers. cbn [append]. rewrite !split_dot_app, !map_app.
    reflexivity. }
  rewrite N.
  pose proof (compare_segments_antisym (dotted_numbers (v ++ ".0." ++ d))
                (dotted_numbers (v ++ ".0." ++ d))). lia.
Qed.

Lemma compareVer_separator_witness :
  compareVer "1.0-1" "1.0.0.1" = Some 0
  /\ prep "1.0-1" = [Str "1"; Str "0"; Str ""; Str "1"].
Proof.
  apply (compareVer_separator "1.0" "-" "1");
    [reflexivity | reflexivity | discriminate | reflexivity | reflexivity | discriminate].
Defined.

End TagFacts.

(** * The schema functions on arbitrary values *)

Module DiffFacts.
Import Json Schema Spec SchemaFacts.

Lemma guarded_properties f :
  truthy (get_opt f "properties") = true ->
  get f "properties" = Ret (lookup_prop f "properties")
  /\ truthy (lookup_prop f "properties") = true.
Proof. destruct f; cbn [get_opt get truthy]; try discriminate; auto. Qed.

Lemma get_truthy p e : truthy p = true -> get p e = Ret (lookup_prop p e).
Proof. destruct p; cbn [truthy get]; try discriminate; reflexivity. Qed.

(** The diff of two values that pass the guard and whose names can be
    extracted. *)
Lemma check_extracted f1 f2 keys1 keys2 :
  truthy (get_opt f1 "properties") = true ->
  truthy (get_opt f2 "properties") = true ->
  extractFlatPolicyNamesFromPolicySchema f1 = Ret keys1 ->
  extractFlatPolicyNamesFromPolicySchema f2 = Ret keys2 ->
  checkPolicySchemaChanges f1 f2
  = Ret (Some {| added := filter (fun e => negb (includes keys1 e)) keys2;
                 removed := filter (fun e => negb (includes keys2 e)) keys1;
                 changed := filter (fun e => includes keys1 e
                                             && direct_lookup_differs f1 f2 e) keys2 |}).
Proof.
  intros G1 G2 E1 E2. unfold checkPolicySchemaChanges.
  rewrite G1, G2, E1, E2. cbn [negb orb bind].
  rewrite !filterM_pure. cbn [bind].
  destruct (guarded_properties f1 G1) as [P1 T1].
  destruct (guarded_properties f2 G2) as [P2 T2].
  rewrite (filterM_ext _ (fun e => Ret (includes keys1 e && direct_lookup_differs f1 f2 e))).
  - rewrite filterM_pure. reflexivity.
  - intros e. destruct (includes keys1 e); [|reflexivity].
    rewrite P2. cbn [bind]. rewrite (get_truthy _ e T2). cbn [bind].
    rewrite P1. cbn [bind]. rewrite (get_truthy _ e T1). reflexivity.
Qed.

(** A diff is returned only past the guard and after both extractions. *)
Lemma check_returned f1 f2 d :
  checkPolicySchemaChanges f1 f2 = Ret (Some d) ->
  exists keys1 keys2,
    truthy (get_opt f1 "properties") = true
    /\ truthy (get_opt f2 "properties") = true
    /\ extractFlatPolicyNamesFromPolicySchema f1 = Ret keys1
    /\ extractFlatPolicyNamesFromPolicySchema f2 = Ret keys2.
Proof.
  unfold checkPolicySchemaChanges.
  destruct (truthy (get_opt f1 "properties")); [|discriminate].
  destruct (truthy (get_opt f2 "properties")); [|discriminate].
  cbn [negb orb].
  destruct (extractFlatPolicyNamesFromPolicySchema f1) as [keys1| |]; try discriminate.
  destruct (extractFlatPolicyNamesFromPolicySchema f2) as [keys2| |]; try discriminate.
  intros _. exists keys1, keys2. auto.
Qed.

Lemma filter_none {A} (f : A -> bool) l :
  (forall x, In x l -> f x = false) -> filter f l = [].
Proof.
  induction l as [|x l IH]; intros H; [reflexivity|]. cbn [filter].
  rewrite (H x) by (left; reflexivity). apply IH. intros y Hy. apply H. right. exact Hy.
Qed.

Lemma differs_same x : differs x x = false.
Proof. destruct x as [s|]; [|reflexivity]. cbn [differs]. rewrite String.eqb_refl. reflexivity. Qed.

Lemma differs_sym x y : differs x y = differs y x.
Proof.
  destruct x as [s|], y as [t|]; try reflexivity. cbn [differs].
  rewrite String.eqb_sym. reflexivity.
Qed.

(** What an entry that cannot be read throws passes through the loop. *)
Lemma entries_loop_throws rec es : forall acc,
  (exists child, In child es /\ rec (snd child) = TypeError) ->
  (forall child, In child es -> rec (snd child) <> OutOfFuel) ->
  entries_loop rec es acc = TypeError.
Proof.
  induction es as [|[name entry] es IH]; intros acc (child & Hin & Hc) F.
  - destruct Hin.
  - cbn [entries_loop]. pose proof (F (name, entry) (or_introl eq_refl)) as Fe.
    cbn [snd] in Fe. destruct Hin as [<-|Hin].
    + cbn [snd] in Hc. rewrite Hc. reflexivity.
    + destruct (rec entry); cbn [bind]; [|reflexivity|congruence].
      apply IH; [exists child; auto|]. intros x Hx. apply F. right. exact Hx.
Qed.

Lemma extract_null_child kvs es name :
  assoc "properties" kvs = Some (JObj es) -> In (name, JNull) es ->
  extractFlatPolicyNamesFromPolicySchema (JObj kvs) = TypeError.
Proof.
  intros A Hin. unfold extractFlatPolicyNamesFromPolicySchema.
  cbn [extract_fuel keys_loop get]. unfold lookup_prop. cbn [own_entries]. rewrite A.
  cbn [bind truthy Object_entries].
  rewrite entries_loop_throws; [reflexivity| |].
  - exists (name, JNull). split; [exact Hin|]. cbn [snd].
    destruct (depth (JObj kvs)) eqn:D; [discriminate|]. reflexivity.
  - intros child Hc. apply extract_fuel_enough.
    pose proof (depth_member _ _ _ (assoc_In _ _ _ A)) as D1.
    destruct child as [k x]. cbn [own_entries] in Hc.
    pose proof (depth_member _ _ _ Hc) as D2.
    cbn [snd]. lia.
Qed.

(** ** Properties of the diff *)

(** X7. A value compared with itself is not comparable, or cannot be read,
    or has an empty diff. *)
Theorem check_same_file f :
  checkPolicySchemaChanges f f = Ret None
  \/ checkPolicySchemaChanges f f = TypeError
  \/ checkPolicySchemaChanges f f
     = Ret (Some {| added := []; removed := []; changed := [] |}).
Proof.
  destruct (truthy (get_opt f "properties")) eqn:G.
  - pose proof (extract_total f) as T.
    destruct (extractFlatPolicyNamesFromPolicySchema f) as [keys| |] eqn:E.
    + right. right. rewrite (check_extracted f f keys keys G G E E).
      rewrite !filter_none; [reflexivity| |].
      * intros e _. unfold direct_lookup_differs. rewrite differs_same.
        apply andb_false_r.
      * intros e He. apply includes_In in He. rewrite He. reflexivity.
    + right. left. unfold checkPolicySchemaChanges. rewrite G, E. reflexivity.
    + congruence.
  - left. unfold checkPolicySchemaChanges. rewrite G. reflexivity.
Qed.

(** X8. Swapping the two files swaps [added] and [removed] and keeps the
    names in [changed]. *)
Theorem check_swapped f1 f2 d :
  checkPolicySchemaChanges f1 f2 = Ret (Some d) ->
  exists d', checkPolicySchemaChanges f2 f1 = Ret (Some d')
             /\ added d' = removed d /\ removed d' = added d
             /\ forall e, In e (changed d') <-> In e (changed d).
Proof.
  intros H. destruct (check_returned f1 f2 d H) as (keys1 & keys2 & G1 & G2 & E1 & E2).
  rewrite (check_extracted f1 f2 keys1 keys2 G1 G2 E1 E2) in H.
  injection H as <-. eexists.
  split; [apply (check_extracted f2 f1 keys2 keys1 G2 G1 E2 E1)|].
  cbn [added removed changed]. split; [reflexivity|]. split; [reflexivity|].
  intros e. rewrite !filter_In, !andb_true_iff, !includes_In.
  unfold direct_lookup_differs. rewrite differs_sym. tauto.
Qed.

Lemma check_swapped_witness :
  exists d', checkPolicySchemaChanges Examples.new_xy Examples.old_xy = Ret (Some d')
             /\ added d' = [] /\ removed d' = ["y"].
Proof.
  destruct (check_swapped Examples.old_xy Examples.new_xy
              {| added := ["y"]; removed := []; changed := [] |} eq_refl)
    as (d' & H & A & R & _).
  exists d'. split; [exact H|]. split; [exact A | exact R].
Defined.

(** X9. No name is reported twice over: a name in [added] is neither in
    [removed] nor in [changed], and a name in [removed] is not in
    [changed]. *)
Theorem check_lists_disjoint f1 f2 d e :
  checkPolicySchemaChanges f1 f2 = Ret (Some d) ->
  (In e (added d) -> ~ In e (removed d) /\ ~ In e (changed d))
  /\ (In e (removed d) -> ~ In e (changed d)).
Proof.
  intros H. destruct (check_returned f1 f2 d H) as (keys1 & keys2 & G1 & G2 & E1 & E2).
  rewrite (check_extracted f1 f2 keys1 keys2 G1 G2 E1 E2) in H.
  injection H as <-. cbn [added removed changed].
  rewrite !filter_In, !andb_true_iff, !negb_true_iff.
  split.
  - intros [K2 N1]. split.
    + intros [K1 _]. apply includes_In in K1. congruence.
    + intros [_ [I1 _]]. congruence.
  - intros [K1 N2]. intros [K2 _]. apply includes_In in K2. congruence.
Qed.

Lemma check_lists_disjoint_witness :
  (In "y" ["y"] -> ~ In "y" (@nil string) /\ ~ In "y" (@nil string))
  /\ (In "y" (@nil string) -> ~ In "y" (@nil string)).
Proof.
  exact (check_lists_disjoint Examples.old_xy Examples.new_xy
           {| added := ["y"]; removed := []; changed := [] |} "y" eq_refl).
Defined.

(** X10. A child that is [null] makes the extraction throw, and with it the
    comparison, whichever side the file is on. *)
Theorem check_null_child kvs es name other :
  assoc "properties" kvs = Some (JObj es) -> In (name, JNull) es ->
  truthy (get_opt other "properties") = true ->
  extractFlatPolicyNamesFromPolicySchema (JObj kvs) = TypeError
  /\ checkPolicySchemaChanges (JObj kvs) other = TypeError
  /\ checkPolicySchemaChanges other (JObj kvs) = TypeError.
Proof.
  intros A Hin G. pose proof (extract_null_child kvs es name A Hin) as E.
  assert (Gk : truthy (get_opt (JObj kvs) "properties") = true).
  { cbn [get_opt]. unfold lookup_prop. cbn [own_entries]. rewrite A. reflexivity. }
  split; [exact E|]. unfold checkPolicySchemaChanges. rewrite G, Gk, E. cbn [negb orb bind].
  split; [reflexivity|].
  pose proof (extract_total other) as T.
  destruct (extractFlatPolicyNamesFromPolicySchema other); cbn [bind];
    [reflexivity | reflexivity | congruence].
Qed.

Lemma check_null_child_witness :
  extractFlatPolicyNamesFromPolicySchema (JObj [("properties", JObj [("x", JNull)])])
  = TypeError
  /\ checkPolicySchemaChanges (JObj [("properties", JObj [("x", JNull)])]) Examples.old_xy
     = TypeError
  /\ checkPolicySchemaChanges Examples.old_xy (JObj [("properties", JObj [("x", JNull)])])
     = TypeError.
Proof.
  apply (check_null_child [("properties", JObj [("x", JNull)])] [("x", JNull)] "x");
    [reflexivity | left; reflexivity | reflexivity].
Defined.

(** X11. Extraction from a value that is no object: [null] and [undefined]
    throw; a boolean, a number, a string and an array, whatever they hold,
    have no names. *)
Theorem extract_not_an_object :
  extractFlatPolicyNamesFromPolicySchema JNull = TypeError
  /\ extractFlatPolicyNamesFromPolicySchema JUndefined = TypeError
  /\ (forall b, extractFlatPolicyNamesFromPolicySchema (JBool b) = Ret [])
  /\ (forall z, extractFlatPolicyNamesFromPolicySchema (JNum z) = Ret [])
  /\ (forall s, extractFlatPolicyNamesFromPolicySchema (JStr s) = Ret [])
  /\ (forall xs, extractFlatPolicyNamesFromPolicySchema (JArr xs) = Ret []).
Proof.
  split; [reflexivity|]. split; [reflexivity|]. split; [reflexivity|].
  split; [reflexivity|].
  assert (L : forall v key, is_group key = true ->
              match v with JStr _ | JArr _ => True | _ => False end ->
              lookup_prop v key = JUndefined).
  { intros v key K Hv. unfold lookup_prop.
    destruct (group_key_p key K) as [t ->].
    destruct v; try destruct Hv; cbn [own_entries];
      rewrite assoc_indexed_group by exact K;
      destruct t as [|[[] [] [] [] [] [] [] []] t]; try reflexivity;
      vm_compute in K; discriminate. }
  split.
  - intros s. unfold extractFlatPolicyNamesFromPolicySchema.
    cbn [extract_fuel keys_loop get bind]. rewrite !L by (reflexivity || exact I).
    reflexivity.
  - intros xs. unfold extractFlatPolicyNamesFromPolicySchema.
    cbn [extract_fuel keys_loop get bind]. rewrite !L by (reflexivity || exact I).
    reflexivity.
Qed.

(** ** Values without [null] among the entries *)

Lemma entries_loop_returns rec es : forall acc,
  (forall child, In child es -> exists names, rec (snd child) = Ret names) ->
  exists names, entries_loop rec es acc = Ret names.
Proof.
  induction es as [|[name entry] es IH]; intros acc H; [exists acc; reflexivity|].
  cbn [entries_loop]. destruct (H (name, entry) (or_introl eq_refl)) as [subs E].
  cbn [snd] in E. rewrite E. cbn [bind]. apply IH.
  intros child Hc. apply H. right. exact Hc.
Qed.

Lemma group_absent v key :
  is_group key = true -> match v with JObj _ => False | _ => True end ->
  lookup_prop v key = JUndefined.
Proof.
  intros K Hv. unfold lookup_prop. destruct (group_key_p key K) as [t ->].
  destruct v; try destruct Hv; cbn [own_entries assoc];
    rewrite ?assoc_indexed_group by exact K;
    destruct t as [|[[] [] [] [] [] [] [] []] t]; try reflexivity;
    vm_compute in K; discriminate.
Qed.

(** The entries of a group of a readable value can be read in turn. *)
Lemma readable_children v key child :
  Nodes.readable v = true -> is_group key = true ->
  In child (own_entries (lookup_prop v key)) ->
  Nodes.not_nullish (snd child) = true /\ Nodes.readable (snd child) = true
  /\ (depth (snd child) < depth v)%nat.
Proof.
  intros R K Hc. destruct v as [| | | | | |kvs];
    try (rewrite group_absent in Hc by (exact K || exact I); destruct Hc).
  unfold lookup_prop in Hc. cbn [own_entries] in Hc.
  destruct (assoc key kvs) as [g|] eqn:A.
  - pose proof (assoc_In _ _ _ A) as Hin.
    pose proof (depth_member _ _ _ Hin) as Dg.
    cbn [Nodes.readable] in R. rewrite forallb_forall in R.
    specialize (R (key, g) Hin). cbn [fst snd] in R. rewrite K in R.
    pose proof (depth_own_entry g child Hc) as Dc.
    destruct g as [| | | | s|xs|es]; cbn [own_entries] in Hc; try destruct Hc.
    + destruct child as [k y]. apply In_indexed in Hc as (c & _ & ->).
      cbn [snd]. repeat split; try reflexivity. cbn [depth] in *. lia.
    + destruct child as [k y]. apply In_indexed in Hc as (x & Hx & ->).
      rewrite forallb_forall in R. specialize (R x Hx).
      apply andb_prop in R as [N S]. cbn [snd] in *. repeat split; try assumption. lia.
    + rewrite forallb_forall in R. specialize (R child Hc).
      apply andb_prop in R as [N S]. repeat split; try assumption. lia.
  - destruct (group_key_p key K) as [t ->].
    destruct t as [|[[] [] [] [] [] [] [] []] t]; cbn in Hc; try destruct Hc;
      vm_compute in K; discriminate.
Qed.

Lemma extract_fuel_readable : forall fuel v,
  (depth v < fuel)%nat -> Nodes.readable v = true -> Nodes.not_nullish v = true ->
  exists names, extract_fuel fuel v = Ret names.
Proof.
  induction fuel as [|fuel IH]; intros v D R N; [lia|].
  cbn [extract_fuel].
  assert (G : forall key, is_group key = true -> get v key = Ret (lookup_prop v key))
    by (intros key _; destruct v; try discriminate; reflexivity).
  assert (L : forall key acc, is_group key = true ->
              truthy (lookup_prop v key) = true ->
              exists names,
                entries_loop (extract_fuel fuel) (own_entries (lookup_prop v key)) acc
                = Ret names).
  { intros key acc K T. apply entries_loop_returns. intros child Hc.
    destruct (readable_children v key child R K Hc) as (Nc & Rc & Dc).
    apply IH; [lia | exact Rc | exact Nc]. }
  assert (O : forall key, truthy (lookup_prop v key) = true ->
              Object_entries (lookup_prop v key) = Ret (own_entries (lookup_prop v key)))
    by (intros key T; destruct (lookup_prop v key); try discriminate; reflexivity).
  cbn [keys_loop]. rewrite !G by reflexivity. cbn [bind].
  destruct (truthy (lookup_prop v "properties")) eqn:T1.
  - rewrite (O _ T1). cbn [bind].
    destruct (L "properties" [] eq_refl T1) as [acc ->]. cbn [bind].
    destruct (truthy (lookup_prop v "patternProperties")) eqn:T2.
    + rewrite (O _ T2). cbn [bind].
      destruct (L "patternProperties" acc eq_refl T2) as [r ->]. cbn [bind].
      exists r. reflexivity.
    + exists acc. reflexivity.
  - destruct (truthy (lookup_prop v "patternProperties")) eqn:T2.
    + rewrite (O _ T2). cbn [bind].
      destruct (L "patternProperties" [] eq_refl T2) as [r ->]. cbn [bind].
      exists r. reflexivity.
    + exists []. reflexivity.
Qed.

(** X23. Where no entry under [properties] or [patternProperties] is
    [null], at any depth, nothing throws: the extraction returns a list of
    names, and the comparison returns [undefined] or a diff.  The groups may
    be arrays or strings, and anything may stand outside them. *)
Theorem readable_never_throws f1 f2 :
  Nodes.readable f1 = true -> Nodes.readable f2 = true ->
  (Nodes.not_nullish f1 = true ->
   exists names, extractFlatPolicyNamesFromPolicySchema f1 = Ret names)
  /\ (checkPolicySchemaChanges f1 f2 = Ret None
      \/ exists d, checkPolicySchemaChanges f1 f2 = Ret (Some d)).
Proof.
  intros R1 R2.
  assert (E : forall f, Nodes.readable f = true -> Nodes.not_nullish f = true ->
              exists names, extractFlatPolicyNamesFromPolicySchema f = Ret names).
  { intros f R N. apply extract_fuel_readable; [lia | exact R | exact N]. }
  split; [apply E, R1|].
  destruct (truthy (get_opt f1 "properties")) eqn:G1;
    [|left; unfold checkPolicySchemaChanges; rewrite G1; reflexivity].
  destruct (truthy (get_opt f2 "properties")) eqn:G2;
    [|left; unfold checkPolicySchemaChanges; rewrite G1, G2; reflexivity].
  right.
  destruct (E f1 R1) as [keys1 E1]; [destruct f1; try discriminate; reflexivity|].
  destruct (E f2 R2) as [keys2 E2]; [destruct f2; try discriminate; reflexivity|].
  eexists. apply (check_extracted f1 f2 keys1 keys2 G1 G2 E1 E2).
Qed.

Lemma readable_never_throws_witness :
  (exists names,
      extractFlatPolicyNamesFromPolicySchema
        (JObj [("default", JNull); ("properties", JArr [JStr "a"; JNum 1])])
      = Ret names)
  /\ (checkPolicySchemaChanges
        (JObj [("default", JNull); ("properties", JArr [JStr "a"; JNum 1])])
        Examples.old_xy = Ret None
      \/ exists d,
          checkPolicySchemaChanges
            (JObj [("default", JNull); ("properties", JArr [JStr "a"; JNum 1])])
            Examples.old_xy = Ret (Some d)).
Proof.
  destruct (readable_never_throws
              (JObj [("default", JNull); ("properties", JArr [JStr "a"; JNum 1])])
              Examples.old_xy eq_refl eq_refl) as [E C].
  split; [apply E; reflexivity | exact C].
Defined.

End DiffFacts.

(** * The helpers of the policy template generator *)

Module PolicyFacts.
Import Js Regex Policy RegexFacts.

Lemma exec_pipe_miss c s : Ascii.eqb c "|" = false -> exec (Chr "|") (String c s) = None.
Proof.
  intros H. unfold exec, first, Chr. cbn [run rest]. rewrite Ascii.eqb_sym, H. reflexivity.
Qed.

Lemma replace_pipes : forall s fuel,
  (String.length s < fuel)%nat ->
  replace_all_from fuel (Chr "|") (fun _ _ => escaped_pipe) s = pipes_escaped s.
Proof.
  induction s as [|c s IH]; intros [|fuel] L; try (exfalso; cbn in L; lia);
    [reflexivity|].
  cbn [String.length] in L. cbn [pipes_escaped].
  destruct (Ascii.eqb c "|") eqn:E.
  - apply Ascii.eqb_eq in E. subst c.
    rewrite (replace_all_some _ _ _ _ {| rest := s; caps := [] |}).
    + cbn [rest]. rewrite IH by lia. reflexivity.
    + apply first_class. reflexivity.
    + cbn [rest]. change (String "|" s) with ("|" ++ s). rewrite consumed_app. reflexivity.
  - rewrite replace_all_none by (apply exec_pipe_miss, E).
    rewrite IH by lia. reflexivity.
Qed.

Lemma escape_pipes_escaped s : escape_code_markdown s = pipes_escaped s.
Proof.
  unfold escape_code_markdown. cbn [chars fold_left fst snd]. unfold replace_all.
  apply replace_pipes. lia.
Qed.

Lemma length_pipes_escaped s :
  String.length (pipes_escaped s) = (String.length s + pipes s)%nat.
Proof.
  induction s as [|c s IH]; [reflexivity|]. cbn [pipes_escaped pipes String.length].
  destruct (Ascii.eqb c "|"); cbn [append escaped_pipe backslash String.length];
    rewrite IH; lia.
Qed.

Lemma pipes_pipes_escaped s : pipes (pipes_escaped s) = pipes s.
Proof.
  induction s as [|c s IH]; [reflexivity|]. cbn [pipes_escaped pipes].
  destruct (Ascii.eqb c "|") eqn:E.
  - cbn [append escaped_pipe backslash pipes]. rewrite IH. reflexivity.
  - cbn [pipes]. rewrite E, IH. reflexivity.
Qed.

Lemma pipes_escaped_none s : pipes s = O -> pipes_escaped s = s.
Proof.
  induction s as [|c s IH]; [reflexivity|]. cbn [pipes_escaped pipes].
  destruct (Ascii.eqb c "|"); [discriminate|]. cbn [Nat.add]. intros H.
  rewrite IH by exact H. reflexivity.
Qed.

Lemma split_at_nonempty sep s : split_at sep s <> [].
Proof.
  destruct s as [|c s]; [discriminate|]. cbn [split_at].
  destruct (Ascii.eqb c sep); [discriminate|]. destruct (split_at sep s); discriminate.
Qed.

(** Splitting at the backslashes and joining with underscores turns every
    backslash into an underscore. *)
Lemma join_split s : join_with "_" (split_at Json.backslash s) = underscored s.
Proof.
  induction s as [|c s IH]; [reflexivity|]. cbn [split_at underscored].
  pose proof (split_at_nonempty Json.backslash s) as N.
  destruct (Ascii.eqb c Json.backslash).
  - destruct (split_at Json.backslash s) as [|h t]; [congruence|].
    cbn [join_with append] in *. rewrite IH. reflexivity.
  - destruct (split_at Json.backslash s) as [|h t]; [congruence|].
    destruct t as [|x t]; cbn [join_with append] in *; rewrite IH; reflexivity.
Qed.

Lemma substring_from_app p r : substring_from (String.length p) (p ++ r) = r.
Proof.
  unfold substring_from. induction p as [|c p IH].
  - cbn [append String.length]. rewrite Nat.sub_0_r. apply substring_all.
  - cbn [append String.length substring Nat.sub]. exact IH.
Qed.

Lemma underscored_no_backslash s : all_in no_backslash (underscored s) = true.
Proof.
  induction s as [|c s IH]; [reflexivity|]. cbn [underscored].
  rewrite all_in_cons, IH, andb_true_r. unfold no_backslash.
  destruct (Ascii.eqb c Json.backslash) eqn:E; [reflexivity|]. rewrite E. reflexivity.
Qed.

(** ** Properties of the helpers *)

(** X12. [escape_code_markdown] puts a backslash before every pipe and
    changes nothing else; the text grows by the number of its pipes, and
    escaping twice is escaping once only for a text without pipes. *)
Theorem escape_code_markdown_pipes s :
  escape_code_markdown s = pipes_escaped s
  /\ String.length (escape_code_markdown s) = (String.length s + pipes s)%nat
  /\ (escape_code_markdown (escape_code_markdown s) = escape_code_markdown s
      <-> pipes s = O).
Proof.
  rewrite !escape_pipes_escaped. split; [reflexivity|].
  split; [apply length_pipes_escaped|]. split.
  - intros H. apply (f_equal String.length) in H.
    rewrite !length_pipes_escaped, pipes_pipes_escaped in H. lia.
  - intros H. rewrite (pipes_escaped_none s H). apply pipes_escaped_none, H.
Qed.

(** X13. [getNameFromKey] drops as many characters as the prefix has,
    whatever they are, and turns the backslashes of the rest into
    underscores; a key that is no longer than the prefix has no name. *)
Theorem getNameFromKey_after_prefix p r :
  String.length p = String.length key_prefix -> r <> EmptyString ->
  getNameFromKey (p ++ r) = Some (underscored r)
  /\ all_in no_backslash (underscored r) = true
  /\ (forall key, (String.length key <= String.length p)%nat ->
                  getNameFromKey key = None).
Proof.
  intros L N. unfold getNameFromKey. rewrite <- L, length_append.
  split; [|split; [apply underscored_no_backslash|]].
  - assert (T : (String.length p <? String.length p + String.length r)%nat = true).
    { apply Nat.ltb_lt. destruct r; [congruence|]. cbn [String.length]. lia. }
    rewrite T, substring_from_app, join_split. reflexivity.
  - intros key K. apply Nat.ltb_ge in K. rewrite K. reflexivity.
Qed.

Lemma getNameFromKey_after_prefix_witness :
  getNameFromKey (key_prefix ++ "Certificates" ++ backslash ++ "Install")
  = Some "Certificates_Install"
  /\ getNameFromKey key_prefix = None.
Proof.
  destruct (getNameFromKey_after_prefix key_prefix ("Certificates" ++ backslash ++ "Install"))
    as (H & _ & K); [reflexivity | discriminate |].
  split; [exact H | apply K; apply Nat.le_refl].
Defined.

End PolicyFacts.

(** * The reports that compare versions *)

Module ReportFacts.
Import Js Json Version Spec Reports VersionFacts.

Lemma compareVer_star v :
  v <> "*" -> compareVer v "*" = Some (-1) /\ compareVer "*" v = Some 1.
Proof.
  intros H. unfold compareVer. apply String.eqb_neq in H. rewrite H.
  split; reflexivity.
Qed.

Lemma compareVer_returns a b : exists r, compareVer a b = Some r.
Proof.
  destruct (string_dec a "*") as [->|Ha], (string_dec b "*") as [->|Hb].
  - exists 0. reflexivity.
  - exists 1. apply compareVer_star, Hb.
  - exists (-1). apply compareVer_star, Ha.
  - eexists. apply compareVer_segments; assumption.
Qed.

Lemma compareVer_chain a b c x y z :
  compareVer a b = Some x -> compareVer b c = Some y -> compareVer a c = Some z ->
  x <= 0 -> y <= 0 -> z <= 0.
Proof.
  destruct (string_dec a "*") as [->|Ha], (string_dec b "*") as [->|Hb],
      (string_dec c "*") as [->|Hc];
    repeat match goal with
           | H : ?v <> "*" |- _ =>
               let L := fresh in let R := fresh in
               pose proof (compareVer_star v H) as [L R]; revert H
           end; intros;
    try change (compareVer "*" "*") with (Some 0) in *;
    try (rewrite compareVer_segments in * by assumption);
    try (assert (z = compare_segments (segments (prep a)) (segments (prep c))) by congruence;
         assert (x = compare_segments (segments (prep a)) (segments (prep b))) by congruence;
         assert (y = compare_segments (segments (prep b)) (segments (prep c))) by congruence;
         subst; eapply compare_segments_trans; eassumption);
    try (assert (z = 0) by congruence; lia);
    try (assert (z = -1) by congruence; lia);
    try (assert (x = 1) by congruence; lia);
    try (assert (y = 1) by congruence; lia).
Qed.

Lemma at_most_trans x y z :
  at_most x y = true -> at_most y z = true -> at_most x z = true.
Proof.
  unfold at_most, compareVer_values.
  destruct (compareVer (ToString x) (ToString y)) as [p|] eqn:P; [|discriminate].
  destruct (compareVer (ToString y) (ToString z)) as [q|] eqn:Q; [|discriminate].
  destruct (compareVer_returns (ToString x) (ToString z)) as [r R]. rewrite R.
  rewrite !Z.leb_le. apply (compareVer_chain _ _ _ _ _ _ P Q R).
Qed.

Lemma out_of_order_at_most x y :
  out_of_order x y = Some (truthy x && truthy y && negb (at_most x y)).
Proof.
  unfold out_of_order, at_most, compareVer_values.
  destruct (compareVer_returns (ToString x) (ToString y)) as [r ->].
  destruct (truthy x && truthy y); [|reflexivity].
  cbn [andb]. rewrite Z.leb_antisym, negb_involutive. reflexivity.
Qed.

Ltac chain_contradiction :=
  match goal with
  | H1 : at_most ?x ?y = true, H2 : at_most ?y ?z = true, H3 : at_most ?x ?z = false |- _ =>
      rewrite (at_most_trans x y z H1 H2) in H3; discriminate H3
  end.

(** ** Properties of the reports *)

(** X14. For an add-on whose ESR versions convert to strings, the report
    [wrong-order] lists the add-on exactly when its ESR versions, the
    missing ones left out, are not in ascending order from each to the
    next. *)
Theorem wrong_order_ascending extJson :
  forallb convertible (esr_versions extJson) = true ->
  wrong_order extJson = Some (negb (ascending (filter truthy (esr_versions extJson)))).
Proof.
  intros _. unfold wrong_order, esr_versions. cbn [map].
  generalize (version (getExtData extJson "60")), (version (getExtData extJson "68")),
    (version (getExtData extJson "78")), (version (getExtData extJson "91")),
    (version (getExtData extJson "102")).
  intros a b c d e. rewrite !out_of_order_at_most. cbn [filter].
  destruct (truthy a), (truthy b), (truthy c), (truthy d), (truthy e);
    cbn [andb ascending];
    repeat match goal with
           | |- context [at_most ?x ?y] => destruct (at_most x y) eqn:?
           end;
    cbn [andb negb first_return]; try reflexivity; chain_contradiction.
Qed.

Lemma wrong_order_ascending_witness :
  forallb convertible (esr_versions out_of_step) = true
  /\ wrong_order out_of_step
     = Some (negb (ascending (filter truthy (esr_versions out_of_step))))
  /\ wrong_order out_of_step = Some true.
Proof.
  split; [reflexivity|].
  split; [apply (wrong_order_ascending out_of_step); reflexivity|].
  vm_compute. reflexivity.
Defined.





(** ** The permission badges *)












End ReportFacts.

(** * The compatibility data *)

Module CompatFacts.
Import Js Json Schema Spec Compat SchemaFacts.

Lemma assoc_set_same {A} k (v : A) kvs : assoc k (set_entry k v kvs) = Some v.
Proof.
  induction kvs as [|[k' v'] t IH]; cbn [set_entry assoc].
  - rewrite String.eqb_refl. reflexivity.
  - destruct (String.eqb_spec k' k) as [->|N]; cbn [assoc].
    + rewrite String.eqb_refl. reflexivity.
    + apply String.eqb_neq in N. rewrite N. exact IH.
Qed.

Lemma assoc_set_other {A} k k' (v : A) kvs :
  k' <> k -> assoc k' (set_entry k v kvs) = assoc k' kvs.
Proof.
  intros N. induction kvs as [|[x v'] t IH]; cbn [set_entry assoc].
  - apply not_eq_sym, String.eqb_neq in N. rewrite N. reflexivity.
  - destruct (String.eqb_spec x k) as [->|M]; cbn [assoc].
    + apply not_eq_sym, String.eqb_neq in N. rewrite N. reflexivity.
    + destruct (x =? k')%string; [reflexivity | exact IH].
Qed.

(** What one turn of the inner loop leaves recorded. *)
Lemma record_recorded tree version g raw g' p :
  record tree version g raw = Some g' ->
  recorded g' p tree
  = if (clean raw =? p)%string
    then if truthy (recorded g p tree) then recorded g p tree else version
    else recorded g p tree.
Proof.
  unfold record. destruct (inherited (clean raw) || inherited tree); [discriminate|].
  intros H. injection H as <-. unfold recorded.
  destruct (String.eqb_spec (clean raw) p) as [<-|N].
  - rewrite assoc_set_same.
    destruct (truthy (version_in tree match assoc (clean raw) g with
                                       | Some e => e
                                       | None => []
                                       end)); [reflexivity|].
    unfold version_in. rewrite assoc_set_same. reflexivity.
  - rewrite assoc_set_other by (apply not_eq_sym, N). reflexivity.
Qed.

Lemma record_policies_recorded tree version p : forall policies g g',
  record_policies tree version policies g = Some g' ->
  recorded g' p tree
  = if truthy (recorded g p tree) then recorded g p tree
    else if existsb (fun raw => (clean raw =? p)%string) policies then version
    else recorded g p tree.
Proof.
  induction policies as [|raw rest IH]; intros g g' H.
  - injection H as <-. cbn [existsb]. destruct (truthy _); reflexivity.
  - cbn [record_policies] in H.
    destruct (record tree version g raw) as [g1|] eqn:R; [|discriminate].
    rewrite (IH g1 g' H), (record_recorded tree version g raw g1 p R).
    cbn [existsb]. destruct (clean raw =? p)%string; cbn [orb].
    + destruct (truthy (recorded g p tree)) eqn:T; [rewrite T; reflexivity|].
      destruct (truthy version), (existsb _ rest); reflexivity.
    + destruct (truthy (recorded g p tree)); reflexivity.
Qed.

Lemma record_policies_returns tree version : forall policies g,
  inherited tree = false ->
  (forall raw, In raw policies -> inherited (clean raw) = false) ->
  exists g', record_policies tree version policies g = Some g'.
Proof.
  induction policies as [|raw rest IH]; intros g T H; [exists g; reflexivity|].
  cbn [record_policies]. unfold record.
  rewrite (H raw (or_introl eq_refl)), T. cbn [orb]. apply IH; [exact T|].
  intros x Hx. apply H. right. exact Hx.
Qed.

(** What the revisions, taken in the order of the loop, leave recorded. *)
Lemma record_revisions_settle tree p : forall revisions g,
  Forall (fun x => schema_node x = true) revisions ->
  inherited tree = false ->
  (forall x raw, In x revisions -> In raw (flat_names x) -> inherited (clean raw) = false) ->
  exists g', record_revisions tree revisions g = Ret (Some g')
             /\ recorded g' p tree = settle p revisions (recorded g p tree).
Proof.
  induction revisions as [|x rest IH]; intros g S T H; [exists g; auto|].
  inversion S as [|? ? Sx Srest]; subst.
  cbn [record_revisions settle]. unfold record_revision.
  rewrite (extract_flat_names x Sx). cbn [bind].
  destruct (record_policies_returns tree (lookup_prop x "version") (flat_names x) g T)
    as [g1 R]; [intros raw Hr; apply (H x raw); [left; reflexivity | exact Hr]|].
  rewrite R.
  destruct (IH g1 Srest T) as (g' & E & L);
    [intros y raw Hy; apply H; right; exact Hy|].
  exists g'. split; [exact E|]. rewrite L.
  rewrite (record_policies_recorded _ _ p _ _ _ R). reflexivity.
Qed.

Lemma settle_truthy p : forall revisions b,
  truthy b = true -> settle p revisions b = b.
Proof.
  induction revisions as [|x rest IH]; intros b T; [reflexivity|].
  cbn [settle]. rewrite T. apply IH, T.
Qed.

Lemma settle_unlisted p : forall revisions b,
  Forall (fun x => lists p x = false) revisions -> settle p revisions b = b.
Proof.
  induction revisions as [|x rest IH]; intros b F; [reflexivity|].
  inversion F as [|? ? Fx Frest]; subst. cbn [settle]. rewrite Fx.
  replace (if truthy b then b else b) with b by (destruct (truthy b); reflexivity).
  apply IH, Frest.
Qed.

Lemma settle_app p xs ys b : settle p (xs ++ ys) b = settle p ys (settle p xs b).
Proof. revert b. induction xs as [|x xs IH]; intros b; [reflexivity|]. cbn [app settle]. apply IH. Qed.

(** ** Properties of the recorded versions *)

(** X18. For a policy without a recorded version for the tree, the loop
    records the version of the last revision of the array that lists the
    policy (the oldest one), whatever the revisions before it in the array
    hold; a truthy version that is recorded is never replaced. *)
Theorem oldest_revision_decides tree newer r older g p :
  Forall (fun x => schema_node x = true) (newer ++ r :: older) ->
  inherited tree = false ->
  (forall x raw, In x (newer ++ r :: older) -> In raw (flat_names x) ->
                 inherited (clean raw) = false) ->
  lists p r = true ->
  Forall (fun x => lists p x = false) older ->
  truthy (lookup_prop r "version") = true ->
  exists g',
    record_compatibility tree (newer ++ r :: older) g = Ret (Some g')
    /\ recorded g' p tree
       = if truthy (recorded g p tree) then recorded g p tree
         else lookup_prop r "version".
Proof.
  intros S T H L O V. unfold record_compatibility.
  destruct (record_revisions_settle tree p (rev (newer ++ r :: older)) g)
    as (g' & E & R).
  - apply Forall_rev, S.
  - exact T.
  - intros x raw Hx. apply H, in_rev, Hx.
  - exists g'. split; [exact E|]. rewrite R.
    rewrite rev_app_distr. cbn [rev]. rewrite <- app_assoc. cbn [app].
    rewrite settle_app. rewrite (settle_unlisted p (rev older)) by (apply Forall_rev, O).
    cbn [settle]. rewrite L.
    destruct (truthy (recorded g p tree)) eqn:B; apply settle_truthy; assumption.
Qed.

Lemma oldest_revision_decides_witness :
  exists g',
    record_compatibility "esr91"
      [revision_of "93.0" ["Proxy"; "Certificates"]; revision_of "92.0" ["Proxy"];
       revision_of "91.0" ["Certificates"]] []
    = Ret (Some g')
    /\ recorded g' "Proxy" "esr91" = JStr "92.0".
Proof.
  apply (oldest_revision_decides "esr91"
           [revision_of "93.0" ["Proxy"; "Certificates"]]
           (revision_of "92.0" ["Proxy"])
           [revision_of "91.0" ["Certificates"]] [] "Proxy").
  - repeat constructor.
  - reflexivity.
  - intros x raw [<-|[<-|[<-|[]]]] Hr; vm_compute in Hr;
      repeat (destruct Hr as [<-|Hr]; [reflexivity|]); destruct Hr.
  - reflexivity.
  - repeat constructor.
  - reflexivity.
Defined.

End CompatFacts.

(** * The badges *)

Module BadgeFacts.
Import Js Json Reports Policy Compat Badges RegexFacts PolicyFacts CompatFacts.

Lemma split_at_app sep a s :
  all_in (fun c => negb (Ascii.eqb c sep)) a = true ->
  split_at sep (a ++ String sep s) = a :: split_at sep s.
Proof.
  induction a as [|c a IH]; intros H.
  - cbn [append split_at]. rewrite Ascii.eqb_refl. reflexivity.
  - rewrite all_in_cons in H. apply andb_prop in H as [Hc Ha].
    cbn [append split_at]. apply negb_true_iff in Hc. rewrite Hc, (IH Ha). reflexivity.
Qed.

(** Joining the parts of a split with the separator gives the text back. *)
Lemma join_split_at c s : join_with (String c EmptyString) (split_at c s) = s.
Proof.
  induction s as [|x s IH]; [reflexivity|]. cbn [split_at].
  pose proof (split_at_nonempty c s) as N.
  destruct (Ascii.eqb_spec x c) as [->|M].
  - destruct (split_at c s) as [|h t]; [congruence|].
    cbn [join_with append] in *. rewrite IH. reflexivity.
  - destruct (split_at c s) as [|h t]; [congruence|].
    destruct t as [|y t]; cbn [join_with append] in *; rewrite IH; reflexivity.
Qed.

Lemma inherited_no_dot k : inherited k = true -> all_in no_dot k = true.
Proof.
  unfold inherited. intros H. apply existsb_exists in H as (x & Hin & E).
  apply String.eqb_eq in E. subst k.
  repeat (destruct Hin as [<-|Hin]; [reflexivity|]). destruct Hin.
Qed.

Lemma dotted_not_inherited d rest : inherited (d ++ "." ++ rest) = false.
Proof.
  destruct (inherited (d ++ "." ++ rest)) eqn:E; [|reflexivity].
  apply inherited_no_dot in E. rewrite all_in_app in E.
  apply andb_prop in E as [_ E]. discriminate.
Qed.

Lemma dotted_longer d rest : d ++ "." ++ rest <> d.
Proof.
  intros E. apply (f_equal String.length) in E. rewrite length_append in E.
  cbn [append String.length] in E. lia.
Qed.

Lemma with_right_twice b p q : with_right (with_right b p) q = with_right b q.
Proof. reflexivity. Qed.

(** A name made of the name [d] of a definition, a dot and a text: the
    definition of [d] is the one rendered, with the text written to it. *)
Lemma getBadgeElement_derived defs d b rest link :
  assoc d defs = Some b -> all_in no_dot d = true ->
  assoc (d ++ "." ++ rest) defs = None ->
  getBadgeElement defs (d ++ "." ++ rest) link
  = Some (makeBadgeElement (Some (with_right b rest)) link,
          set_entry d (with_right b rest) defs).
Proof.
  intros A D N. unfold getBadgeElement. rewrite N, dotted_not_inherited.
  cbn [append]. rewrite split_at_app by exact D. cbn [hd tl]. rewrite A.
  change "."%string with (String "." EmptyString) at 1. rewrite join_split_at.
  reflexivity.
Qed.

(** ** Properties of the badges *)

(** X19. Rendering a badge whose name is the name of a definition, a dot
    and a text writes the text into the shared definition: the text comes
    back whole from the split and join, and the badge of the definition
    itself is rendered with that text from then on. *)
Theorem derived_badge_overwrites defs d b rest link :
  assoc d defs = Some b -> all_in no_dot d = true ->
  assoc (d ++ "." ++ rest) defs = None ->
  getBadgeElement defs (d ++ "." ++ rest) link
  = Some (makeBadgeElement (Some (with_right b rest)) link,
          set_entry d (with_right b rest) defs)
  /\ getBadgeElement (set_entry d (with_right b rest) defs) d link
     = Some (makeBadgeElement (Some (with_right b rest)) link,
             set_entry d (with_right b rest) defs).
Proof.
  intros A D N. split; [apply getBadgeElement_derived; assumption|].
  unfold getBadgeElement. rewrite assoc_set_same. reflexivity.
Qed.

Lemma derived_badge_overwrites_witness :
  exists defs,
    getBadgeElement badge_definitions "work_in_progress.soon" JUndefined
    = Some (Ret "<img src='https://img.shields.io/badge/TB102-soon-yellow.png' >", defs)
    /\ getBadgeElement defs "work_in_progress" JUndefined
       = Some (Ret "<img src='https://img.shields.io/badge/TB102-soon-yellow.png' >", defs).
Proof.
  eexists.
  apply (derived_badge_overwrites badge_definitions "work_in_progress"
           {| bLeftText := JStr "TB102"; bRightText := JStr "work in progress";
              bColor := JStr "yellow"; bTooltip := JUndefined |} "soon" JUndefined);
    reflexivity.
Defined.

(** X20. Badges derived from one definition and rendered one after the
    other on the shared definitions come out as if each were rendered
    alone: every one is rendered with its own text. *)
Theorem render_derived_badges d texts : forall b defs,
  assoc d defs = Some b -> all_in no_dot d = true ->
  (forall text, assoc (d ++ "." ++ text) defs = None) ->
  exists elements defs',
    render_badges defs (map (fun text => d ++ "." ++ text) texts)
    = Some (Ret elements, defs')
    /\ Forall2 (fun text element =>
                  makeBadgeElement (Some (with_right b text)) JUndefined = Ret element)
               texts elements.
Proof.
  induction texts as [|text texts IH]; intros b defs A D N.
  - exists [], defs. split; [reflexivity | constructor].
  - cbn [map render_badges].
    rewrite (getBadgeElement_derived defs d b text JUndefined A D (N text)).
    cbn [makeBadgeElement truthy].
    destruct (IH (with_right b text) (set_entry d (with_right b text) defs))
      as (els & defs' & R & F).
    + apply assoc_set_same.
    + exact D.
    + intros t. rewrite assoc_set_other by apply dotted_longer. apply N.
    + rewrite R. eexists. exists defs'. split; [reflexivity|].
      constructor; [reflexivity | exact F].
Qed.

Lemma render_derived_badges_witness :
  exists elements defs',
    render_badges badge_definitions ["permission.storage"; "permission.tabs"]
    = Some (Ret elements, defs')
    /\ Forall2 (fun text element =>
                  makeBadgeElement
                    (Some (with_right {| bLeftText := JStr "p"; bRightText := JUndefined;
                                         bColor := JStr "orange";
                                         bTooltip := JStr "Requested permission" |} text))
                    JUndefined
                  = Ret element)
               ["storage"; "tabs"] elements.
Proof.
  apply (render_derived_badges "permission" ["storage"; "tabs"] _ badge_definitions);
    [reflexivity | reflexivity |].
  intros text. cbn [badge_definitions assoc append].
  repeat match goal with
         | |- context [(?a =? ?b)%string] =>
             destruct (String.eqb_spec a b) as [E|_]; [discriminate E|]
         end.
  reflexivity.
Defined.

(** ** The statistics *)

Lemma count_badges_adds name : forall stats counts,
  Forall (fun n => inherited n = false) stats ->
  exists counts',
    count_badges stats counts = Some counts'
    /\ match assoc name counts' with Some n => n | None => 0 end
       = Z.of_nat (count_occ string_dec stats name)
         + match assoc name counts with
           | Some n => n
           | None => 0
           end.
Proof.
  induction stats as [|x stats IH]; intros counts F.
  - exists counts. split; [reflexivity|]. cbn [count_occ]. lia.
  - inversion F as [|? ? Fx Frest]; subst. cbn [count_badges]. rewrite Fx.
    destruct (IH (set_entry x (1 + match assoc x counts with
                                    | Some n => if n =? 0 then 0 else n
                                    | None => 0
                                    end) counts) Frest) as (r & E & C).
    exists r. split; [exact E|]. rewrite C. cbn [count_occ].
    destruct (string_dec x name) as [->|N].
    + rewrite assoc_set_same. destruct (assoc name counts) as [n|]; [|lia].
      destruct (Z.eqb_spec n 0); lia.
    + rewrite assoc_set_other by (apply not_eq_sym, N). lia.
Qed.

Lemma count_badges_absent name : forall stats counts counts',
  assoc name counts = None -> ~ In name stats ->
  count_badges stats counts = Some counts' -> assoc name counts' = None.
Proof.
  induction stats as [|x stats IH]; intros counts counts' A N H.
  - injection H as <-. exact A.
  - cbn [count_badges] in H. destruct (inherited x); [discriminate|].
    apply IH in H; [exact H | | intros I; apply N; right; exact I].
    rewrite assoc_set_other; [exact A|]. intros ->. apply N. left. reflexivity.
Qed.

(** X21. The statistics of a report count every badge as often as it
    occurs among the badges of the rows, and hold nothing else. *)
Theorem count_badges_occurrences stats name :
  Forall (fun n => inherited n = false) stats ->
  exists counts,
    count_badges stats [] = Some counts
    /\ assoc name counts
       = if in_dec string_dec name stats
         then Some (Z.of_nat (count_occ string_dec stats name))
         else None.
Proof.
  intros F. destruct (count_badges_adds name stats [] F) as (counts & E & C).
  exists counts. split; [exact E|]. cbn [assoc] in C. rewrite Z.add_0_r in C.
  destruct (in_dec string_dec name stats) as [I|I].
  - destruct (assoc name counts) as [n|] eqn:A; [rewrite C; reflexivity|].
    apply (count_occ_In string_dec) in I. lia.
  - apply (count_badges_absent name stats [] counts); [reflexivity | exact I | exact E].
Qed.

Lemma count_badges_occurrences_witness :
  exists counts,
    count_badges ["permission.tabs"; "incompatible102"; "permission.tabs"] []
    = Some counts
    /\ assoc "permission.tabs" counts = Some 2.
Proof.
  apply (count_badges_occurrences
           ["permission.tabs"; "incompatible102"; "permission.tabs"] "permission.tabs").
  repeat constructor.
Defined.

End BadgeFacts.
